(** * F1Live: the replay timeline builder and the championship aggregator

    A shallow embedding of the two data transformations of the dashboard:

    - [processRaceData] and [interpolateDriverPositions] of
      [src/components/RaceReplay.tsx] (the replay timeline), and
    - [getChampionshipStandings] of [src/services/openf1.ts] (the season
      standings),

    followed by the properties the specification states about them; then
    the functions around them: [getQualifyingPositions], [skipToLap],
    [getCurrentRaceStats] and the timing table of the replay component,
    [getRaceReplayData] and [getMeetings] of the service, with properties
    read off the code.

    Conventions of the embedding.
    - Integral JavaScript numbers (driver numbers, positions, lap numbers,
      counters, epoch milliseconds) are [Z].
    - The frame times are IEEE doubles: a double is the rational it denotes,
      and each operation of [timeStep] and [currentTime] rounds its exact
      result to the nearest double, ties to even ([round_double]; overflow
      to infinity is outside the model).
    - The other fractional numbers (progress, durations, the ratio of the
      interpolation) are exact rationals [Q]; the properties stated about
      them use their order and the places where two of them are equal.
    - An ISO-8601 date string is represented by the epoch-millisecond value
      that [new Date(s).getTime()] denotes; unparseable dates are outside
      the model.
    - [null] / [undefined] are [None].
    - An ES [Map] is an association list in insertion order, see [JsMap].
    - [Array.prototype.sort] with a comparator that is a difference of
      integers (the sorts of the replay) is the stable sort [js_sort], which
      the language prescribes for a consistent comparator.  The comparator of
      the standings returns [NaN] on points that are [NaN]; what [sort]
      does then is left to the engine, and the standings take the [sort] of
      the engine as a parameter ([engine_sort]).
    - [Date.now()] and the OpenF1 endpoints are explicit parameters. *)

From Stdlib Require Import ZArith QArith Qabs Qminmax Qround Qpower Lia Lqa.
From Stdlib Require Import List Permutation Sorted.
From Stdlib Require Import String Ascii DecimalString.
From stdpp Require Import base list sorting gmap strings.

Local Open Scope Z_scope.

(* ===================================================================== *)
(** * JavaScript prelude *)
(* ===================================================================== *)

(** ** Numbers that may be [NaN]

    Only the points counters of the standings can leave the integers: reading
    [pointsSystem[position - 1]] outside the table yields [undefined], and
    [points += undefined] is [NaN]. *)
Inductive number : Type :=
| Num (z : Z)
| NaN.

#[global] Instance number_eq_dec : EqDecision number.
Proof. solve_decision. Defined.

Definition num_add (a b : number) : number :=
  match a, b with
  | Num x, Num y => Num (x + y)
  | _, _ => NaN
  end.

Definition num_sub (a b : number) : number :=
  match a, b with
  | Num x, Num y => Num (x - y)
  | _, _ => NaN
  end.

(** [a !== b] on numbers: [NaN] differs from everything, itself included. *)
Definition num_neq (a b : number) : bool :=
  match a, b with
  | Num x, Num y => negb (x =? y)
  | _, _ => true
  end.

(** [v || 0]: [NaN] and [0] are falsy. *)
Definition num_or_zero (v : number) : number :=
  match v with
  | Num z => Num z
  | NaN => Num 0
  end.

(** What [Array.prototype.sort] makes of a comparator result: a [NaN] result
    counts as [+0]. *)
Definition sort_value (v : number) : Z :=
  match v with
  | Num z => z
  | NaN => 0
  end.


(** ** [Array.prototype.sort]

    The language fixes the result of [sort] for a consistent comparator: the
    sort is stable (ECMAScript 2019), so the result is the one of the stable
    insertion sort [js_sort].  [cmp a b < 0] puts [a] first, [cmp a b = 0]
    keeps the order of the input.  For a comparator that is not consistent
    the order is left to the implementation: see [engine_sort] below. *)
Section Sort.
Context {A : Type} (cmp : A -> A -> Z).

Fixpoint js_insert (x : A) (l : list A) : list A :=
  match l with
  | [] => [x]
  | y :: l' => if cmp x y <=? 0 then x :: y :: l' else y :: js_insert x l'
  end.

Fixpoint js_sort (l : list A) : list A :=
  match l with
  | [] => []
  | x :: l' => js_insert x (js_sort l')
  end.

End Sort.

(** An implementation of [Array.prototype.sort], given a comparator whose
    result may be [NaN]. *)
Definition engine_sort : Type :=
  forall A : Type, (A -> A -> number) -> list A -> list A.

(** Whatever the comparator, the result has the elements of the array. *)
Definition permuting (sort : engine_sort) : Prop :=
  forall (A : Type) (cmp : A -> A -> number) (l : list A),
    Permutation (sort A cmp l) l.

(** A consistent comparator for the elements of [l] (ECMAScript,
    Array.prototype.sort): no result is [NaN], and "equal", "less" and
    "greater" are an equivalence and two transitive relations. *)
Definition consistent {A : Type} (cmp : A -> A -> number) (l : list A) : Prop :=
  (forall a b, In a l -> In b l -> cmp a b <> NaN)
  /\ (forall a, In a l -> sort_value (cmp a a) = 0)
  /\ (forall a b, In a l -> In b l ->
        sort_value (cmp a b) = 0 -> sort_value (cmp b a) = 0)
  /\ (forall a b c, In a l -> In b l -> In c l ->
        sort_value (cmp a b) = 0 -> sort_value (cmp b c) = 0 ->
        sort_value (cmp a c) = 0)
  /\ (forall a b c, In a l -> In b l -> In c l ->
        sort_value (cmp a b) < 0 -> sort_value (cmp b c) < 0 ->
        sort_value (cmp a c) < 0)
  /\ (forall a b c, In a l -> In b l -> In c l ->
        0 < sort_value (cmp a b) -> 0 < sort_value (cmp b c) ->
        0 < sort_value (cmp a c)).

(** What the language requires of an implementation: the elements are kept,
    and for a consistent comparator the result is the stable sort. *)
Definition conforming (sort : engine_sort) : Prop :=
  permuting sort
  /\ forall (A : Type) (cmp : A -> A -> number) (l : list A),
       consistent cmp l ->
       sort A cmp l = js_sort (fun a b => sort_value (cmp a b)) l.

(** The implementation that is the stable insertion sort on every
    comparator, a [NaN] result counting as [+0]. *)
Definition stable_sort : engine_sort :=
  fun A cmp l => js_sort (fun a b => sort_value (cmp a b)) l.

(** ** ES [Map] and [Set]: insertion-ordered *)
Module JsMap.
Section Defs.
Context {K V : Type} `{EqDecision K}.

Fixpoint get (m : list (K * V)) (k : K) : option V :=
  match m with
  | [] => None
  | (k', v) :: m' => if decide (k' = k) then Some v else get m' k
  end.

Definition has (m : list (K * V)) (k : K) : bool :=
  match get m k with
  | Some _ => true
  | None => false
  end.

(** [m.set(k, v)]: an existing key keeps its place, a new one goes last. *)
Fixpoint set (m : list (K * V)) (k : K) (v : V) : list (K * V) :=
  match m with
  | [] => [(k, v)]
  | (k', v') :: m' =>
      if decide (k' = k) then (k, v) :: m' else (k', v') :: set m' k v
  end.

(** Mutation of the object stored under [k] (after [m.get(k)!]). *)
Definition update (m : list (K * V)) (k : K) (f : V -> V) : list (K * V) :=
  match get m k with
  | Some v => set m k (f v)
  | None => m
  end.

(** [s.add(k)] on a [Set]. *)
Definition add (s : list K) (k : K) : list K :=
  if decide (k ∈ s) then s else s ++ [k].

End Defs.
End JsMap.

(** ** Strings *)

Definition lower_ascii (c : ascii) : ascii :=
  let n := nat_of_ascii c in
  if ((65 <=? n)%nat && (n <=? 90)%nat)%bool then ascii_of_nat (n + 32) else c.

(** [s.toLowerCase()], on the ASCII range. *)
Fixpoint toLowerCase (s : string) : string :=
  match s with
  | EmptyString => EmptyString
  | String c s' => String (lower_ascii c) (toLowerCase s')
  end.

(** [s.includes(sub)] *)
Definition includes (sub s : string) : bool :=
  match String.index 0 sub s with
  | Some _ => true
  | None => false
  end.

(** [s || dflt] on strings: the empty string is falsy. *)
Definition str_or (s dflt : string) : string :=
  match s with
  | EmptyString => dflt
  | _ => s
  end.

(** [n || dflt] on integral numbers: [undefined] and [0] are falsy. *)
Definition int_or (n : option Z) (dflt : Z) : Z :=
  match n with
  | Some z => if z =? 0 then dflt else z
  | None => dflt
  end.

(** [x || null] on an optional fractional number. *)
Definition frac_or_null (x : option Q) : option Q :=
  match x with
  | Some q => if Qeq_bool q 0 then None else Some q
  | None => None
  end.

(** ** IEEE doubles

    A finite double is represented by the rational it denotes.
    [round_double x] is the double nearest to [x], ties to even: a 53-bit
    significand, and no exponent below -1074.  A basic operation of the engine
    on finite doubles is the exact operation followed by this rounding.
    Overflow to [Infinity] is not modelled: it takes a magnitude of 2^1024,
    which no time value comes near. *)

Definition pow2 (k : Z) : Q := (2 ^ k)%Q.

(** [floor (log2 |x|)], for [x] other than 0. *)
Definition binade (x : Q) : Z :=
  let k := Z.log2 (Z.abs (Qnum x)) - Z.log2 (Z.pos (Qden x)) in
  if Qle_bool (pow2 k) (Qabs x) then k else k - 1.

(** The nearest integer, the even one of two that are equally near. *)
Definition round_half_even (q : Q) : Z :=
  let f := Qfloor q in
  match (q - inject_Z f ?= 1 # 2)%Q with
  | Lt => f
  | Gt => f + 1
  | Eq => if Z.even f then f else f + 1
  end.

(** The exponent of the last place of the doubles around [x]. *)
Definition double_exponent (x : Q) : Z := Z.max (binade x - 52) (-1074).

Definition round_double (x : Q) : Q :=
  if Qeq_bool x 0 then 0%Q
  else
    let e := double_exponent x in
    Qred (inject_Z (round_half_even (x / pow2 e)) * pow2 e).

Definition double_add (x y : Q) : Q := round_double (x + y).
Definition double_sub (x y : Q) : Q := round_double (x - y).
Definition double_mul (x y : Q) : Q := round_double (x * y).
Definition double_div (x y : Q) : Q := round_double (x / y).

(** The decimal digits of a natural number. *)
Definition show_digits (n : Z) : string :=
  NilZero.string_of_uint (N.to_uint (Z.to_N n)).

(** The candidates [(k, n, s)] of Number::toString for the positive double
    [x]: [s] has [k] digits and [s * 10^(n - k)] rounds to [x]. *)
Definition digit_candidates (x : Q) (k : Z) : list (Z * Z) :=
  let nd := Z.of_nat (String.length (show_digits (Qfloor x))) in
  List.filter (fun c : Z * Z =>
      let '(n, s) := c in
      (10 ^ (k - 1) <=? s) && (s <? 10 ^ k)
      && Qeq_bool (round_double (inject_Z s * inject_Z 10 ^ (n - k))) x)
    (flat_map (fun n =>
         let s := Qfloor (x / inject_Z 10 ^ (n - k)) in [(n, s); (n, s + 1)])
       [nd; nd + 1]).

(** The nearer to [x] of two candidates with [k] digits; the even one when
    they are as near. *)
Definition nearer (x : Q) (k : Z) (a b : Z * Z) : Z * Z :=
  let dist (c : Z * Z) := Qabs (inject_Z c.2 * inject_Z 10 ^ (c.1 - k) - x) in
  match (dist a ?= dist b)%Q with
  | Lt => a
  | Gt => b
  | Eq => if Z.even a.2 then a else b
  end.

Fixpoint shortest_digits (x : Q) (ks : list Z) : option (Z * Z * Z) :=
  match ks with
  | [] => None
  | k :: ks' =>
      match digit_candidates x k with
      | c :: cs => let '(n, s) := fold_left (nearer x k) cs c in Some (k, n, s)
      | [] => shortest_digits x ks'
      end
  end.

(** Number::toString for a positive integral double that is 2^53 or more. *)
Definition show_large (x : Q) : string :=
  match shortest_digits x (seqZ 1 17) with
  | Some (k, n, s) =>
      let digits := show_digits s in
      if n <=? 21 then
        digits ++ String.concat "" (repeat "0"%string (Z.to_nat (n - k)))
      else
        match digits with
        | String d EmptyString => String d ("e+" ++ show_digits (n - 1))
        | String d rest => String d ("." ++ rest ++ "e+" ++ show_digits (n - 1))
        | EmptyString => EmptyString
        end
  | None => EmptyString
  end.

(** [`${n}`] for an integral number.  Below 2^53 every integer is a double
    and all its digits are printed; from there on the number is the nearest
    double, and Number::toString prints the shortest digits that denote it,
    followed by zeros up to 10^21 and in exponent notation above. *)
Definition show_number (n : Z) : string :=
  if Z.abs n <? 2 ^ 53 then NilZero.string_of_int (Z.to_int n)
  else
    let x := round_double (inject_Z (Z.abs n)) in
    (if n <? 0 then "-" else "") ++ show_large x.

(** Integer part of a time value, as [new Date(t)] takes it (towards zero;
    beyond 8.64e15 ms the date is invalid, which is outside the model). *)
Definition time_clip (t : Q) : Z :=
  Z.quot (Qnum t) (Z.pos (Qden t)).

(* ===================================================================== *)
(** * The OpenF1 records ([src/types/f1.ts]) *)
(* ===================================================================== *)

Module Driver.
Record t : Type := mk {
  driver_number : Z;
  full_name : string;
  name_acronym : string;
  team_colour : string;
  team_name : string
}.
End Driver.

Module Position.
Record t : Type := mk {
  date : Z;
  driver_number : Z;
  position : Z
}.
End Position.

Module Lap.
Record t : Type := mk {
  date_start : Z;
  driver_number : Z;
  duration_sector_1 : option Q;
  duration_sector_2 : option Q;
  duration_sector_3 : option Q;
  is_pit_out_lap : bool;
  lap_duration : option Q;
  lap_number : Z
}.
End Lap.

Module RaceControl.
Record t : Type := mk {
  category : string;
  date : Z;
  driver_number : option Z;
  flag : option string;
  message : string
}.
End RaceControl.

Module Session.
Record t : Type := mk {
  session_key : Z;
  session_name : string
}.
End Session.

(* ===================================================================== *)
(** * Championship standings ([getChampionshipStandings]) *)
(* ===================================================================== *)

(** The request layer.  [None] is a rejected promise ([fetchData] throws on a
    response that is not [ok]). *)
Record Api : Type := mkApi {
  getSessions : Z -> option (list Session.t);
  getDrivers : Z -> option (list Driver.t);
  getPositions : Z -> option (list Position.t)
}.

Module DriverStat.
Record t : Type := mk {
  driver : Driver.t;
  points : number;
  wins : Z;
  podiums : Z
}.
End DriverStat.

Module ConstructorStat.
Record t : Type := mk {
  team_name : string;
  team_colour : string;
  points : number;
  wins : Z;
  podiums : Z;
  drivers : list Z
}.
End ConstructorStat.

Module DriverStanding.
Record t : Type := mk {
  position : Z;
  driver_number : Z;
  name_acronym : string;
  full_name : string;
  team_name : string;
  team_colour : string;
  points : number;
  wins : Z;
  podiums : Z
}.
End DriverStanding.

Module TeamDriver.
Record t : Type := mk {
  driver_number : Z;
  name_acronym : string;
  points : number
}.
End TeamDriver.

Module ConstructorStanding.
Record t : Type := mk {
  position : Z;
  team_name : string;
  team_colour : string;
  points : number;
  wins : Z;
  podiums : Z;
  drivers : list TeamDriver.t
}.
End ConstructorStanding.

(** The result, without its [last_updated] stamp (a clock reading). *)
Module ChampionshipData.
Record t : Type := mk {
  drivers : list DriverStanding.t;
  constructors : list ConstructorStanding.t
}.
End ChampionshipData.

(** The two accumulators of the season loop. *)
Record Stats : Type := mkStats {
  driverStats : list (Z * DriverStat.t);
  constructorStats : list (string * ConstructorStat.t)
}.

Definition is_race_session (s : Session.t) : bool :=
  includes "race" (toLowerCase (Session.session_name s))
  && negb (includes "sprint" (toLowerCase (Session.session_name s))).

Definition pointsSystem : list Z := [25; 18; 15; 12; 10; 8; 6; 4; 2; 1].

(** [position <= pointsSystem.length ? pointsSystem[position - 1] : 0], as it
    is added to a counter: an index outside the table reads [undefined]. *)
Definition points_for (position : Z) : number :=
  if position <=? Z.of_nat (List.length pointsSystem) then
    if 1 <=? position then
      match nth_error pointsSystem (Z.to_nat (position - 1)) with
      | Some p => Num p
      | None => NaN
      end
    else NaN
  else Num 0.

(** [!existing] *)
Definition no_existing (existing : option Z) : bool :=
  match existing with
  | Some z => z =? 0
  | None => true
  end.

(** The test of the [forEach] body of lines 491-496: is [pos] to replace the
    position recorded so far?  The date it is compared with is that of the
    first record of the driver that shows the recorded position ([|| '']
    gives an invalid date, which compares false). *)
Definition replaces_existing (positions : list Position.t)
    (existing : option Z) (pos : Position.t) : bool :=
  no_existing existing
  || match List.find (fun p =>
              (Position.driver_number p =? Position.driver_number pos)
              && bool_decide (Some (Position.position p) = existing))
            positions with
     | Some p => Position.date pos >? Position.date p
     | None => false
     end.

Definition final_step (positions : list Position.t)
    (finalPositions : list (Z * Z)) (pos : Position.t) : list (Z * Z) :=
  let existing := JsMap.get finalPositions (Position.driver_number pos) in
  if replaces_existing positions existing pos
  then JsMap.set finalPositions (Position.driver_number pos) (Position.position pos)
  else finalPositions.

(** "Get final race positions (latest position for each driver)" *)
Definition finalPositions (positions : list Position.t) : list (Z * Z) :=
  fold_left (final_step positions) positions [].

Definition bump (b : bool) (n : Z) : Z := if b then n + 1 else n.

Definition credit_driver (points : number) (isWin isPodium : bool)
    (s : DriverStat.t) : DriverStat.t :=
  DriverStat.mk (DriverStat.driver s)
    (num_add (DriverStat.points s) points)
    (bump isWin (DriverStat.wins s))
    (bump isPodium (DriverStat.podiums s)).

Definition credit_constructor (points : number) (driverNumber : Z)
    (isWin isPodium : bool) (s : ConstructorStat.t) : ConstructorStat.t :=
  ConstructorStat.mk (ConstructorStat.team_name s) (ConstructorStat.team_colour s)
    (num_add (ConstructorStat.points s) points)
    (bump isWin (ConstructorStat.wins s))
    (bump isPodium (ConstructorStat.podiums s))
    (JsMap.add (ConstructorStat.drivers s) driverNumber).

(** "Award points based on final positions": the body of the second
    [forEach], for one entry of [finalPositions]. *)
Definition award (drivers : list Driver.t) (st : Stats) (entry : Z * Z) : Stats :=
  let '(driverNumber, position) := entry in
  match List.find (fun d => Driver.driver_number d =? driverNumber) drivers with
  | None => st
  | Some driver =>
      let points := points_for position in
      let isWin := position =? 1 in
      let isPodium := position <=? 3 in
      let ds :=
        if JsMap.has (driverStats st) driverNumber then driverStats st
        else JsMap.set (driverStats st) driverNumber
               (DriverStat.mk driver (Num 0) 0 0) in
      let ds := JsMap.update ds driverNumber (credit_driver points isWin isPodium) in
      let team := Driver.team_name driver in
      let cs :=
        if JsMap.has (constructorStats st) team then constructorStats st
        else JsMap.set (constructorStats st) team
               (ConstructorStat.mk team (Driver.team_colour driver) (Num 0) 0 0 []) in
      let cs :=
        JsMap.update cs team (credit_constructor points driverNumber isWin isPodium) in
      mkStats ds cs
  end.

(** The two [forEach] loops of one race session. *)
Definition award_session (drivers : list Driver.t) (positions : list Position.t)
    (st : Stats) : Stats :=
  fold_left (award drivers) (finalPositions positions) st.

(** One turn of the season loop.  The [try] block awaits both requests before
    it touches the accumulators, so a rejected request leaves them as they
    were; the [catch] logs a warning and the loop goes on. *)
Definition process_session (api : Api) (st : Stats) (raceSession : Session.t) : Stats :=
  match getDrivers api (Session.session_key raceSession),
        getPositions api (Session.session_key raceSession) with
  | Some drivers, Some positions => award_session drivers positions st
  | _, _ => st
  end.

(** The comparator shared by both tables, on the (points, wins, podiums) of
    its two arguments. *)
Definition score_cmp (a b : number * Z * Z) : number :=
  let '(pa, wa, ka) := a in
  let '(pb, wb, kb) := b in
  if num_neq pb pa then num_sub pb pa
  else if negb (wb =? wa) then Num (wb - wa)
  else Num (kb - ka).

Definition driver_score (d : DriverStanding.t) : number * Z * Z :=
  (DriverStanding.points d, DriverStanding.wins d, DriverStanding.podiums d).

Definition constructor_score (c : ConstructorStanding.t) : number * Z * Z :=
  (ConstructorStanding.points c, ConstructorStanding.wins c, ConstructorStanding.podiums c).

Definition driver_cmp (a b : DriverStanding.t) : number :=
  score_cmp (driver_score a) (driver_score b).

Definition constructor_cmp (a b : ConstructorStanding.t) : number :=
  score_cmp (constructor_score a) (constructor_score b).

(** [Array.from(driverStats.entries()).map(...)]: the rows before sorting. *)
Definition driver_row (e : Z * DriverStat.t) : DriverStanding.t :=
  let '(driverNumber, stats) := e in
  DriverStanding.mk 0 driverNumber
    (Driver.name_acronym (DriverStat.driver stats))
    (Driver.full_name (DriverStat.driver stats))
    (Driver.team_name (DriverStat.driver stats))
    (Driver.team_colour (DriverStat.driver stats))
    (DriverStat.points stats) (DriverStat.wins stats) (DriverStat.podiums stats).

Definition team_driver (ds : list (Z * DriverStat.t)) (driverNumber : Z) : TeamDriver.t :=
  match JsMap.get ds driverNumber with
  | Some driverStat =>
      TeamDriver.mk driverNumber
        (str_or (Driver.name_acronym (DriverStat.driver driverStat))
                ("D" ++ show_number driverNumber))
        (num_or_zero (DriverStat.points driverStat))
  | None => TeamDriver.mk driverNumber ("D" ++ show_number driverNumber) (Num 0)
  end.

Definition constructor_row (ds : list (Z * DriverStat.t))
    (e : string * ConstructorStat.t) : ConstructorStanding.t :=
  let '(teamName, stats) := e in
  ConstructorStanding.mk 0 teamName (ConstructorStat.team_colour stats)
    (ConstructorStat.points stats) (ConstructorStat.wins stats)
    (ConstructorStat.podiums stats)
    (List.map (team_driver ds) (ConstructorStat.drivers stats)).

Definition set_driver_position (index : nat) (d : DriverStanding.t) : DriverStanding.t :=
  DriverStanding.mk (Z.of_nat index + 1)
    (DriverStanding.driver_number d) (DriverStanding.name_acronym d)
    (DriverStanding.full_name d) (DriverStanding.team_name d)
    (DriverStanding.team_colour d) (DriverStanding.points d)
    (DriverStanding.wins d) (DriverStanding.podiums d).

Definition set_constructor_position (index : nat) (c : ConstructorStanding.t)
    : ConstructorStanding.t :=
  ConstructorStanding.mk (Z.of_nat index + 1)
    (ConstructorStanding.team_name c) (ConstructorStanding.team_colour c)
    (ConstructorStanding.points c) (ConstructorStanding.wins c)
    (ConstructorStanding.podiums c) (ConstructorStanding.drivers c).

Definition driver_rows (st : Stats) : list DriverStanding.t :=
  List.map driver_row (driverStats st).

Definition constructor_rows (st : Stats) : list ConstructorStanding.t :=
  List.map (constructor_row (driverStats st)) (constructorStats st).

(** The two tables, sorted by the [sort] of the engine and numbered. *)
Definition driverStandings (sort : engine_sort) (st : Stats) : list DriverStanding.t :=
  imap set_driver_position (sort _ driver_cmp (driver_rows st)).

Definition constructorStandings (sort : engine_sort) (st : Stats)
    : list ConstructorStanding.t :=
  imap set_constructor_position (sort _ constructor_cmp (constructor_rows st)).

(** The accumulators after the loop over the race sessions of the year. *)
Definition season_stats (api : Api) (sessions : list Session.t) : Stats :=
  fold_left (process_session api) (List.filter is_race_session sessions)
    (mkStats [] []).

(** [getChampionshipStandings(year)]; [None] is the rethrown failure of the
    session request. *)
Definition getChampionshipStandings (sort : engine_sort) (api : Api) (year : Z)
    : option ChampionshipData.t :=
  match getSessions api year with
  | None => None
  | Some sessions =>
      let st := season_stats api sessions in
      Some (ChampionshipData.mk (driverStandings sort st) (constructorStandings sort st))
  end.

(* ===================================================================== *)
(** * Race replay ([processRaceData], [interpolateDriverPositions]) *)
(* ===================================================================== *)

(** An element of [PositionChartData.positions]. *)
Module ChartPosition.
Record t : Type := mk {
  driver_number : Z;
  position : Z;
  progress : Q;
  team_colour : string;
  name_acronym : string;
  full_name : string;
  pit_stops : Z;
  is_in_pit : bool;
  last_lap_time : option Q;
  sector_1_time : option Q;
  sector_2_time : option Q;
  sector_3_time : option Q;
  current_lap_number : Z;
  interpolated_position : option Q;
  position_change : option Z
}.
End ChartPosition.

Module ChartFlag.
Record t : Type := mk {
  type : string;
  message : string;
  driver_number : option Z
}.
End ChartFlag.

(** A frame.  [timestamp] is the instant its ISO string denotes. *)
Module PositionChartData.
Record t : Type := mk {
  timestamp : Z;
  lapNumber : Z;
  totalLaps : Z;
  positions : list ChartPosition.t;
  flags : list ChartFlag.t
}.
End PositionChartData.

(** An element of [allLapCompletions]. *)
Module LapCompletion.
Record t : Type := mk {
  timestamp : Z;
  driver_number : Z;
  lap_number : Z;
  cumulative_time : Q;
  position : Z
}.
End LapCompletion.

(** A value of the [driverStates] map. *)
Module DriverState.
Record t : Type := mk {
  position : Z;
  lap_number : Z;
  cumulative_time : Q;
  pit_stops : Z;
  is_in_pit : bool;
  baseline_progress : Q
}.
End DriverState.

Definition Qlt_bool (a b : Q) : bool := negb (Qle_bool b a).

Definition is_some {A : Type} (o : option A) : bool :=
  match o with
  | Some _ => true
  | None => false
  end.

(** Truthiness of [rc.flag]. *)
Definition flag_set (f : option string) : bool :=
  match f with
  | Some (String _ _) => true
  | _ => false
  end.

Section Replay.
(** The arguments of [processRaceData], and the two readings of [Date.now()]
    taken (in this order) for [startTime] and [endTime] when there is no lap
    completion. *)
Context (now0 now1 : Z).
Context (drivers : list Driver.t) (positions : list Position.t) (laps : list Lap.t).
Context (qualifyingPositions : gmap Z Z) (raceControl : list RaceControl.t).

Definition maxLap : Z :=
  fold_right Z.max 1 (List.map Lap.lap_number laps).

(** [laps.filter(lap => lap.driver_number === n).length] *)
Definition lap_records (n : Z) : nat :=
  List.length (List.filter (fun lap => Lap.driver_number lap =? n) laps).

Definition finishingDrivers : list Driver.t :=
  List.filter (fun driver => (3 <? lap_records (Driver.driver_number driver))%nat) drivers.

(** [qualifyingPositions[n] || n] *)
Definition grid_position (n : Z) : Z :=
  int_or (qualifyingPositions !! n) n.

(** The [position] expression of lines 170-173. *)
Definition lap_position (driver : Driver.t) (lap : Lap.t) : Z :=
  int_or
    (Position.position <$>
       List.find (fun p =>
           (Position.driver_number p =? Driver.driver_number driver)
           && (Z.abs (Position.date p - Lap.date_start lap) <? 60000))
         positions)
    (grid_position (Driver.driver_number driver)).

Definition driverLaps (driver : Driver.t) : list Lap.t :=
  js_sort (fun a b => Lap.lap_number a - Lap.lap_number b)
    (List.filter (fun lap =>
         (Lap.driver_number lap =? Driver.driver_number driver)
         && is_some (Lap.lap_duration lap))
       laps).

(** The inner [forEach] of lines 163-175, with its running [cumulativeTime]. *)
Fixpoint push_completions (driver : Driver.t) (cumulativeTime : Q)
    (ls : list Lap.t) : list LapCompletion.t :=
  match ls with
  | [] => []
  | lap :: rest =>
      let cumulativeTime := (cumulativeTime + default 0 (Lap.lap_duration lap))%Q in
      LapCompletion.mk (Lap.date_start lap) (Driver.driver_number driver)
        (Lap.lap_number lap) cumulativeTime (lap_position driver lap)
      :: push_completions driver cumulativeTime rest
  end.

Definition driver_completions (driver : Driver.t) : list LapCompletion.t :=
  push_completions driver 0%Q (driverLaps driver).

(** [allLapCompletions], after the chronological sort of line 179. *)
Definition allLapCompletions : list LapCompletion.t :=
  js_sort (fun a b => LapCompletion.timestamp a - LapCompletion.timestamp b)
    (flat_map driver_completions finishingDrivers).

Definition timeIntervals : Z := Z.min (maxLap * 2) 100.

Definition startTime : Z :=
  match allLapCompletions with
  | c :: _ => LapCompletion.timestamp c
  | [] => now0
  end.

Definition endTime : Z :=
  match last allLapCompletions with
  | Some c => LapCompletion.timestamp c
  | None => now1 + 1000
  end.

(** [(endTime - startTime) / timeIntervals], in doubles (the two times are
    whole milliseconds, and doubles as such). *)
Definition timeStep : Q :=
  double_div (double_sub (inject_Z endTime) (inject_Z startTime)) (inject_Z timeIntervals).

Definition raceProgressPerFrame : Q := 1 / inject_Z timeIntervals.

(** [startTime + (i * timeStep)], in doubles. *)
Definition currentTime (i : Z) : Q :=
  double_add (inject_Z startTime) (double_mul (inject_Z i) timeStep).

Definition globalProgress (i : Z) : Q := inject_Z i * raceProgressPerFrame.

(** "Initialize driver states" *)
Definition initial_states : list (Z * DriverState.t) :=
  fold_left (fun states driver =>
      JsMap.set states (Driver.driver_number driver)
        (DriverState.mk (grid_position (Driver.driver_number driver)) 0 0%Q 0 false 0%Q))
    finishingDrivers [].

(** The body of the [forEach] of lines 218-241, for one completion. *)
Definition apply_completion (now : Q) (states : list (Z * DriverState.t))
    (completion : LapCompletion.t) : list (Z * DriverState.t) :=
  if Qle_bool (inject_Z (LapCompletion.timestamp completion)) now then
    match JsMap.get states (LapCompletion.driver_number completion) with
    | Some driverState =>
        if LapCompletion.lap_number completion >? DriverState.lap_number driverState then
          let pitLap :=
            List.find (fun lap =>
                (Lap.driver_number lap =? LapCompletion.driver_number completion)
                && (Lap.lap_number lap =? LapCompletion.lap_number completion)
                && Lap.is_pit_out_lap lap)
              laps in
          JsMap.set states (LapCompletion.driver_number completion)
            (DriverState.mk
               (LapCompletion.position completion)
               (LapCompletion.lap_number completion)
               (LapCompletion.cumulative_time completion)
               (if is_some pitLap then DriverState.pit_stops driverState + 1
                else DriverState.pit_stops driverState)
               (is_some pitLap)
               (DriverState.baseline_progress driverState))
        else states
    | None => states
    end
  else states.

Definition advance_states (now : Q) (states : list (Z * DriverState.t))
    : list (Z * DriverState.t) :=
  fold_left (apply_completion now) allLapCompletions states.

Definition chart_flag (rc : RaceControl.t) : ChartFlag.t :=
  ChartFlag.mk
    (match RaceControl.flag rc with
     | Some (String c s) => String c s
     | _ => "FLAG"
     end)
    (RaceControl.message rc)
    (match RaceControl.driver_number rc with
     | Some n => if n =? 0 then None else Some n
     | None => None
     end).

Definition currentFlags (now : Q) : list ChartFlag.t :=
  List.map chart_flag
    (List.filter (fun rc =>
         Qlt_bool (Qabs (double_sub (inject_Z (RaceControl.date rc)) now)) 30000
         && (flag_set (RaceControl.flag rc)
             || bool_decide (RaceControl.category rc = "Flag")))
       raceControl).

(** Lines 259-273: the progress computed for a driver in one frame. *)
Definition computed_progress (global : Q) (driverState : DriverState.t) : Q :=
  if DriverState.lap_number driverState >? 0 then
    let lapProgress := (inject_Z (DriverState.lap_number driverState) / inject_Z maxLap)%Q in
    let positionModifier := (inject_Z (20 - DriverState.position driverState) * (2 # 1000))%Q in
    let progress := Qmin (lapProgress + positionModifier) 1 in
    Qmax progress (global * (8 # 10))
  else
    Qmax (global * (1 # 10)) (1 # 100).

Definition latestLap (now : Q) (driver : Driver.t) : option Lap.t :=
  head
    (js_sort (fun a b => Lap.lap_number b - Lap.lap_number a)
       (List.filter (fun lap =>
            (Lap.driver_number lap =? Driver.driver_number driver)
            && Qle_bool (inject_Z (Lap.date_start lap)) now)
          laps)).

(** The callback of [finishingDrivers.map] (lines 254-302) for one driver: it
    raises the driver's [baseline_progress] in the shared map and returns the
    entry, or [null] when the driver has no state. *)
Definition chart_position (now global : Q) (states : list (Z * DriverState.t))
    (driver : Driver.t) : list (Z * DriverState.t) * option ChartPosition.t :=
  match JsMap.get states (Driver.driver_number driver) with
  | None => (states, None)
  | Some driverState =>
      let progress := computed_progress global driverState in
      let baseline := Qmax (DriverState.baseline_progress driverState) progress in
      let progress := baseline in
      let latest := latestLap now driver in
      (JsMap.set states (Driver.driver_number driver)
         (DriverState.mk
            (DriverState.position driverState) (DriverState.lap_number driverState)
            (DriverState.cumulative_time driverState) (DriverState.pit_stops driverState)
            (DriverState.is_in_pit driverState) baseline),
       Some (ChartPosition.mk
               (Driver.driver_number driver)
               (DriverState.position driverState)
               (Qmax progress (1 # 100))
               (str_or (Driver.team_colour driver) "#ffffff")
               (str_or (Driver.name_acronym driver)
                       ("D" ++ show_number (Driver.driver_number driver)))
               (str_or (Driver.full_name driver)
                       ("Driver " ++ show_number (Driver.driver_number driver)))
               (DriverState.pit_stops driverState)
               (DriverState.is_in_pit driverState)
               (frac_or_null (latest ≫= Lap.lap_duration))
               (frac_or_null (latest ≫= Lap.duration_sector_1))
               (frac_or_null (latest ≫= Lap.duration_sector_2))
               (frac_or_null (latest ≫= Lap.duration_sector_3))
               (DriverState.lap_number driverState)
               None None))
  end.

(** [finishingDrivers.map(...)], threading the map of states. *)
Fixpoint map_chart_positions (now global : Q) (states : list (Z * DriverState.t))
    (ds : list Driver.t) : list (Z * DriverState.t) * list (option ChartPosition.t) :=
  match ds with
  | [] => (states, [])
  | driver :: rest =>
      let '(states1, entry) := chart_position now global states driver in
      let '(states2, entries) := map_chart_positions now global states1 rest in
      (states2, entry :: entries)
  end.

(** [.filter(Boolean)] *)
Definition filter_Boolean {A : Type} (l : list (option A)) : list A :=
  omap id l.

(** One turn of the frame loop (lines 212-317). *)
Definition frame_at (states : list (Z * DriverState.t)) (i : Z)
    : list (Z * DriverState.t) * PositionChartData.t :=
  let now := currentTime i in
  let states := advance_states now states in
  let flags := currentFlags now in
  let '(states, entries) :=
    map_chart_positions now (globalProgress i) states finishingDrivers in
  let chartPositions :=
    js_sort (fun a b => ChartPosition.position a - ChartPosition.position b)
      (filter_Boolean entries) in
  let currentLap :=
    fold_right Z.max 1 (List.map (fun e => DriverState.lap_number (snd e)) states) in
  (states, PositionChartData.mk (time_clip now) currentLap maxLap chartPositions flags).

Fixpoint frame_loop (states : list (Z * DriverState.t)) (indices : list Z)
    : list PositionChartData.t :=
  match indices with
  | [] => []
  | i :: rest =>
      let '(states', frame) := frame_at states i in
      frame :: frame_loop states' rest
  end.

(** [for (let i = 0; i <= timeIntervals; i++)] *)
Definition processRaceData : list PositionChartData.t :=
  frame_loop initial_states (seqZ 0 (timeIntervals + 1)).

End Replay.

Definition interpolate_driver (progress : Q) (prevDriver currentDriver : ChartPosition.t)
    : ChartPosition.t :=
  let interpolatedProgress :=
    (ChartPosition.progress prevDriver
     + (ChartPosition.progress currentDriver - ChartPosition.progress prevDriver) * progress)%Q in
  let interpolatedPosition :=
    (inject_Z (ChartPosition.position prevDriver)
     + inject_Z (ChartPosition.position currentDriver - ChartPosition.position prevDriver)
       * progress)%Q in
  ChartPosition.mk
    (ChartPosition.driver_number currentDriver)
    (ChartPosition.position currentDriver)
    interpolatedProgress
    (ChartPosition.team_colour currentDriver)
    (ChartPosition.name_acronym currentDriver)
    (ChartPosition.full_name currentDriver)
    (ChartPosition.pit_stops currentDriver)
    (ChartPosition.is_in_pit currentDriver)
    (ChartPosition.last_lap_time currentDriver)
    (ChartPosition.sector_1_time currentDriver)
    (ChartPosition.sector_2_time currentDriver)
    (ChartPosition.sector_3_time currentDriver)
    (ChartPosition.current_lap_number currentDriver)
    (Some interpolatedPosition)
    (Some (ChartPosition.position currentDriver - ChartPosition.position prevDriver)).

Definition interpolateDriverPositions (prevFrame : option PositionChartData.t)
    (currentFrame : PositionChartData.t) (progress : Q) : list ChartPosition.t :=
  match prevFrame with
  | None => PositionChartData.positions currentFrame
  | Some prevFrame =>
      if Qle_bool 1 progress then PositionChartData.positions currentFrame
      else
        List.map (fun currentDriver =>
            match List.find (fun p =>
                      ChartPosition.driver_number p =? ChartPosition.driver_number currentDriver)
                    (PositionChartData.positions prevFrame) with
            | None => currentDriver
            | Some prevDriver => interpolate_driver progress prevDriver currentDriver
            end)
          (PositionChartData.positions currentFrame)
  end.

(* ===================================================================== *)
(** * The vocabulary of the specification *)
(* ===================================================================== *)

(** ** Standings *)

(** The chronologically latest position sample of driver [n] (on equal dates,
    the later record), and the final classification the specification
    derives from it. *)
Definition latest_sample (positions : list Position.t) (n : Z) : option Position.t :=
  fold_left (fun best p =>
      if Position.driver_number p =? n then
        match best with
        | Some b => if Position.date b <=? Position.date p then Some p else best
        | None => Some p
        end
      else best)
    positions None.

Definition final_classification (positions : list Position.t) (n : Z) : option Z :=
  Position.position <$> latest_sample positions n.

(** The records of each driver stand in strictly increasing order of date. *)
Definition chronological (positions : list Position.t) : Prop :=
  StronglySorted
    (fun p q => Position.driver_number p = Position.driver_number q ->
                Position.date p < Position.date q)
    positions.



(** The same request layer, answering the session request with [sessions]. *)
Definition with_sessions (api : Api) (sessions : list Session.t) : Api :=
  mkApi (fun _ => Some sessions) (getDrivers api) (getPositions api).

(** The same request layer, with the position records of driver [n] removed
    from every session whose drivers list has no record of [n]. *)
Definition drop_unmatched (n : Z) (api : Api) : Api :=
  mkApi (getSessions api) (getDrivers api)
    (fun key =>
       match getDrivers api key with
       | Some ds =>
           if existsb (fun d => Driver.driver_number d =? n) ds
           then getPositions api key
           else List.filter (fun p => negb (Position.driver_number p =? n))
                  <$> getPositions api key
       | None => getPositions api key
       end).

(** ** Sample data *)

Definition sample_driver (n : Z) (acronym team : string) : Driver.t :=
  Driver.mk n acronym acronym "3671C6" team.

Definition VER : Driver.t := sample_driver 1 "VER" "Red Bull Racing".
Definition PER : Driver.t := sample_driver 11 "PER" "Red Bull Racing".
Definition HAM : Driver.t := sample_driver 44 "HAM" "Mercedes".
Definition NOR : Driver.t := sample_driver 4 "NOR" "McLaren".

(** Four samples of one driver, the last two out of chronological order. *)
Definition shuffled_samples : list Position.t :=
  [ Position.mk 1000 1 2;
    Position.mk 2000 1 1;
    Position.mk 4000 1 2;
    Position.mk 3000 1 1 ].

(** A small season: two races, a sprint, and a race whose requests fail.
    Car 4 is sampled in the first race without a driver record there. *)
Definition sample_sessions : list Session.t :=
  [ Session.mk 9001 "Race"; Session.mk 9002 "Sprint Race";
    Session.mk 9003 "Race"; Session.mk 9004 "Race" ].

Definition sample_api : Api :=
  mkApi
    (fun _ => Some sample_sessions)
    (fun key =>
       if key =? 9001 then Some [VER; PER; HAM]
       else if key =? 9003 then Some [VER; PER; HAM]
       else if key =? 9002 then Some [VER; PER; HAM]
       else None)
    (fun key =>
       if key =? 9001 then
         Some [ Position.mk 1000 1 1; Position.mk 1000 44 2; Position.mk 1000 11 3;
                Position.mk 1000 4 4; Position.mk 2000 44 1; Position.mk 2000 1 2 ]
       else if key =? 9003 then
         Some [ Position.mk 1000 44 1; Position.mk 1000 1 2; Position.mk 1000 11 12;
                Position.mk 2000 1 1; Position.mk 2000 44 2 ]
       else if key =? 9002 then
         Some [ Position.mk 1000 11 1; Position.mk 1000 1 2 ]
       else Some []).

Definition sample_standings : ChampionshipData.t :=
  Eval vm_compute in
    default (ChampionshipData.mk [] []) (getChampionshipStandings stable_sort sample_api 2024).


(** The race sessions of [sessions] whose two requests succeed, with what
    the requests return, and the counters that the awards of these sessions
    add up to. *)
Definition counted_sessions (api : Api) (sessions : list Session.t)
    : list (list Driver.t * list Position.t) :=
  flat_map (fun s =>
      match getDrivers api (Session.session_key s),
            getPositions api (Session.session_key s) with
      | Some drivers, Some positions => [(drivers, positions)]
      | _, _ => []
      end)
    (List.filter is_race_session sessions).

Definition tally (results : list (list Driver.t * list Position.t)) : Stats :=
  fold_left (fun st r => award_session r.1 r.2 st) results (mkStats [] []).

(** The sample season with the failing race in the middle. *)
Definition middle_sessions : list Session.t :=
  [ Session.mk 9001 "Race"; Session.mk 9004 "Race"; Session.mk 9003 "Race" ].

Definition middle_api : Api := with_sessions sample_api middle_sessions.

(** No drivers list of a race session of the season has a record of [n]. *)
Definition never_recorded (api : Api) (sessions : list Session.t) (n : Z) : bool :=
  forallb (fun s =>
      match getDrivers api (Session.session_key s) with
      | Some ds => negb (existsb (fun d => Driver.driver_number d =? n) ds)
      | None => true
      end)
    (List.filter is_race_session sessions).

(** ** Replay *)

(** Positions of a frame that are a permutation of 1..N. *)
Definition dense_positions (f : PositionChartData.t) : Prop :=
  List.map ChartPosition.position (PositionChartData.positions f)
  ≡ₚ seqZ 1 (Z.of_nat (List.length (PositionChartData.positions f))).

(** The completed laps of a driver: the lap records with a duration. *)
Definition completed_laps (laps : list Lap.t) (n : Z) : nat :=
  List.length
    (List.filter (fun lap =>
         (Lap.driver_number lap =? n) && is_some (Lap.lap_duration lap))
       laps).

(** The point of index [i] of the even grid of [n] intervals from [t0] to
    [t1], in exact arithmetic. *)
Definition grid_time (t0 t1 n i : Z) : Q :=
  inject_Z t0 + inject_Z i * (inject_Z (t1 - t0) / inject_Z n).

(** The window of the sample search, and a sample of driver [n] that is
    nearest in time to [t] among those of the window. *)
Definition within_tolerance (t : Z) (p : Position.t) : Prop :=
  Z.abs (Position.date p - t) < 60000.

Definition nearest_sample (positions : list Position.t) (n t : Z) (p : Position.t) : Prop :=
  p ∈ positions /\ Position.driver_number p = n /\ within_tolerance t p
  /\ forall p', p' ∈ positions -> Position.driver_number p' = n -> within_tolerance t p' ->
       Z.abs (Position.date p - t) <= Z.abs (Position.date p' - t).

(** Two driver states that agree (on the fields that a frame of the builder
    carries). *)
Definition same_driver_state (a b : ChartPosition.t) : Prop :=
  ChartPosition.driver_number a = ChartPosition.driver_number b
  /\ ChartPosition.position a = ChartPosition.position b
  /\ (ChartPosition.progress a == ChartPosition.progress b)%Q
  /\ ChartPosition.pit_stops a = ChartPosition.pit_stops b
  /\ ChartPosition.is_in_pit a = ChartPosition.is_in_pit b
  /\ ChartPosition.current_lap_number a = ChartPosition.current_lap_number b.

(** A short race.  Cars 1 and 44 run four timed laps; car 11 stops after
    three laps; car 4 has four lap records, the first without a duration. *)
Definition timed_lap (n k start : Z) : Lap.t :=
  Lap.mk start n (Some 30%Q) (Some 30%Q) (Some 30%Q) false (Some 90%Q) k.

Definition untimed_lap (n k start : Z) : Lap.t :=
  Lap.mk start n None None None false None k.

Definition race_drivers : list Driver.t := [VER; PER; HAM; NOR].

Definition race_laps : list Lap.t :=
  [ timed_lap 1 1 0;      timed_lap 11 1 1000;   timed_lap 44 1 2000;   untimed_lap 4 1 3000;
    timed_lap 1 2 90000;  timed_lap 11 2 91000;  timed_lap 44 2 92000;  timed_lap 4 2 93000;
    timed_lap 1 3 180000; timed_lap 11 3 181000; timed_lap 44 3 182000; timed_lap 4 3 183000;
    timed_lap 1 4 270000;                        timed_lap 44 4 272000; timed_lap 4 4 273000 ].

Definition race_positions : list Position.t :=
  [ Position.mk 0 1 1; Position.mk 0 11 2; Position.mk 0 44 3; Position.mk 0 4 4;
    Position.mk 40000 44 3; Position.mk 93000 44 2; Position.mk 93000 11 3 ].

Definition race_grid : gmap Z Z :=
  <[1 := 1]> (<[11 := 2]> (<[44 := 3]> (<[4 := 4]> ∅))).

Definition race_frames : list PositionChartData.t :=
  processRaceData 0 0 race_drivers race_positions race_laps race_grid [].

Definition race_completions : list LapCompletion.t :=
  allLapCompletions race_drivers race_positions race_laps race_grid.

Definition no_frame : PositionChartData.t := PositionChartData.mk 0 0 0 [] [].

(** The frame of index [k] of the short race. *)
Definition race_frame (k : nat) : PositionChartData.t :=
  nth k race_frames no_frame.

(** [v] is the grid value of car [n]: its grid position, and the number of
    the car when the grid has none (or 0). *)
Definition grid_value (grid : gmap Z Z) (n v : Z) : Prop :=
  (forall g, grid !! n = Some g -> g ≠ 0 -> v = g)
  /\ (grid !! n = None \/ grid !! n = Some 0 -> v = n).

(** The value [v] that the builder attaches to a lap of car [n] that starts
    at [t]: the position of the first sample of the car, in the order of the
    records, that lies within the tolerance, when that position is not 0;
    the grid value of the car when that position is 0, and when no sample of
    the car lies within the tolerance. *)
Definition attached (positions : list Position.t) (grid : gmap Z Z) (n t v : Z) : Prop :=
  (forall pre p post,
      positions = pre ++ p :: post ->
      Position.driver_number p = n -> within_tolerance t p ->
      (forall p', p' ∈ pre -> Position.driver_number p' = n -> ~ within_tolerance t p') ->
      (Position.position p ≠ 0 -> v = Position.position p)
      /\ (Position.position p = 0 -> grid_value grid n v))
  /\ ((forall p, p ∈ positions -> Position.driver_number p = n -> ~ within_tolerance t p) ->
      grid_value grid n v).

(** [r] has the fields of [c], the interpolated ones apart. *)
Definition carries_fields_of (r c : ChartPosition.t) : Prop :=
  ChartPosition.driver_number r = ChartPosition.driver_number c
  /\ ChartPosition.position r = ChartPosition.position c
  /\ ChartPosition.team_colour r = ChartPosition.team_colour c
  /\ ChartPosition.name_acronym r = ChartPosition.name_acronym c
  /\ ChartPosition.full_name r = ChartPosition.full_name c
  /\ ChartPosition.pit_stops r = ChartPosition.pit_stops c
  /\ ChartPosition.is_in_pit r = ChartPosition.is_in_pit c
  /\ ChartPosition.last_lap_time r = ChartPosition.last_lap_time c
  /\ ChartPosition.sector_1_time r = ChartPosition.sector_1_time c
  /\ ChartPosition.sector_2_time r = ChartPosition.sector_2_time c
  /\ ChartPosition.sector_3_time r = ChartPosition.sector_3_time c
  /\ ChartPosition.current_lap_number r = ChartPosition.current_lap_number c.

(** What [interpolateDriverPositions] makes, at ratio 0, of the entry [c] of
    the current frame, given the entries [prev] of the previous frame. *)
Definition rewound (prev : list ChartPosition.t) (c r : ChartPosition.t) : Prop :=
  match List.find (fun p =>
            ChartPosition.driver_number p =? ChartPosition.driver_number c) prev with
  | Some p =>
      carries_fields_of r c
      /\ (ChartPosition.progress r == ChartPosition.progress p)%Q
      /\ (exists x, ChartPosition.interpolated_position r = Some x
                    /\ (x == inject_Z (ChartPosition.position p))%Q)
      /\ ChartPosition.position_change r
         = Some (ChartPosition.position c - ChartPosition.position p)
  | None => r = c
  end.

Definition no_entry : ChartPosition.t :=
  ChartPosition.mk 0 0 0%Q "" "" "" 0 false None None None None 0 None None.

(** The entry of index [j] of the frame of index [k] of the short race. *)
Definition race_entry (k j : nat) : ChartPosition.t :=
  nth j (PositionChartData.positions (race_frame k)) no_entry.

(* ===================================================================== *)
(** * Notions used in the proofs *)
(* ===================================================================== *)

(** The ranking step of either table: sort by score, then numbering. *)
Definition ranked {A : Type} (sort : engine_sort) (score : A -> number * Z * Z)
    (reposition : nat -> A -> A) (rows : list A) : list A :=
  imap reposition (sort A (fun a b => score_cmp (score a) (score b)) rows).


(** The states cover the finishing drivers: the invariant of the frame loop. *)
Definition covered (drivers : list Driver.t) (laps : list Lap.t)
    (states : list (Z * DriverState.t)) : Prop :=
  forall d, d ∈ finishingDrivers drivers laps ->
    Driver.driver_number d ∈ List.map fst states.

(** The [baseline_progress] recorded for car [n]. *)
Definition baseline_of (states : list (Z * DriverState.t)) (n : Z) : Q :=
  match JsMap.get states n with
  | Some s => DriverState.baseline_progress s
  | None => 0%Q
  end.

(** The position of a state is the grid position of its car or the position
    attached to one of the lap completions of the car. *)
Definition position_known (drivers : list Driver.t) (positions : list Position.t)
    (laps : list Lap.t) (qualifyingPositions : gmap Z Z)
    (e : Z * DriverState.t) : Prop :=
  DriverState.position e.2 = grid_position qualifyingPositions e.1
  \/ exists c, c ∈ allLapCompletions drivers positions laps qualifyingPositions
       /\ LapCompletion.driver_number c = e.1
       /\ LapCompletion.position c = DriverState.position e.2.

(** The completion [c] is the one pushed for the lap [lap] of [d]. *)
Definition built_from (positions : list Position.t) (qualifyingPositions : gmap Z Z)
    (c : LapCompletion.t) (d : Driver.t) (lap : Lap.t) : Prop :=
  LapCompletion.timestamp c = Lap.date_start lap
  /\ LapCompletion.driver_number c = Driver.driver_number d
  /\ LapCompletion.lap_number c = Lap.lap_number lap
  /\ LapCompletion.position c = lap_position positions qualifyingPositions d lap.

(* ===================================================================== *)
(** * More of the dashboard *)
(* ===================================================================== *)

(** ** Standings: what a row can show *)

(** A score that the awarding loop can produce: no more wins than podiums,
    and, when the points are a number, at least 25 for each win and 15 for
    each other podium. *)
Definition score_consistent (s : number * Z * Z) : Prop :=
  let '(points, wins, podiums) := s in
  0 <= wins <= podiums
  /\ forall p, points = Num p -> 25 * wins + 15 * (podiums - wins) <= p.

(** The sample season served by a back end that fails on the sprint
    session. *)
Definition sample_api_no_sprint : Api :=
  mkApi (getSessions sample_api)
    (fun key => if key =? 9002 then None else getDrivers sample_api key)
    (getPositions sample_api).

(** The podiums counted so far for car [n] ([0] for a car without counters). *)
Definition podiums_of (st : Stats) (n : Z) : Z :=
  default 0 (DriverStat.podiums <$> JsMap.get (driverStats st) n).

(** ** The starting grid ([getQualifyingPositions], RaceReplay.tsx) *)

Definition is_qualifying_session (s : Session.t) : bool :=
  includes "qualifying" (toLowerCase (Session.session_name s))
  || includes "sprint_shootout" (toLowerCase (Session.session_name s)).

(** The body of the [forEach] of lines 106-114, on the object
    [finalQualifyingPositions]: the test is the one of the standings loop. *)
Definition qualifying_step (qualifyingPositions : list Position.t)
    (final : gmap Z Z) (pos : Position.t) : gmap Z Z :=
  if replaces_existing qualifyingPositions (final !! Position.driver_number pos) pos
  then <[Position.driver_number pos := Position.position pos]> final
  else final.

Definition finalQualifyingPositions (qualifyingPositions : list Position.t) : gmap Z Z :=
  fold_left (qualifying_step qualifyingPositions) qualifyingPositions ∅.

(** "Fallback: use driver numbers as grid positions":
    [fallbackPositions[driver.driver_number] = index + 1]. *)
Fixpoint fallback_from (index : nat) (drivers : list Driver.t) (fallback : gmap Z Z)
    : gmap Z Z :=
  match drivers with
  | [] => fallback
  | driver :: rest =>
      fallback_from (S index) rest
        (<[Driver.driver_number driver := Z.of_nat index + 1]> fallback)
  end.

Definition fallbackPositions (drivers : list Driver.t) : gmap Z Z :=
  fallback_from 0 drivers ∅.

(** [getQualifyingPositions(session, drivers)].  [meetingSessions] is the
    answer to [getSessions(session.year, session.meeting_key)]; a rejected
    request lands in the [catch], which falls through to the fallback. *)
Definition getQualifyingPositions (meetingSessions : option (list Session.t))
    (api : Api) (drivers : list Driver.t) : gmap Z Z :=
  match meetingSessions with
  | Some sessions =>
      match List.find is_qualifying_session sessions with
      | Some qualifyingSession =>
          match getPositions api (Session.session_key qualifyingSession) with
          | Some qualifyingPositions => finalQualifyingPositions qualifyingPositions
          | None => fallbackPositions drivers
          end
      | None => fallbackPositions drivers
      end
  | None => fallbackPositions drivers
  end.

(** The position records of the qualifying session of the meeting, when the
    requests give them. *)
Definition qualifying_records (meetingSessions : option (list Session.t)) (api : Api)
    : option (list Position.t) :=
  sessions ← meetingSessions;
  qualifyingSession ← List.find is_qualifying_session sessions;
  getPositions api (Session.session_key qualifyingSession).

Definition weekend_sessions : list Session.t :=
  [ Session.mk 9100 "Practice 1"; Session.mk 9101 "Qualifying"; Session.mk 9102 "Race" ].

Definition weekend_api : Api :=
  mkApi (fun _ => Some weekend_sessions) (fun _ => Some race_drivers)
    (fun key =>
       if key =? 9101 then
         Some [ Position.mk 1000 44 1; Position.mk 1000 1 2; Position.mk 1000 4 3;
                Position.mk 2000 1 1; Position.mk 2000 44 2 ]
       else None).

(** ** More about the frames *)

(** A field of the state of car [n] ([0] without a state). *)
Definition field_of (proj : DriverState.t -> Z) (states : list (Z * DriverState.t))
    (n : Z) : Z :=
  match JsMap.get states n with
  | Some s => proj s
  | None => 0
  end.

(** States that have only moved on: the same cars in the same order, with
    lap numbers and pit stops that are no smaller. *)
Definition advanced (a b : list (Z * DriverState.t)) : Prop :=
  Forall2 (fun x y =>
      x.1 = y.1
      /\ DriverState.lap_number x.2 <= DriverState.lap_number y.2
      /\ DriverState.pit_stops x.2 <= DriverState.pit_stops y.2)
    a b.

(** The highest lap number among the laps of car [n] that have a duration
    ([0] when there is none). *)
Definition last_timed_lap (laps : list Lap.t) (n : Z) : Z :=
  fold_right Z.max 0
    (List.map Lap.lap_number
       (List.filter (fun lap =>
            (Lap.driver_number lap =? n) && is_some (Lap.lap_duration lap))
          laps)).

(** What a state of car [k] can be, in terms of position [p], lap [l], pit
    stops [s] and pit flag [b]: see [frame_state_invariant]. *)
Definition state_holds (P : Z -> Z -> Z -> Z -> bool -> Prop)
    (x : Z * DriverState.t) : Prop :=
  P x.1 (DriverState.position x.2) (DriverState.lap_number x.2)
    (DriverState.pit_stops x.2) (DriverState.is_in_pit x.2).

Definition entry_holds (P : Z -> Z -> Z -> Z -> bool -> Prop)
    (e : ChartPosition.t) : Prop :=
  P (ChartPosition.driver_number e) (ChartPosition.position e)
    (ChartPosition.current_lap_number e) (ChartPosition.pit_stops e)
    (ChartPosition.is_in_pit e).

(** The highest lap number among the lap completions of car [n] stamped no
    later than [now] ([0] when there is none). *)
Definition laps_done_by (completions : list LapCompletion.t) (n : Z) (now : Q) : Z :=
  fold_right Z.max 0
    (List.map LapCompletion.lap_number
       (List.filter (fun c =>
            (LapCompletion.driver_number c =? n)
            && Qle_bool (inject_Z (LapCompletion.timestamp c)) now)
          completions)).

(** Whether the time of the last frame reaches [endTime]: with the roundings
    of the three operations it can stay below it. *)
Definition last_frame_reaches_end (now0 now1 : Z) (drivers : list Driver.t)
    (positions : list Position.t) (laps : list Lap.t) (qualifyingPositions : gmap Z Z)
    : bool :=
  Qle_bool (inject_Z (endTime now1 drivers positions laps qualifyingPositions))
    (currentTime now0 now1 drivers positions laps qualifyingPositions (timeIntervals laps)).

(** The short race again, with car 1 leaving the pit on lap 3, and with
    race-control messages. *)
Definition pit_race_laps : list Lap.t :=
  List.map (fun lap =>
      if (Lap.driver_number lap =? 1) && (Lap.lap_number lap =? 3)
      then Lap.mk (Lap.date_start lap) (Lap.driver_number lap)
             (Lap.duration_sector_1 lap) (Lap.duration_sector_2 lap)
             (Lap.duration_sector_3 lap) true (Lap.lap_duration lap)
             (Lap.lap_number lap)
      else lap)
    race_laps.

Definition race_control : list RaceControl.t :=
  [ RaceControl.mk "Flag" 91000 None (Some "YELLOW") "Yellow in sector 2";
    RaceControl.mk "Other" 92000 (Some 44) None "Car 44 noted";
    RaceControl.mk "Flag" 95000 (Some 0) None "Track clear";
    RaceControl.mk "Flag" 250000 None (Some "GREEN") "Green" ].

Definition pit_race_frames : list PositionChartData.t :=
  processRaceData 0 0 race_drivers race_positions pit_race_laps race_grid race_control.

Definition pit_frame (k : nat) : PositionChartData.t :=
  nth k pit_race_frames no_frame.

Definition pit_entry (k j : nat) : ChartPosition.t :=
  nth j (PositionChartData.positions (pit_frame k)) no_entry.

Definition no_flag : ChartFlag.t := ChartFlag.mk "" "" None.

Definition pit_flag (k j : nat) : ChartFlag.t :=
  nth j (PositionChartData.flags (pit_frame k)) no_flag.

(** A race of seven laps of car 1 whose window, 917510 ms, is not a multiple
    of its 14 intervals: the step and the frame times are rounded. *)
Definition long_race_laps : list Lap.t :=
  [ timed_lap 1 1 0; timed_lap 1 2 150000; timed_lap 1 3 300000; timed_lap 1 4 450000;
    timed_lap 1 5 600000; timed_lap 1 6 750000; timed_lap 1 7 917510 ].

Definition long_race_control : list RaceControl.t :=
  [ RaceControl.mk "Flag" 887510 None (Some "YELLOW") "Yellow in sector 1" ].

Definition long_race_frames : list PositionChartData.t :=
  processRaceData 0 0 [VER] race_positions long_race_laps race_grid long_race_control.

Definition long_frame (k : nat) : PositionChartData.t :=
  nth k long_race_frames no_frame.

(** A race of which no lap was recorded. *)
Definition empty_race_frames : list PositionChartData.t :=
  processRaceData 0 0 race_drivers race_positions [] race_grid [].

(* ===================================================================== *)
(** * The replay controls ([RaceReplay.tsx], lines 431-449 and 684-692) *)
(* ===================================================================== *)

(** The pieces of component state that the controls read and set. *)
Module ReplayState.
Record t : Type := mk {
  chartData : list PositionChartData.t;
  currentIndex : Z;
  animationProgress : Q;
  isPlaying : bool
}.
End ReplayState.

(** [l.findIndex(p)]; [None] stands for [-1]. *)
Fixpoint findIndex {A : Type} (p : A -> bool) (l : list A) : option nat :=
  match l with
  | [] => None
  | x :: l' => if p x then Some 0%nat else S <$> findIndex p l'
  end.

(** The state after the handler [skipToLap(lapNumber)]. *)
Definition skipToLap (s : ReplayState.t) (lapNumber : Z) : ReplayState.t :=
  match findIndex (fun frame => lapNumber <=? PositionChartData.lapNumber frame)
          (ReplayState.chartData s) with
  | Some targetFrame =>
      ReplayState.mk (ReplayState.chartData s) (Z.of_nat targetFrame) 0%Q false
  | None => s
  end.

(** [chartData[i]]: [undefined] outside the array. *)
Definition frame_of_index (chartData : list PositionChartData.t) (i : Z)
    : option PositionChartData.t :=
  if i <? 0 then None else chartData !! Z.to_nat i.

Module RaceStats.
Record t : Type := mk {
  leader : option ChartPosition.t;
  totalPitStops : Z;
  driversInPit : Z;
  flagCount : Z
}.
End RaceStats.

Definition getCurrentRaceStats (s : ReplayState.t) : option RaceStats.t :=
  match frame_of_index (ReplayState.chartData s) (ReplayState.currentIndex s) with
  | None => None
  | Some frame =>
      let leader := head (PositionChartData.positions frame) in
      let totalPitStops :=
        fold_left (fun sum p => sum + ChartPosition.pit_stops p)
          (PositionChartData.positions frame) 0 in
      let driversInPit :=
        Z.of_nat (List.length (List.filter ChartPosition.is_in_pit
                                 (PositionChartData.positions frame))) in
      Some (RaceStats.mk leader totalPitStops driversInPit
              (Z.of_nat (List.length (PositionChartData.flags frame))))
  end.

(** The rows of the timing table (lines 684-692): the entries of the current
    frame, interpolated from the frame before it when there is one, then
    sorted by position.  (The source sorts in place; on the frames of
    [processRaceData] the sort changes nothing, see [js_sort_sorted_id].) *)
Definition table_rows (s : ReplayState.t) : option (list ChartPosition.t) :=
  match frame_of_index (ReplayState.chartData s) (ReplayState.currentIndex s) with
  | None => None
  | Some frame =>
      let interpolatedPositions :=
        interpolateDriverPositions
          (if 0 <? ReplayState.currentIndex s
           then frame_of_index (ReplayState.chartData s) (ReplayState.currentIndex s - 1)
           else None)
          frame (ReplayState.animationProgress s) in
      Some (js_sort (fun a b => ChartPosition.position a - ChartPosition.position b)
              interpolatedPositions)
  end.

(** The replay of the short race with a pit stop, stopped on frame [k] at
    ratio [r]. *)
Definition pit_replay (k : Z) (r : Q) : ReplayState.t :=
  ReplayState.mk pit_race_frames k r true.

(** The short race, with a fifth lap of car 1 that has no duration. *)
Definition unfinished_race_laps : list Lap.t :=
  race_laps ++ [untimed_lap 1 5 360000].

Definition unfinished_race_frames : list PositionChartData.t :=
  processRaceData 0 0 race_drivers race_positions unfinished_race_laps race_grid [].

(* ===================================================================== *)
(** * More of the service ([openf1.ts], lines 285-339 and 432-449) *)
(* ===================================================================== *)

(** The fields of a location record that [getRaceReplayData] reads.  The
    [date] is the instant its string denotes; the strings of one session are
    taken to be in one format, so that equal strings are equal instants. *)
Module LocationData.
Record t : Type := mk {
  date : Z;
  driver_number : Z;
  x : Z;
  y : Z
}.
End LocationData.

Module ReplayDriver.
Record t : Type := mk {
  driver_number : Z;
  x : Z;
  y : Z;
  position : Z;
  team_colour : string;
  name_acronym : string
}.
End ReplayDriver.

Module RaceReplayData.
Record t : Type := mk {
  timestamp : Z;
  drivers : list ReplayDriver.t
}.
End RaceReplayData.

(** [new Map(drivers.map(d => [d.driver_number, d]))] *)
Definition driverMap (drivers : list Driver.t) : list (Z * Driver.t) :=
  fold_left (fun m d => JsMap.set m (Driver.driver_number d) d) drivers [].

(** The [forEach] of lines 298-304. *)
Definition group_location (timeGroups : list (Z * list LocationData.t))
    (location : LocationData.t) : list (Z * list LocationData.t) :=
  let timeKey := LocationData.date location in
  let timeGroups :=
    if JsMap.has timeGroups timeKey then timeGroups
    else JsMap.set timeGroups timeKey [] in
  JsMap.update timeGroups timeKey (fun group => group ++ [location]).

Definition timeGroups (locations : list LocationData.t)
    : list (Z * list LocationData.t) :=
  fold_left group_location locations [].

(** The callback of [locationGroup.map] (lines 309-324). *)
Definition replay_driver (driverMap : list (Z * Driver.t)) (positions : list Position.t)
    (location : LocationData.t) : ReplayDriver.t :=
  let driver := JsMap.get driverMap (LocationData.driver_number location) in
  let position :=
    List.find (fun p =>
        (Position.driver_number p =? LocationData.driver_number location)
        && (Z.abs (Position.date p - LocationData.date location) <? 5000))
      positions in
  ReplayDriver.mk
    (LocationData.driver_number location)
    (LocationData.x location)
    (LocationData.y location)
    (int_or (Position.position <$> position) 0)
    (match driver with
     | Some d => str_or (Driver.team_colour d) "#ffffff"
     | None => "#ffffff"
     end)
    (match driver with
     | Some d => str_or (Driver.name_acronym d)
                   ("D" ++ show_number (LocationData.driver_number location))
     | None => "D" ++ show_number (LocationData.driver_number location)
     end).

(** [getRaceReplayData], given the outcome of its three requests ([None]: the
    request failed, and the error is thrown again). *)
Definition getRaceReplayData (drivers : option (list Driver.t))
    (locations : option (list LocationData.t)) (positions : option (list Position.t))
    : option (list RaceReplayData.t) :=
  match drivers, locations, positions with
  | Some drivers, Some locations, Some positions =>
      let driverMap := driverMap drivers in
      let replayData :=
        List.map (fun group =>
            RaceReplayData.mk group.1
              (List.map (replay_driver driverMap positions) group.2))
          (timeGroups locations) in
      Some (js_sort (fun a b => RaceReplayData.timestamp a - RaceReplayData.timestamp b)
              replayData)
  | _, _, _ => None
  end.

(** The fields of a session record that [getMeetings] reads. *)
Module SessionInfo.
Record t : Type := mk {
  meeting_key : Z;
  location : string;
  circuit_short_name : string;
  country_name : string
}.
End SessionInfo.

Module Meeting.
Record t : Type := mk {
  meeting_key : Z;
  location : string;
  circuit_short_name : string;
  country_name : string
}.
End Meeting.

Definition meeting_of (session : SessionInfo.t) : Meeting.t :=
  Meeting.mk (SessionInfo.meeting_key session) (SessionInfo.location session)
    (SessionInfo.circuit_short_name session) (SessionInfo.country_name session).

Definition meetingsMap (sessions : list SessionInfo.t) : list (Z * Meeting.t) :=
  fold_left (fun m session =>
      if JsMap.has m (SessionInfo.meeting_key session) then m
      else JsMap.set m (SessionInfo.meeting_key session) (meeting_of session))
    sessions [].

(** [getMeetings], given the outcome of its request. *)
Definition getMeetings (sessions : option (list SessionInfo.t))
    : option (list Meeting.t) :=
  match sessions with
  | Some sessions => Some (List.map snd (meetingsMap sessions))
  | None => None
  end.

(** A few location samples of cars 1 and 44, and two driver records for
    car 1. *)
Definition sample_locations : list LocationData.t :=
  [ LocationData.mk 2000 1 10 10; LocationData.mk 1000 1 5 5;
    LocationData.mk 2000 44 8 9;  LocationData.mk 1000 44 4 4;
    LocationData.mk 3000 1 15 15 ].

Definition sample_replay : option (list RaceReplayData.t) :=
  getRaceReplayData (Some race_drivers) (Some sample_locations) (Some race_positions).

Definition sample_sessions_info : list SessionInfo.t :=
  [ SessionInfo.mk 1229 "Sakhir" "Sakhir" "Bahrain";
    SessionInfo.mk 1230 "Jeddah" "Jeddah" "Saudi Arabia";
    SessionInfo.mk 1229 "Sakhir" "Bahrain International Circuit" "Bahrain" ].

(* ===================================================================== *)
(** * The embedding at work *)
(* ===================================================================== *)

Example points_table :
  List.map points_for [1; 2; 3; 10; 11; 20]
  = [Num 25; Num 18; Num 15; Num 1; Num 0; Num 0].
Proof. reflexivity. Qed.

(** A position 0 reads [pointsSystem[-1]]. *)
Example points_for_zero : points_for 0 = NaN.
Proof. reflexivity. Qed.

Example show_number_values :
  List.map show_number
    [44; -7; 2 ^ 53 - 1; 2 ^ 53 + 1; 2 ^ 60; 10 ^ 21 - 1; 10 ^ 21; - 10 ^ 23; 2 ^ 70]
  = [ "44"; "-7"; "9007199254740991"; "9007199254740992"; "1152921504606847000";
      "1e+21"; "1e+21"; "-1e+23"; "1.1805916207174113e+21" ]%string.
Proof. by vm_compute. Qed.

(** A double and its neighbours: 0.1 is not a double, 2^53 + 1 rounds to the
    even neighbour, and the quotient of the long race is rounded down. *)
Example round_double_values :
  (round_double (1 # 10) == 3602879701896397 # 36028797018963968)%Q
  /\ (round_double (inject_Z (2 ^ 53 + 1)) == inject_Z (2 ^ 53))%Q
  /\ (round_double (inject_Z (2 ^ 53 + 3)) == inject_Z (2 ^ 53 + 4))%Q
  /\ (round_double (917510 # 14) == 4503629078574811 # 68719476736)%Q
  /\ (round_double (1 # 3) == 6004799503160661 # 18014398509481984)%Q.
Proof. repeat (match goal with |- _ /\ _ => split end); by vm_compute. Qed.

Example race_sessions_only :
  List.map Session.session_key (List.filter is_race_session sample_sessions)
  = [9001; 9003; 9004].
Proof. reflexivity. Qed.

(** Cars 1 and 44 are level on points, wins and podiums; car 1 was the first
    to score. *)
Example sample_drivers_table :
  List.map (fun d => (DriverStanding.position d, DriverStanding.driver_number d,
                      DriverStanding.points d, DriverStanding.wins d,
                      DriverStanding.podiums d))
    (ChampionshipData.drivers sample_standings)
  = [(1, 1, Num 43, 1, 2); (2, 44, Num 43, 1, 2); (3, 11, Num 15, 0, 1)].
Proof. reflexivity. Qed.

Example sample_constructors_table :
  List.map (fun c => (ConstructorStanding.position c, ConstructorStanding.team_name c,
                      ConstructorStanding.points c))
    (ChampionshipData.constructors sample_standings)
  = [(1, "Red Bull Racing", Num 58); (2, "Mercedes", Num 43)].
Proof. reflexivity. Qed.

Example race_completions_order :
  List.map (fun c => (LapCompletion.timestamp c, LapCompletion.driver_number c,
                      LapCompletion.lap_number c, LapCompletion.position c))
    race_completions
  = [(0, 1, 1, 1); (2000, 44, 1, 3); (90000, 1, 2, 1); (92000, 44, 2, 3);
     (93000, 4, 2, 4); (180000, 1, 3, 1); (182000, 44, 3, 3); (183000, 4, 3, 4);
     (270000, 1, 4, 1); (272000, 44, 4, 3); (273000, 4, 4, 4)].
Proof. by vm_compute. Qed.

Example race_frame_stamps :
  List.map PositionChartData.timestamp race_frames
  = [0; 34125; 68250; 102375; 136500; 170625; 204750; 238875; 273000].
Proof. by vm_compute. Qed.

Example race_frame_laps :
  List.map (fun f =>
      List.map (fun e => (ChartPosition.driver_number e, ChartPosition.position e,
                          ChartPosition.current_lap_number e))
        (PositionChartData.positions f))
    race_frames
  = [ [(1, 1, 1); (44, 3, 0); (4, 4, 0)];
      [(1, 1, 1); (44, 3, 1); (4, 4, 0)];
      [(1, 1, 1); (44, 3, 1); (4, 4, 0)];
      [(1, 1, 2); (44, 3, 2); (4, 4, 2)];
      [(1, 1, 2); (44, 3, 2); (4, 4, 2)];
      [(1, 1, 2); (44, 3, 2); (4, 4, 2)];
      [(1, 1, 3); (44, 3, 3); (4, 4, 3)];
      [(1, 1, 3); (44, 3, 3); (4, 4, 3)];
      [(1, 1, 4); (44, 3, 4); (4, 4, 4)] ].
Proof. by vm_compute. Qed.

(** The progress of car 1 in the first frame: one lap of four, plus the bias
    of 19 places. *)
Example race_first_progress :
  (ChartPosition.progress (race_entry 0 0) == (1 # 4) + 19 * (2 # 1000))%Q.
Proof. by vm_compute. Qed.

(* ===================================================================== *)
(** * Facts about the prelude *)
(* ===================================================================== *)

Section SortFacts.
Context {A : Type} (cmp : A -> A -> Z).

Lemma js_insert_perm (x : A) (l : list A) : js_insert cmp x l ≡ₚ x :: l.
Proof.
  induction l as [|y l IH]; simpl; [done|].
  destruct (cmp x y <=? 0); [done|].
  rewrite IH. apply Permutation_swap.
Qed.

Lemma js_sort_perm (l : list A) : js_sort cmp l ≡ₚ l.
Proof.
  induction l as [|x l IH]; simpl; [done|].
  by rewrite js_insert_perm, IH.
Qed.

Lemma js_sort_length (l : list A) : List.length (js_sort cmp l) = List.length l.
Proof. apply Permutation_length, js_sort_perm. Qed.

Lemma elem_of_js_sort (x : A) (l : list A) : x ∈ js_sort cmp l ↔ x ∈ l.
Proof. by rewrite js_sort_perm. Qed.



(** Sortedness, for a comparator that decides a transitive relation [R] on
    the elements that satisfy [ok]. *)
Section Sorted.
Context (R : A -> A -> Prop) (ok : A -> Prop).
Hypothesis R_trans : forall a b c, R a b -> R b c -> R a c.
Hypothesis cmp_le : forall a b, ok a -> ok b -> cmp a b <= 0 -> R a b.
Hypothesis cmp_gt : forall a b, ok a -> ok b -> 0 < cmp a b -> R b a.

Lemma js_insert_sorted (x : A) (l : list A) :
  ok x -> Forall ok l -> StronglySorted R l -> StronglySorted R (js_insert cmp x l).
Proof.
  intros Hx Hok Hs. induction Hs as [|y l Hs IH Hy]; simpl.
  - repeat constructor.
  - apply Forall_cons in Hok as [Hoky Hokl].
    destruct (cmp x y <=? 0) eqn:Hc.
    + assert (R x y) by (apply cmp_le; [done..|lia]).
      constructor; [by constructor|].
      constructor; [done|]. eapply Forall_impl; [exact Hy|]. eauto.
    + assert (R y x) by (apply cmp_gt; [done..|lia]).
      constructor; [by apply IH|].
      rewrite js_insert_perm. by constructor.
Qed.

Lemma js_sort_sorted (l : list A) :
  Forall ok l -> StronglySorted R (js_sort cmp l).
Proof.
  induction 1 as [|x l Hx Hl IH]; simpl; [constructor|].
  apply js_insert_sorted; [done| |done].
  by rewrite js_sort_perm.
Qed.

End Sorted.
End SortFacts.

Section MapFacts.
Context {K V : Type} `{EqDecision K}.
Implicit Types (m : list (K * V)) (k : K) (v : V).

Lemma get_set_eq m k v : JsMap.get (JsMap.set m k v) k = Some v.
Proof.
  induction m as [|[k' v'] m IH]; simpl.
  - by rewrite decide_True.
  - destruct (decide (k' = k)); simpl.
    + by rewrite decide_True.
    + by rewrite decide_False.
Qed.

Lemma get_set_ne m k k' v : k ≠ k' -> JsMap.get (JsMap.set m k v) k' = JsMap.get m k'.
Proof.
  intros Hne. induction m as [|[k0 v0] m IH]; simpl.
  - by rewrite decide_False.
  - destruct (decide (k0 = k)) as [->|]; simpl.
    + by rewrite !decide_False.
    + by rewrite IH.
Qed.

Lemma get_update_ne m k k' (f : V -> V) :
  k ≠ k' -> JsMap.get (JsMap.update m k f) k' = JsMap.get m k'.
Proof.
  intros Hne. unfold JsMap.update. destruct (JsMap.get m k); [|done].
  by apply get_set_ne.
Qed.

Lemma get_Some_elem_of m k v : JsMap.get m k = Some v -> (k, v) ∈ m.
Proof.
  induction m as [|[k' v'] m IH]; simpl; [done|].
  destruct (decide (k' = k)) as [->|].
  - intros [= ->]. left.
  - intros. right. auto.
Qed.

Lemma get_None_keys m k : JsMap.get m k = None ↔ k ∉ List.map fst m.
Proof.
  induction m as [|[k' v'] m IH]; simpl.
  - split; [intros _; apply not_elem_of_nil|done].
  - rewrite not_elem_of_cons. destruct (decide (k' = k)) as [->|Hne].
    + split; [done|]. by intros [? _].
    + rewrite IH. split; [intros; split; congruence|by intros [_ ?]].
Qed.

Lemma keys_set m k v :
  List.map fst (JsMap.set m k v)
  = if JsMap.has m k then List.map fst m else List.map fst m ++ [k].
Proof.
  unfold JsMap.has. induction m as [|[k' v'] m IH]; simpl; [done|].
  destruct (decide (k' = k)) as [->|]; simpl; [done|].
  rewrite IH. by destruct (JsMap.get m k).
Qed.

Lemma keys_update m k (f : V -> V) :
  List.map fst (JsMap.update m k f) = List.map fst m.
Proof.
  unfold JsMap.update. destruct (JsMap.get m k) eqn:Hg; [|done].
  rewrite keys_set. unfold JsMap.has. by rewrite Hg.
Qed.

Lemma Forall_set (P : K * V -> Prop) m k v :
  Forall P m -> P (k, v) -> Forall P (JsMap.set m k v).
Proof.
  intros Hm Hv. induction Hm as [|[k' v'] m Hx Hm IH]; simpl.
  - by constructor.
  - destruct (decide (k' = k)); by constructor.
Qed.

Lemma Forall_update (P : K * V -> Prop) m k (f : V -> V) :
  Forall P m -> (forall v, P (k, v) -> P (k, f v)) -> Forall P (JsMap.update m k f).
Proof.
  intros Hm Hf. unfold JsMap.update. destruct (JsMap.get m k) eqn:Hg; [|done].
  apply Forall_set; [done|]. apply Hf.
  rewrite Forall_forall in Hm. by apply Hm, get_Some_elem_of.
Qed.

End MapFacts.

(* ===================================================================== *)
(** * Facts about doubles *)
(* ===================================================================== *)

(** ** Powers of two *)

Lemma pow2_pos (k : Z) : (0 < pow2 k)%Q.
Proof. apply Qpower_0_lt. reflexivity. Qed.

Lemma pow2_nonzero (k : Z) : ~ (pow2 k == 0)%Q.
Proof. intros H. pose proof (pow2_pos k) as Hp. rewrite H in Hp. by apply Qlt_irrefl in Hp. Qed.

Lemma pow2_add (a b : Z) : (pow2 (a + b) == pow2 a * pow2 b)%Q.
Proof. apply Qpower_plus. discriminate. Qed.

Lemma pow2_nonneg (k : Z) : 0 <= k -> (pow2 k == inject_Z (2 ^ k))%Q.
Proof. intros Hk. unfold pow2. by rewrite Zpower_Qpower. Qed.

Lemma pow2_ge_1 (k : Z) : 0 <= k -> (1 <= pow2 k)%Q.
Proof.
  intros Hk. rewrite pow2_nonneg by done. change 1%Q with (inject_Z 1).
  rewrite <- Zle_Qle. pose proof (Z.pow_pos_nonneg 2 k). lia.
Qed.

Lemma pow2_le (a b : Z) : a <= b -> (pow2 a <= pow2 b)%Q.
Proof.
  intros Hab. replace b with (a + (b - a)) by lia. rewrite pow2_add.
  rewrite <- (Qmult_1_r (pow2 a)) at 1.
  apply Qmult_le_l; [apply pow2_pos|]. apply pow2_ge_1. lia.
Qed.

Lemma pow2_lt (a b : Z) : a < b -> (pow2 a < pow2 b)%Q.
Proof.
  intros Hab. replace b with (a + (b - a)) by lia. rewrite pow2_add.
  rewrite <- (Qmult_1_r (pow2 a)) at 1.
  apply Qmult_lt_l; [apply pow2_pos|].
  rewrite pow2_nonneg by lia. change 1%Q with (inject_Z 1).
  rewrite <- Zlt_Qlt. apply Z.pow_gt_1; lia.
Qed.

Lemma pow2_lt_inv (a b : Z) : (pow2 a < pow2 b)%Q -> a < b.
Proof.
  intros H. destruct (Z.lt_ge_cases a b) as [|Hge]; [done|].
  apply pow2_le in Hge. by apply Qle_not_lt in Hge.
Qed.

Lemma pow2_sub (a b : Z) : (pow2 (a - b) == pow2 a / pow2 b)%Q.
Proof.
  assert (H : (pow2 a == pow2 (a - b) * pow2 b)%Q).
  { rewrite <- pow2_add. by replace (a - b + b) with a by lia. }
  rewrite H. field. apply pow2_nonzero.
Qed.

(** ** The binade of a rational *)

Lemma frac_le (a c : Z) (b d : positive) :
  a * Z.pos d <= c * Z.pos b -> (a # b <= c # d)%Q.
Proof. done. Qed.

Lemma frac_lt (a c : Z) (b d : positive) :
  a * Z.pos d < c * Z.pos b -> (a # b < c # d)%Q.
Proof. done. Qed.

Lemma pow2_frac (a b : Z) :
  0 <= a -> 0 <= b -> (pow2 (a - b) == 2 ^ a # Z.to_pos (2 ^ b))%Q.
Proof.
  intros Ha Hb. rewrite pow2_sub, !pow2_nonneg by done.
  pose proof (Z.pow_pos_nonneg 2 b ltac:(lia) Hb) as Hpos.
  rewrite (Qmake_Qdiv (2 ^ a) (Z.to_pos (2 ^ b))). by rewrite Z2Pos.id.
Qed.

Lemma Qabs_frac (x : Q) : Qabs x = (Z.abs (Qnum x) # Qden x)%Q.
Proof. by destruct x. Qed.

Lemma binade_spec (x : Q) :
  ~ (x == 0)%Q -> (pow2 (binade x) <= Qabs x < pow2 (binade x + 1))%Q.
Proof.
  intros Hx. unfold binade.
  set (m := Z.abs (Qnum x)). set (b := Qden x).
  assert (Hm : 0 < m).
  { unfold m. destruct x as [a d]. unfold Qeq in Hx. simpl in *. lia. }
  pose proof (Z.log2_spec m Hm) as [Hm1 Hm2].
  pose proof (Z.log2_spec (Z.pos b) ltac:(lia)) as [Hb1 Hb2].
  pose proof (Z.log2_nonneg m) as Hlm. pose proof (Z.log2_nonneg (Z.pos b)) as Hlb.
  set (lm := Z.log2 m) in *. set (lb := Z.log2 (Z.pos b)) in *.
  assert (Hup : (Qabs x < pow2 (lm - lb + 1))%Q).
  { replace (lm - lb + 1) with (Z.succ lm - lb) by lia.
    rewrite pow2_frac by lia. rewrite Qabs_frac. fold m b. apply frac_lt.
    rewrite Z2Pos.id by (apply Z.pow_pos_nonneg; lia).
    apply Z.le_lt_trans with (m * Z.pos b); [|apply Z.mul_lt_mono_pos_r; lia].
    apply Z.mul_le_mono_nonneg_l; lia. }
  assert (Hlow : (pow2 (lm - lb - 1) <= Qabs x)%Q).
  { replace (lm - lb - 1) with (lm - Z.succ lb) by lia.
    rewrite pow2_frac by lia. rewrite Qabs_frac. fold m b. apply frac_le.
    rewrite Z2Pos.id by (apply Z.pow_pos_nonneg; lia).
    apply Z.le_trans with (m * Z.pos b); [apply Z.mul_le_mono_nonneg_r; lia|].
    apply Z.mul_le_mono_nonneg_l; lia. }
  destruct (Qle_bool (pow2 (lm - lb)) (Qabs x)) eqn:Htest.
  - apply Qle_bool_iff in Htest. by split.
  - split; [done|]. replace (lm - lb - 1 + 1) with (lm - lb) by lia.
    apply Qnot_le_lt. intros H%Qle_bool_iff. congruence.
Qed.

Lemma binade_unique (x : Q) (k : Z) :
  (pow2 k <= Qabs x < pow2 (k + 1))%Q -> binade x = k.
Proof.
  intros [Hlo Hhi].
  assert (Hx : ~ (x == 0)%Q).
  { intros H. rewrite H in Hlo. pose proof (pow2_pos k) as Hp.
    change (Qabs 0) with 0%Q in Hlo. by apply Qle_not_lt in Hlo. }
  destruct (binade_spec x Hx) as [Hlo' Hhi'].
  pose proof (pow2_lt_inv k (binade x + 1) ltac:(by eapply Qle_lt_trans)).
  pose proof (pow2_lt_inv (binade x) (k + 1) ltac:(by eapply Qle_lt_trans)).
  lia.
Qed.

Lemma binade_mono (x y : Q) :
  ~ (x == 0)%Q -> (Qabs x <= Qabs y)%Q -> binade x <= binade y.
Proof.
  intros Hx Hxy.
  assert (Hy : ~ (y == 0)%Q).
  { intros H. rewrite H in Hxy. change (Qabs 0) with 0%Q in Hxy.
    apply Hx. apply (proj1 (Qabs_Qle_condition x 0)) in Hxy.
    destruct Hxy. by apply Qle_antisym. }
  destruct (binade_spec x Hx) as [Hlo _]. destruct (binade_spec y Hy) as [_ Hhi].
  pose proof (pow2_lt_inv (binade x) (binade y + 1)
                ltac:(eapply Qle_lt_trans; [|exact Hhi]; by eapply Qle_trans)).
  lia.
Qed.

Lemma binade_eq (x y : Q) : ~ (x == 0)%Q -> (x == y)%Q -> binade x = binade y.
Proof.
  intros Hx Hxy. symmetry. apply binade_unique. rewrite <- Hxy. by apply binade_spec.
Qed.

(** ** Rounding to the nearest integer, ties to even *)

Lemma round_half_even_cases (q : Q) :
  let f := Qfloor q in
  (round_half_even q = f /\ (q - inject_Z f <= 1 # 2)%Q)
  \/ (round_half_even q = f + 1 /\ (1 # 2 <= q - inject_Z f)%Q).
Proof.
  cbv zeta. unfold round_half_even.
  destruct (Qcompare_spec (q - inject_Z (Qfloor q)) (1 # 2)) as [He|Hl|Hg].
  - destruct (Z.even (Qfloor q)); [left|right]; split; try done; rewrite He; apply Qle_refl.
  - left. split; [done|]. by apply Qlt_le_weak.
  - right. split; [done|]. by apply Qlt_le_weak.
Qed.

Lemma round_half_even_inject (z : Z) : round_half_even (inject_Z z) = z.
Proof.
  unfold round_half_even. rewrite Qfloor_Z.
  assert (H : (inject_Z z - inject_Z z == 0)%Q) by ring.
  destruct (Qcompare_spec (inject_Z z - inject_Z z) (1 # 2)) as [He|Hl|Hg]; [|done|].
  - rewrite H in He. discriminate.
  - rewrite H in Hg. discriminate.
Qed.

Lemma round_half_even_mono (p q : Q) :
  (p <= q)%Q -> round_half_even p <= round_half_even q.
Proof.
  intros Hpq. pose proof (Qfloor_resp_le _ _ Hpq) as Hf.
  destruct (Z.eq_dec (Qfloor p) (Qfloor q)) as [Heq|Hne].
  - unfold round_half_even. rewrite <- Heq.
    assert (Hr : (p - inject_Z (Qfloor p) <= q - inject_Z (Qfloor p))%Q) by lra.
    destruct (Qcompare_spec (p - inject_Z (Qfloor p)) (1 # 2)) as [He|Hl|Hg];
      destruct (Qcompare_spec (q - inject_Z (Qfloor p)) (1 # 2)) as [He'|Hl'|Hg'];
      try lia; try lra; destruct (Z.even (Qfloor p)); lia.
  - destruct (round_half_even_cases p) as [[-> _]|[-> _]];
      destruct (round_half_even_cases q) as [[-> _]|[-> _]]; lia.
Qed.

Lemma round_half_even_error (q : Q) :
  (Qabs (inject_Z (round_half_even q) - q) <= 1 # 2)%Q.
Proof.
  pose proof (Qfloor_le q) as Hlo. pose proof (Qlt_floor q) as Hhi.
  rewrite inject_Z_plus in Hhi. change (inject_Z 1) with 1%Q in Hhi.
  apply Qabs_Qle_condition.
  destruct (round_half_even_cases q) as [[-> H]|[-> H]].
  - split; lra.
  - rewrite inject_Z_plus. change (inject_Z 1) with 1%Q. split; lra.
Qed.

#[global] Instance round_half_even_proper : Proper (Qeq ==> eq) round_half_even.
Proof.
  intros p q Hpq. unfold round_half_even. rewrite (Qfloor_comp _ _ Hpq).
  assert (H : (p - inject_Z (Qfloor q) ?= 1 # 2)%Q
              = (q - inject_Z (Qfloor q) ?= 1 # 2)%Q) by (by rewrite Hpq).
  by rewrite H.
Qed.

(** ** Rounding to the nearest double *)

Lemma round_double_zero (x : Q) : (x == 0)%Q -> round_double x = 0%Q.
Proof. intros H. unfold round_double. by rewrite (proj2 (Qeq_bool_iff x 0) H). Qed.

Lemma round_double_nonzero (x : Q) :
  ~ (x == 0)%Q ->
  (round_double x
   == inject_Z (round_half_even (x / pow2 (double_exponent x)))
      * pow2 (double_exponent x))%Q.
Proof.
  intros H. unfold round_double.
  destruct (Qeq_bool x 0) eqn:Hb; [by apply Qeq_bool_iff in Hb|].
  cbv zeta. apply Qred_correct.
Qed.

#[global] Instance round_double_proper : Proper (Qeq ==> Qeq) round_double.
Proof.
  intros x y Hxy. destruct (Qeq_dec x 0) as [H0|H0].
  - rewrite (round_double_zero x H0), (round_double_zero y); [done|].
    by rewrite <- Hxy.
  - assert (H0' : ~ (y == 0)%Q) by (by rewrite <- Hxy).
    rewrite (round_double_nonzero x H0), (round_double_nonzero y H0').
    unfold double_exponent. rewrite (binade_eq x y H0 Hxy).
    set (e := Z.max (binade y - 52) (-1074)).
    assert (H : (x / pow2 e == y / pow2 e)%Q) by (by rewrite Hxy).
    by rewrite H.
Qed.

Lemma double_exponent_mono (x y : Q) :
  ~ (x == 0)%Q -> (Qabs x <= Qabs y)%Q -> double_exponent x <= double_exponent y.
Proof.
  intros Hx Hxy. unfold double_exponent. pose proof (binade_mono x y Hx Hxy). lia.
Qed.

(** The scaled value [x / 2^e] against an integer bound. *)
Lemma scaled_le (x : Q) (e z : Z) :
  (x <= inject_Z z * pow2 e)%Q -> round_half_even (x / pow2 e) <= z.
Proof.
  intros H. rewrite <- (round_half_even_inject z). apply round_half_even_mono.
  apply Qle_shift_div_r; [apply pow2_pos|done].
Qed.

Lemma scaled_ge (x : Q) (e z : Z) :
  (inject_Z z * pow2 e <= x)%Q -> z <= round_half_even (x / pow2 e).
Proof.
  intros H. rewrite <- (round_half_even_inject z) at 1. apply round_half_even_mono.
  apply Qle_shift_div_l; [apply pow2_pos|done].
Qed.

Lemma round_double_le (x : Q) (z : Z) :
  ~ (x == 0)%Q -> (x <= inject_Z z * pow2 (double_exponent x))%Q ->
  (round_double x <= inject_Z z * pow2 (double_exponent x))%Q.
Proof.
  intros Hx H. rewrite (round_double_nonzero x Hx).
  apply Qmult_le_compat_r; [|apply Qlt_le_weak, pow2_pos].
  rewrite <- Zle_Qle. by apply scaled_le.
Qed.

Lemma round_double_ge (x : Q) (z : Z) :
  ~ (x == 0)%Q -> (inject_Z z * pow2 (double_exponent x) <= x)%Q ->
  (inject_Z z * pow2 (double_exponent x) <= round_double x)%Q.
Proof.
  intros Hx H. rewrite (round_double_nonzero x Hx).
  apply Qmult_le_compat_r; [|apply Qlt_le_weak, pow2_pos].
  rewrite <- Zle_Qle. by apply scaled_ge.
Qed.

Lemma round_double_nonneg (x : Q) : (0 <= x)%Q -> (0 <= round_double x)%Q.
Proof.
  intros Hx. destruct (Qeq_dec x 0) as [H0|H0].
  - rewrite (round_double_zero x H0). apply Qle_refl.
  - pose proof (round_double_ge x 0 H0) as H. rewrite Qmult_0_l in H. by apply H.
Qed.

Lemma round_double_nonpos (x : Q) : (x <= 0)%Q -> (round_double x <= 0)%Q.
Proof.
  intros Hx. destruct (Qeq_dec x 0) as [H0|H0].
  - rewrite (round_double_zero x H0). apply Qle_refl.
  - pose proof (round_double_le x 0 H0) as H. rewrite Qmult_0_l in H. by apply H.
Qed.

Lemma pow2_53 (e : Z) : (inject_Z (2 ^ 53) * pow2 e == pow2 (e + 53))%Q.
Proof. rewrite <- (pow2_nonneg 53) by lia. rewrite Z.add_comm. by rewrite pow2_add. Qed.

Lemma pow2_52 (e : Z) : (inject_Z (2 ^ 52) * pow2 e == pow2 (e + 52))%Q.
Proof. rewrite <- (pow2_nonneg 52) by lia. rewrite Z.add_comm. by rewrite pow2_add. Qed.

(** A value below the top of its binade rounds to at most that top; a normal
    value rounds to at least the bottom of its binade. *)
Lemma round_double_upper (x : Q) :
  ~ (x == 0)%Q -> (Qabs (round_double x) <= pow2 (double_exponent x + 53))%Q.
Proof.
  intros Hx. destruct (binade_spec x Hx) as [_ Hhi].
  assert (Hb : (Qabs x <= pow2 (double_exponent x + 53))%Q).
  { apply Qlt_le_weak. eapply Qlt_le_trans; [exact Hhi|].
    apply pow2_le. unfold double_exponent. lia. }
  apply Qabs_Qle_condition in Hb as [Hb1 Hb2]. apply Qabs_Qle_condition.
  rewrite <- pow2_53 in *. split.
  - assert (H : (- (inject_Z (2 ^ 53) * pow2 (double_exponent x))
                 == inject_Z (- 2 ^ 53) * pow2 (double_exponent x))%Q).
    { rewrite inject_Z_opp. ring. }
    rewrite H in *. by apply round_double_ge.
  - by apply round_double_le.
Qed.

Lemma round_double_lower_pos (x : Q) :
  (0 < x)%Q -> -1074 < double_exponent x ->
  (pow2 (double_exponent x + 52) <= round_double x)%Q.
Proof.
  intros Hx He.
  assert (H0 : ~ (x == 0)%Q) by (intros H; rewrite H in Hx; by apply Qlt_irrefl in Hx).
  destruct (binade_spec x H0) as [Hlo _].
  rewrite Qabs_pos in Hlo by (by apply Qlt_le_weak).
  rewrite <- pow2_52. apply round_double_ge; [done|]. rewrite pow2_52.
  replace (double_exponent x + 52) with (binade x); [done|].
  unfold double_exponent in *. lia.
Qed.

Lemma round_double_lower_neg (x : Q) :
  (x < 0)%Q -> -1074 < double_exponent x ->
  (round_double x <= - pow2 (double_exponent x + 52))%Q.
Proof.
  intros Hx He.
  assert (H0 : ~ (x == 0)%Q) by (intros H; rewrite H in Hx; by apply Qlt_irrefl in Hx).
  destruct (binade_spec x H0) as [Hlo _].
  rewrite Qabs_neg in Hlo by (by apply Qlt_le_weak).
  assert (H : (- pow2 (double_exponent x + 52)
               == inject_Z (- 2 ^ 52) * pow2 (double_exponent x))%Q).
  { rewrite <- pow2_52, inject_Z_opp. ring. }
  rewrite H. apply round_double_le; [done|]. rewrite <- H.
  replace (double_exponent x + 52) with (binade x); [lra|].
  unfold double_exponent in *. lia.
Qed.

Lemma round_double_mono_same (x y : Q) :
  ~ (x == 0)%Q -> ~ (y == 0)%Q -> double_exponent x = double_exponent y ->
  (x <= y)%Q -> (round_double x <= round_double y)%Q.
Proof.
  intros Hx Hy He Hxy.
  rewrite (round_double_nonzero x Hx), (round_double_nonzero y Hy), He.
  apply Qmult_le_compat_r; [|apply Qlt_le_weak, pow2_pos].
  rewrite <- Zle_Qle. apply round_half_even_mono.
  apply Qmult_le_compat_r; [done|]. apply Qlt_le_weak, Qinv_lt_0_compat, pow2_pos.
Qed.

(** Rounding never reverses the order of two values. *)
Lemma round_double_mono (x y : Q) :
  (x <= y)%Q -> (round_double x <= round_double y)%Q.
Proof.
  intros Hxy.
  destruct (Qlt_le_dec 0 x) as [Hx|Hx].
  - (* 0 < x <= y *)
    assert (Hy : (0 < y)%Q) by (by eapply Qlt_le_trans).
    assert (Hx0 : ~ (x == 0)%Q) by (intros H; rewrite H in Hx; by apply Qlt_irrefl in Hx).
    assert (Hy0 : ~ (y == 0)%Q) by (intros H; rewrite H in Hy; by apply Qlt_irrefl in Hy).
    assert (He : double_exponent x <= double_exponent y).
    { apply double_exponent_mono; [done|].
      rewrite !Qabs_pos by (by apply Qlt_le_weak). done. }
    destruct (Z.eq_dec (double_exponent x) (double_exponent y)) as [Heq|Hne].
    + by apply round_double_mono_same.
    + pose proof (round_double_upper x Hx0) as Hup.
      apply Qabs_Qle_condition in Hup as [_ Hup].
      pose proof (round_double_lower_pos y Hy) as Hlo.
      assert (Hey : -1074 < double_exponent y) by (unfold double_exponent in *; lia).
      specialize (Hlo Hey).
      eapply Qle_trans; [exact Hup|]. eapply Qle_trans; [|exact Hlo].
      apply pow2_le. lia.
  - destruct (Qlt_le_dec y 0) as [Hy|Hy].
    + (* x <= y < 0 *)
      assert (Hx' : (x < 0)%Q) by (eapply Qle_lt_trans; [exact Hxy|exact Hy]).
      assert (Hx0 : ~ (x == 0)%Q)
        by (intros H; rewrite H in Hx'; by apply Qlt_irrefl in Hx').
      assert (Hy0 : ~ (y == 0)%Q) by (intros H; rewrite H in Hy; by apply Qlt_irrefl in Hy).
      assert (He : double_exponent y <= double_exponent x).
      { apply double_exponent_mono; [done|].
        rewrite !Qabs_neg by (by apply Qlt_le_weak). lra. }
      destruct (Z.eq_dec (double_exponent x) (double_exponent y)) as [Heq|Hne].
      * by apply round_double_mono_same.
      * pose proof (round_double_upper y Hy0) as Hup.
        apply Qabs_Qle_condition in Hup as [Hup _].
        assert (Hex : -1074 < double_exponent x) by (unfold double_exponent in *; lia).
        pose proof (round_double_lower_neg x Hx' Hex) as Hlo.
        eapply Qle_trans; [exact Hlo|]. eapply Qle_trans; [|exact Hup].
        apply Qopp_le_compat, pow2_le. lia.
    + (* x <= 0 <= y *)
      eapply Qle_trans; [by apply round_double_nonpos|by apply round_double_nonneg].
Qed.

(** ** Doubles are fixed points, and the rounding error *)

Lemma round_double_exact (z k : Z) :
  Z.abs z < 2 ^ 53 -> -1074 <= k ->
  (round_double (inject_Z z * pow2 k) == inject_Z z * pow2 k)%Q.
Proof.
  intros Hz Hk. set (x := (inject_Z z * pow2 k)%Q).
  destruct (Qeq_dec x 0) as [H0|H0].
  - rewrite (round_double_zero x H0). by rewrite H0.
  - destruct (binade_spec x H0) as [Hlo _].
    assert (Habs : (Qabs x < pow2 (k + 53))%Q).
    { unfold x. rewrite Qabs_Qmult, (Qabs_pos (pow2 k)) by apply Qlt_le_weak, pow2_pos.
      rewrite <- pow2_53. apply Qmult_lt_compat_r; [apply pow2_pos|].
      change (Qabs (inject_Z z)) with (inject_Z (Z.abs z)). by rewrite <- Zlt_Qlt. }
    pose proof (pow2_lt_inv (binade x) (k + 53)
                  ltac:(eapply Qle_lt_trans; [exact Hlo|exact Habs])) as Hb.
    assert (He : double_exponent x <= k) by (unfold double_exponent; lia).
    rewrite (round_double_nonzero x H0).
    set (e := double_exponent x) in *.
    assert (Hs : (x / pow2 e == inject_Z (z * 2 ^ (k - e)))%Q).
    { unfold x. rewrite inject_Z_mult, <- pow2_nonneg by lia. rewrite pow2_sub.
      field. apply pow2_nonzero. }
    rewrite Hs, round_half_even_inject, inject_Z_mult, <- pow2_nonneg by lia.
    unfold x. rewrite pow2_sub. field. apply pow2_nonzero.
Qed.

Lemma round_double_Z (z : Z) :
  Z.abs z <= 2 ^ 53 -> (round_double (inject_Z z) == inject_Z z)%Q.
Proof.
  intros Hz.
  assert (H1 : forall q : Q, (q * pow2 0 == q)%Q) by (intros q; unfold pow2; simpl; ring).
  destruct (Z.eq_dec (Z.abs z) (2 ^ 53)) as [Heq|Hne].
  - assert (Hs : (inject_Z z == inject_Z (Z.sgn z) * pow2 53)%Q).
    { rewrite pow2_nonneg by lia. rewrite <- inject_Z_mult.
      by rewrite <- Heq, Z.mul_comm, Z.abs_sgn. }
    rewrite Hs. apply round_double_exact; [|lia].
    destruct z; simpl; lia.
  - rewrite <- (H1 (inject_Z z)). apply round_double_exact; lia.
Qed.

Lemma round_double_error (x : Q) :
  ~ (x == 0)%Q ->
  (Qabs (round_double x - x) <= pow2 (double_exponent x - 1))%Q.
Proof.
  intros H0. rewrite (round_double_nonzero x H0). set (e := double_exponent x).
  assert (Hx : (x == x / pow2 e * pow2 e)%Q) by (field; apply pow2_nonzero).
  rewrite Hx at 2.
  assert (Hd : (inject_Z (round_half_even (x / pow2 e)) * pow2 e - x / pow2 e * pow2 e
                == (inject_Z (round_half_even (x / pow2 e)) - x / pow2 e) * pow2 e)%Q)
    by ring.
  rewrite Hd, Qabs_Qmult, (Qabs_pos (pow2 e)) by apply Qlt_le_weak, pow2_pos.
  assert (Hh : (pow2 (e - 1) == (1 # 2) * pow2 e)%Q).
  { rewrite pow2_sub. unfold pow2 at 2. simpl. field. }
  rewrite Hh. apply Qmult_le_compat_r; [apply round_half_even_error|].
  apply Qlt_le_weak, pow2_pos.
Qed.

(** The relative error of a rounding in the normal range is at most 2^-53. *)
Lemma round_double_relative (x : Q) :
  (pow2 (-1022) <= Qabs x)%Q ->
  (Qabs (round_double x - x) <= Qabs x * pow2 (-53))%Q.
Proof.
  intros Hn.
  assert (H0 : ~ (x == 0)%Q).
  { intros H. rewrite H in Hn. change (Qabs 0) with 0%Q in Hn.
    pose proof (pow2_pos (-1022)). lra. }
  destruct (binade_spec x H0) as [Hlo Hhi].
  pose proof (pow2_lt_inv (-1022) (binade x + 1)
                ltac:(eapply Qle_lt_trans; [exact Hn|exact Hhi])) as Hb.
  eapply Qle_trans; [by apply round_double_error|].
  replace (double_exponent x - 1) with (binade x + -53)
    by (unfold double_exponent; lia).
  rewrite pow2_add. apply Qmult_le_compat_r; [done|]. apply Qlt_le_weak, pow2_pos.
Qed.



(** ** Truncation to whole milliseconds *)

Lemma time_clip_mono (q1 q2 : Q) : (q1 <= q2)%Q -> time_clip q1 <= time_clip q2.
Proof.
  unfold Qle, time_clip. destruct q1 as [a b], q2 as [c d]. simpl. intros Hle.
  rewrite <- (Z.quot_mul_cancel_r a (Z.pos b) (Z.pos d)) by lia.
  rewrite <- (Z.quot_mul_cancel_r c (Z.pos d) (Z.pos b)) by lia.
  rewrite (Z.mul_comm (Z.pos d) (Z.pos b)).
  apply Z.quot_le_mono; lia.
Qed.


(** ** A list of values taken at successive integers *)

Lemma sorted_map_seqZ (g : Z -> Z) (a : Z) (len : nat) :
  (forall i j, a <= i -> i <= j -> j < a + Z.of_nat len -> g i <= g j) ->
  StronglySorted Z.le (List.map g (seqZ a (Z.of_nat len))).
Proof.
  revert a. induction len as [|len IH]; intros a Hg; [constructor|].
  rewrite seqZ_cons by lia.
  replace (Z.pred (Z.of_nat (S len))) with (Z.of_nat len) by lia.
  simpl. constructor.
  - apply IH. intros i j Hi Hij Hj. apply Hg; lia.
  - apply Forall_forall.
    intros x (j & <- & Hj%list_elem_of_In%elem_of_seqZ)%list_elem_of_In%in_map_iff.
    apply Hg; lia.
Qed.



(* ===================================================================== *)
(** * Properties of the championship standings *)
(* ===================================================================== *)

#[local] Arguments award : simpl never.
#[local] Arguments process_session : simpl never.

Lemma find_filter_implied {A : Type} (p q : A -> bool) (l : list A) :
  (forall x, p x = true -> q x = true) ->
  List.find p (List.filter q l) = List.find p l.
Proof.
  intros Hpq. induction l as [|x l IH]; simpl; [done|].
  destruct (q x) eqn:Hq; simpl.
  - by rewrite IH.
  - destruct (p x) eqn:Hp; [|done]. apply Hpq in Hp. congruence.
Qed.

Lemma find_none_iff {A : Type} (p : A -> bool) (l : list A) :
  List.find p l = None ↔ forall x, x ∈ l -> p x = false.
Proof.
  split.
  - intros Hf x Hx. apply list_elem_of_In in Hx. by eapply find_none.
  - intros Hall. induction l as [|x l IH]; simpl; [done|].
    rewrite (Hall x) by left. apply IH. intros y Hy. apply Hall. by right.
Qed.

(** ** The ranking step, for either table *)








(** The stable insertion sort is an implementation that conforms. *)
Lemma stable_sort_permuting : permuting stable_sort.
Proof. intros A cmp l. apply js_sort_perm. Qed.


(** A comparator that is a difference of integer keys, as the comparators of
    the replay are, is consistent: every implementation that conforms sorts
    with it as [js_sort] does. *)
Lemma difference_consistent {A : Type} (key : A -> Z) (cmp : A -> A -> Z) (l : list A) :
  (forall a b, cmp a b = key a - key b) ->
  consistent (fun a b => Num (cmp a b)) l.
Proof.
  intros Hcmp. unfold consistent. simpl.
  repeat split; intros; rewrite ?Hcmp in *; try done; lia.
Qed.

Lemma conforming_difference (sort : engine_sort) {A : Type} (key : A -> Z)
    (cmp : A -> A -> Z) (l : list A) :
  conforming sort -> (forall a b, cmp a b = key a - key b) ->
  sort A (fun a b => Num (cmp a b)) l = js_sort cmp l.
Proof.
  intros [_ Hsort] Hcmp.
  by rewrite Hsort by by apply (difference_consistent key).
Qed.

Section Ranking.
Context {A : Type} (sort : engine_sort).
Context (score : A -> number * Z * Z) (reposition : nat -> A -> A).
Hypothesis score_reposition : forall i a, score (reposition i a) = score a.

Local Abbreviation rank := (ranked sort score reposition).

Lemma map_imap_invariant {B : Type} (f : A -> B) (g : nat -> A -> A) (l : list A) :
  (forall i a, f (g i a) = f a) -> List.map f (imap g l) = List.map f l.
Proof.
  revert g. induction l as [|x l IH]; intros g Hg; simpl; [done|].
  rewrite Hg. f_equal. apply IH. intros i a. apply Hg.
Qed.






Lemma ranked_perm {B : Type} (f : A -> B) (rows : list A) :
  permuting sort ->
  (forall i a, f (reposition i a) = f a) ->
  List.map f (rank rows) ≡ₚ List.map f rows.
Proof.
  intros Hperm Hf. unfold ranked. rewrite map_imap_invariant by done.
  apply Permutation_map, Hperm.
Qed.


End Ranking.

Lemma driverStandings_ranked (sort : engine_sort) (st : Stats) :
  driverStandings sort st
  = ranked sort driver_score set_driver_position (driver_rows st).
Proof. done. Qed.

Lemma constructorStandings_ranked (sort : engine_sort) (st : Stats) :
  constructorStandings sort st
  = ranked sort constructor_score set_constructor_position (constructor_rows st).
Proof. done. Qed.

(** ** No [NaN] among the points when the running orders start at 1 *)



Lemma final_fold_Forall (P : Z * Z -> Prop) (all l : list Position.t) (acc : list (Z * Z)) :
  Forall (fun p => P (Position.driver_number p, Position.position p)) l ->
  Forall P acc -> Forall P (fold_left (final_step all) l acc).
Proof.
  intros Hl. revert acc. induction Hl as [|p l Hp Hl IH]; intros acc Hacc; simpl; [done|].
  apply IH. unfold final_step. destruct (replaces_existing _ _ _); [|done].
  by apply Forall_set.
Qed.

Lemma finalPositions_Forall (P : Z * Z -> Prop) (positions : list Position.t) :
  Forall (fun p => P (Position.driver_number p, Position.position p)) positions ->
  Forall P (finalPositions positions).
Proof. intros H. by apply final_fold_Forall. Qed.




(** ** A failing session, and a sample without a driver record *)


Lemma process_session_failed (api : Api) (st : Stats) (s : Session.t) :
  getDrivers api (Session.session_key s) = None
  \/ getPositions api (Session.session_key s) = None ->
  process_session api st s = st.
Proof.
  unfold process_session. intros [-> | ->]; [done|].
  by destruct (getDrivers api _).
Qed.

Lemma season_stats_ext (api api' : Api) (sessions : list Session.t) :
  (forall st s, process_session api st s = process_session api' st s) ->
  season_stats api sessions = season_stats api' sessions.
Proof.
  intros Hext. unfold season_stats. generalize (mkStats [] []).
  induction (List.filter is_race_session sessions) as [|s l IH]; intros st; simpl; [done|].
  by rewrite Hext, IH.
Qed.

Lemma filter_set_other (n k v : Z) (m : list (Z * Z)) :
  k ≠ n ->
  List.filter (fun e : Z * Z => negb (e.1 =? n)) (JsMap.set m k v)
  = JsMap.set (List.filter (fun e : Z * Z => negb (e.1 =? n)) m) k v.
Proof.
  intros Hk. induction m as [|[k' v'] m IH]; simpl.
  - by rewrite (proj2 (Z.eqb_neq k n)).
  - destruct (decide (k' = k)) as [->|Hne]; simpl.
    + rewrite (proj2 (Z.eqb_neq k n)) by done. simpl. by rewrite decide_True.
    + destruct (k' =? n) eqn:Hk'; simpl; [done|].
      by rewrite decide_False, IH.
Qed.

Lemma filter_set_same (n v : Z) (m : list (Z * Z)) :
  List.filter (fun e : Z * Z => negb (e.1 =? n)) (JsMap.set m n v)
  = List.filter (fun e : Z * Z => negb (e.1 =? n)) m.
Proof.
  induction m as [|[k' v'] m IH]; simpl.
  - by rewrite Z.eqb_refl.
  - destruct (decide (k' = n)) as [->|Hne]; simpl.
    + by rewrite Z.eqb_refl.
    + by rewrite IH.
Qed.

Lemma get_filter_other (n k : Z) (m : list (Z * Z)) :
  k ≠ n ->
  JsMap.get (List.filter (fun e : Z * Z => negb (e.1 =? n)) m) k = JsMap.get m k.
Proof.
  intros Hk. induction m as [|[k' v'] m IH]; simpl; [done|].
  destruct (k' =? n) eqn:Hk'; simpl.
  - apply Z.eqb_eq in Hk' as ->. by rewrite decide_False.
  - by rewrite IH.
Qed.

(** The final positions of the other drivers do not depend on the samples of
    driver [n]. *)
Lemma final_fold_without (n : Z) (all l : list Position.t) (acc : list (Z * Z)) :
  fold_left
    (final_step (List.filter (fun p => negb (Position.driver_number p =? n)) all))
    (List.filter (fun p => negb (Position.driver_number p =? n)) l)
    (List.filter (fun e : Z * Z => negb (e.1 =? n)) acc)
  = List.filter (fun e : Z * Z => negb (e.1 =? n)) (fold_left (final_step all) l acc).
Proof.
  set (keep := fun p => negb (Position.driver_number p =? n)).
  set (keepe := fun e : Z * Z => negb (e.1 =? n)).
  revert acc. induction l as [|pos l IH]; intros acc; simpl; [done|].
  rewrite <- IH. unfold keep at 2.
  destruct (Position.driver_number pos =? n) eqn:Hn; simpl.
  - assert (E : List.filter keepe (final_step all acc pos) = List.filter keepe acc);
      [|by rewrite E].
    unfold final_step. destruct (replaces_existing _ _ _); [|done].
    apply Z.eqb_eq in Hn as ->. apply filter_set_same.
  - apply Z.eqb_neq in Hn.
    assert (E : final_step (List.filter keep all) (List.filter keepe acc) pos
                = List.filter keepe (final_step all acc pos)); [|by rewrite E].
    unfold final_step. subst keepe. rewrite get_filter_other by done.
    assert (Hrep : forall existing,
      replaces_existing (List.filter keep all) existing pos
      = replaces_existing all existing pos).
    { intros existing. unfold replaces_existing. f_equal.
      rewrite find_filter_implied; [done|].
      intros p [Hp _]%andb_prop. unfold keep.
      apply Z.eqb_eq in Hp. rewrite Hp. by apply negb_true_iff, Z.eqb_neq. }
    rewrite Hrep. destruct (replaces_existing _ _ _); [|done].
    by rewrite filter_set_other.
Qed.

Lemma finalPositions_without (n : Z) (positions : list Position.t) :
  finalPositions (List.filter (fun p => negb (Position.driver_number p =? n)) positions)
  = List.filter (fun e : Z * Z => negb (e.1 =? n)) (finalPositions positions).
Proof. unfold finalPositions. by rewrite <- final_fold_without. Qed.

Lemma award_unmatched (ds : list Driver.t) (st : Stats) (n position : Z) :
  existsb (fun d => Driver.driver_number d =? n) ds = false ->
  award ds st (n, position) = st.
Proof.
  intros Hex. unfold award.
  destruct (List.find _ ds) as [d|] eqn:Hf; [|done].
  apply find_some in Hf as [Hin Hd].
  assert (existsb (fun d => Driver.driver_number d =? n) ds = true); [|congruence].
  apply existsb_exists. eauto.
Qed.

Lemma award_session_without (ds : list Driver.t) (ps : list Position.t) (st : Stats) (n : Z) :
  existsb (fun d => Driver.driver_number d =? n) ds = false ->
  award_session ds ps st
  = award_session ds (List.filter (fun p => negb (Position.driver_number p =? n)) ps) st.
Proof.
  intros Hex. unfold award_session. rewrite finalPositions_without.
  revert st. induction (finalPositions ps) as [|[k v] l IH]; intros st; simpl; [done|].
  destruct (k =? n) eqn:Hk; simpl.
  - apply Z.eqb_eq in Hk as ->. rewrite award_unmatched by done. apply IH.
  - apply IH.
Qed.

Lemma process_session_drop_unmatched (n : Z) (api : Api) (st : Stats) (s : Session.t) :
  process_session api st s = process_session (drop_unmatched n api) st s.
Proof.
  unfold process_session, drop_unmatched. simpl.
  destruct (getDrivers api _) as [ds|]; [|done].
  destruct (existsb _ ds) eqn:Hex; [done|].
  destruct (getPositions api _) as [ps|]; simpl; [|done].
  by apply award_session_without.
Qed.

(** Who can be in the drivers table: only numbers found in a drivers list. *)
Lemma award_driver_keys (ds : list Driver.t) (st : Stats) (e : Z * Z) (k : Z) :
  k ∈ List.map fst (driverStats (award ds st e)) ->
  k ∈ List.map fst (driverStats st)
  \/ exists d, d ∈ ds /\ Driver.driver_number d = k.
Proof.
  destruct e as [n position]. unfold award.
  destruct (List.find _ ds) as [d|] eqn:Hf; [|by left].
  apply find_some in Hf as [Hin Hd%Z.eqb_eq]. simpl.
  rewrite keys_update. destruct (JsMap.has _ _); [by left|].
  rewrite keys_set. destruct (JsMap.has _ _); [by left|].
  rewrite elem_of_app, list_elem_of_singleton. intros [?| ->]; [by left|].
  right. exists d. by rewrite list_elem_of_In.
Qed.

Lemma award_session_driver_keys (ds : list Driver.t) (ps : list Position.t)
    (st : Stats) (k : Z) :
  k ∈ List.map fst (driverStats (award_session ds ps st)) ->
  k ∈ List.map fst (driverStats st)
  \/ exists d, d ∈ ds /\ Driver.driver_number d = k.
Proof.
  unfold award_session. revert st.
  induction (finalPositions ps) as [|e l IH]; intros st; simpl; [by left|].
  intros [Hk|Hk]%IH; [|by right].
  by apply award_driver_keys in Hk.
Qed.

Lemma season_stats_driver_keys (api : Api) (sessions : list Session.t) (k : Z) :
  k ∈ List.map fst (driverStats (season_stats api sessions)) ->
  exists s ds d,
    s ∈ sessions /\ is_race_session s = true
    /\ getDrivers api (Session.session_key s) = Some ds
    /\ d ∈ ds /\ Driver.driver_number d = k.
Proof.
  unfold season_stats.
  assert (Hsub : forall s, s ∈ List.filter is_race_session sessions ->
            s ∈ sessions /\ is_race_session s = true).
  { intros s Hs%list_elem_of_In%filter_In. by rewrite list_elem_of_In. }
  assert (Hinit : k ∈ List.map fst (driverStats (mkStats [] [])) -> False).
  { simpl. apply not_elem_of_nil. }
  revert Hsub Hinit. generalize (mkStats [] []).
  induction (List.filter is_race_session sessions) as [|s l IH]; intros st Hsub Hinit; simpl.
  - intros Hk. by destruct Hinit.
  - intros Hk.
    destruct (decide (k ∈ List.map fst (driverStats (process_session api st s))))
      as [Hin|Hnin].
    + unfold process_session in Hin.
      destruct (getDrivers api _) as [ds|] eqn:Hds; [|by destruct Hinit].
      destruct (getPositions api _) as [ps|]; [|by destruct Hinit].
      apply award_session_driver_keys in Hin as [Hin|(d & Hd & Hk')]; [by destruct Hinit|].
      destruct (Hsub s) as [Hs Hr]; [left|]. by exists s, ds, d.
    + eapply IH; [|exact Hnin|exact Hk]. intros s' Hs'. apply Hsub. by right.
Qed.

(** ** The final positions of records in chronological order *)

Lemma find_app_l {A : Type} (f : A -> bool) (l1 l2 : list A) (x : A) :
  List.find f l1 = Some x -> List.find f (l1 ++ l2) = Some x.
Proof.
  induction l1 as [|y l1 IH]; simpl; [done|]. by destruct (f y).
Qed.

Lemma find_is_Some {A : Type} (f : A -> bool) (l : list A) (x : A) :
  x ∈ l -> f x = true -> exists y, List.find f l = Some y.
Proof.
  intros Hx Hf. destruct (List.find f l) as [y|] eqn:Hfind; [by exists y|].
  apply list_elem_of_In in Hx. apply (find_none _ _ Hfind) in Hx. congruence.
Qed.

Lemma latest_sample_snoc (pre : list Position.t) (pos : Position.t) (n : Z) :
  latest_sample (pre ++ [pos]) n
  = if Position.driver_number pos =? n then
      match latest_sample pre n with
      | Some b => if Position.date b <=? Position.date pos then Some pos else Some b
      | None => Some pos
      end
    else latest_sample pre n.
Proof.
  unfold latest_sample. rewrite fold_left_app. simpl.
  destruct (_ =? n); [|done]. by destruct (fold_left _ pre None).
Qed.

Lemma latest_sample_elem (l : list Position.t) (n : Z) (b : Position.t) :
  latest_sample l n = Some b -> b ∈ l /\ Position.driver_number b = n.
Proof.
  revert b. induction l as [|pos l IH] using rev_ind; intros b; [done|].
  rewrite latest_sample_snoc, elem_of_app, list_elem_of_singleton.
  destruct (Position.driver_number pos =? n) eqn:Hn.
  - apply Z.eqb_eq in Hn. destruct (latest_sample l n) as [b'|].
    + destruct (_ <=? _).
      * intros [= <-]. by split; [right|].
      * intros [= <-]. destruct (IH b' eq_refl). by split; [left|].
    + intros [= <-]. by split; [right|].
  - intros Hb. destruct (IH b Hb). by split; [left|].
Qed.

Lemma final_fold_chronological (all : list Position.t) :
  chronological all ->
  Forall (fun p => Position.position p ≠ 0) all ->
  forall suf pre acc,
    all = pre ++ suf ->
    (forall n, JsMap.get acc n = Position.position <$> latest_sample pre n) ->
    forall n,
      JsMap.get (fold_left (final_step all) suf acc) n
      = Position.position <$> latest_sample all n.
Proof.
  intros Hchron Hnz. induction suf as [|pos suf IH]; intros pre acc Hall Hinv n.
  - rewrite app_nil_r in Hall. subst all. apply Hinv.
  - simpl. apply (IH (pre ++ [pos])); [by rewrite <- app_assoc|]. clear n. intros m.
    assert (Hbefore : forall p, p ∈ pre ->
              Position.driver_number p = Position.driver_number pos ->
              Position.date p < Position.date pos).
    { intros p Hp. rewrite Hall in Hchron.
      apply (StronglySorted_app_1_elem_of _ _ _ _ _ Hchron Hp). left. }
    assert (Hset : final_step all acc pos
                   = JsMap.set acc (Position.driver_number pos) (Position.position pos)).
    { unfold final_step.
      assert (Hrep : replaces_existing all
                (JsMap.get acc (Position.driver_number pos)) pos = true); [|by rewrite Hrep].
      rewrite Hinv. unfold replaces_existing.
      destruct (latest_sample pre (Position.driver_number pos)) as [b|] eqn:Hb; [|done].
      apply latest_sample_elem in Hb as [Hbin Hbn]. simpl.
      assert (Hb0 : Position.position b ≠ 0).
      { rewrite Forall_forall in Hnz. apply Hnz. rewrite Hall. apply elem_of_app. by left. }
      rewrite (proj2 (Z.eqb_neq _ _) Hb0). simpl.
      set (f := fun p : Position.t =>
        (Position.driver_number p =? Position.driver_number pos)
        && bool_decide (Some (Position.position p) = Some (Position.position b))).
      destruct (find_is_Some f pre b Hbin) as [p Hp].
      { unfold f. rewrite (proj2 (Z.eqb_eq _ _) Hbn). by rewrite bool_decide_eq_true_2. }
      rewrite Hall, (find_app_l f pre (pos :: suf) p Hp).
      apply find_some in Hp as [Hpin [Hpn _]%andb_prop].
      apply Z.gtb_lt, Hbefore; [by apply list_elem_of_In|by apply Z.eqb_eq]. }
    rewrite Hset, latest_sample_snoc.
    destruct (decide (Position.driver_number pos = m)) as [Hm|Hm].
    + rewrite Hm, get_set_eq, Z.eqb_refl.
      destruct (latest_sample pre m) as [b|] eqn:Hb; [|done].
      apply latest_sample_elem in Hb as [Hbin Hbn].
      assert (Position.date b < Position.date pos) by (apply Hbefore; congruence).
      by rewrite (proj2 (Z.leb_le _ _)) by lia.
    + rewrite get_set_ne by done. rewrite (proj2 (Z.eqb_neq _ _) Hm). apply Hinv.
Qed.

(** On records in chronological order, with running orders that are not 0,
    the loop of [finalPositions] does end with the latest sample of every
    driver. *)
Lemma finalPositions_chronological (positions : list Position.t) (n : Z) :
  chronological positions ->
  Forall (fun p => Position.position p ≠ 0) positions ->
  JsMap.get (finalPositions positions) n = final_classification positions n.
Proof.
  intros Hchron Hnz. unfold finalPositions, final_classification.
  by apply (final_fold_chronological positions Hchron Hnz positions [] []).
Qed.

(** ** The claims about the standings *)

(** C3 (the code departs from the claim).  The claim: the position that
    scores a driver is the position of the driver's chronologically latest
    sample, whatever the order of the records.  On [shuffled_samples] the loop
    of [finalPositions] ends with position 1 for car 1, while the latest
    sample of car 1 (date 4000) shows position 2: the date that the fourth
    record is compared with is the date of the first record that shows
    position 2, not the date of the record that was kept. *)
Theorem final_position_not_latest :
  JsMap.get (finalPositions shuffled_samples) 1 = Some 1
  /\ final_classification shuffled_samples 1 = Some 2.
Proof. split; reflexivity. Qed.




(** C10.  Position samples of a car without a driver record in the session
    score nothing: the standings are those of the season with these samples
    removed (so neither the driver nor a constructor gains points, wins or
    podiums from them, and nothing fails), and a car that has no driver
    record in any race session of the season is not in the drivers table
    (of any implementation of [sort] that keeps the elements). *)
Theorem unmatched_samples_score_nothing (sort : engine_sort) (api : Api) (year n : Z) :
  getChampionshipStandings sort api year
  = getChampionshipStandings sort (drop_unmatched n api) year
  /\ forall sessions r,
       permuting sort ->
       getSessions api year = Some sessions ->
       never_recorded api sessions n = true ->
       getChampionshipStandings sort api year = Some r ->
       n ∉ List.map DriverStanding.driver_number (ChampionshipData.drivers r).
Proof.
  split.
  - unfold getChampionshipStandings. simpl.
    destruct (getSessions api year) as [sessions|]; [|done].
    by rewrite (season_stats_ext api (drop_unmatched n api))
      by (intros; apply process_session_drop_unmatched).
  - intros sessions r Hperm Hs Hnever Hr Hin.
    unfold getChampionshipStandings in Hr. rewrite Hs in Hr. injection Hr as <-.
    simpl in Hin. rewrite driverStandings_ranked in Hin.
    rewrite ranked_perm in Hin by done.
    unfold driver_rows in Hin. rewrite map_map in Hin.
    assert (Hkeys : n ∈ List.map fst (driverStats (season_stats api sessions))).
    { rewrite (map_ext _ fst) in Hin by (by intros [k v]). exact Hin. }
    apply season_stats_driver_keys in Hkeys as (s & ds & d & Hsin & Hrace & Hds & Hd & Hn).
    unfold never_recorded in Hnever. rewrite forallb_forall in Hnever.
    specialize (Hnever s). rewrite Hds in Hnever.
    assert (Hex : existsb (fun d => Driver.driver_number d =? n) ds = true).
    { apply existsb_exists. exists d. split; [by apply list_elem_of_In|by apply Z.eqb_eq]. }
    rewrite Hex in Hnever. discriminate Hnever.
    apply filter_In. split; [by apply list_elem_of_In|done].
Qed.

Lemma unmatched_samples_score_nothing_witness :
  permuting stable_sort
  /\ getSessions sample_api 2024 = Some sample_sessions
  /\ never_recorded sample_api sample_sessions 4 = true
  /\ getChampionshipStandings stable_sort sample_api 2024 = Some sample_standings
  /\ 4 ∉ List.map DriverStanding.driver_number (ChampionshipData.drivers sample_standings).
Proof.
  assert (H1 : getSessions sample_api 2024 = Some sample_sessions) by reflexivity.
  assert (H2 : never_recorded sample_api sample_sessions 4 = true) by reflexivity.
  assert (H3 : getChampionshipStandings stable_sort sample_api 2024
               = Some sample_standings) by (vm_compute; reflexivity).
  split; [exact stable_sort_permuting|].
  split; [exact H1|]. split; [exact H2|]. split; [exact H3|].
  exact (proj2 (unmatched_samples_score_nothing stable_sort sample_api 2024 4)
           sample_sessions sample_standings stable_sort_permuting H1 H2 H3).
Defined.

(* ===================================================================== *)
(** * Properties of the replay timeline *)
(* ===================================================================== *)

#[local] Arguments chart_position : simpl never.
#[local] Arguments apply_completion : simpl never.
#[local] Arguments frame_at : simpl never.


Lemma filter_Boolean_cons {A : Type} (o : option A) (l : list (option A)) :
  filter_Boolean (o :: l)
  = match o with
    | Some x => x :: filter_Boolean l
    | None => filter_Boolean l
    end.
Proof. by destruct o. Qed.

Section ReplayFacts.
Context (now0 now1 : Z).
Context (drivers : list Driver.t) (positions : list Position.t) (laps : list Lap.t).
Context (qualifyingPositions : gmap Z Z) (raceControl : list RaceControl.t).

Local Abbreviation finishing := (finishingDrivers drivers laps).
Local Abbreviation completions :=
  (allLapCompletions drivers positions laps qualifyingPositions).
Local Abbreviation frame :=
  (frame_at now0 now1 drivers positions laps qualifyingPositions raceControl).
Local Abbreviation loop :=
  (frame_loop now0 now1 drivers positions laps qualifyingPositions raceControl).
Local Abbreviation frames :=
  (processRaceData now0 now1 drivers positions laps qualifyingPositions raceControl).
Local Abbreviation time :=
  (currentTime now0 now1 drivers positions laps qualifyingPositions).
Local Abbreviation advance :=
  (advance_states drivers positions laps qualifyingPositions).
Local Abbreviation covers := (covered drivers laps).
Local Abbreviation known :=
  (position_known drivers positions laps qualifyingPositions).
Local Abbreviation built := (built_from positions qualifyingPositions).

Implicit Types (states : list (Z * DriverState.t)) (n : Z).

(** ** The frame and the loop, unfolded once *)

Lemma frame_at_eq states (i : Z) :
  frame states i
  = let r := map_chart_positions laps (time i) (globalProgress laps i)
               (advance (time i) states) finishing in
    (r.1,
     PositionChartData.mk (time_clip (time i))
       (fold_right Z.max 1 (List.map (fun e => DriverState.lap_number e.2) r.1))
       (maxLap laps)
       (js_sort (fun a b => ChartPosition.position a - ChartPosition.position b)
          (filter_Boolean r.2))
       (currentFlags raceControl (time i))).
Proof. unfold frame_at. by destruct (map_chart_positions _ _ _ _ _). Qed.

Lemma loop_cons states (i : Z) (indices : list Z) :
  loop states (i :: indices) = (frame states i).2 :: loop (frame states i).1 indices.
Proof. simpl. by destruct (frame_at _ _ _ _ _ _ _ _ _). Qed.

(** An invariant [I] of the states and a relation [Q] between the loop index
    and the frame built for it. *)
Lemma loop_Forall2 (I : list (Z * DriverState.t) -> Prop)
    (Q : Z -> PositionChartData.t -> Prop) states (indices : list Z) :
  (forall st i, I st -> I (frame st i).1 /\ Q i (frame st i).2) ->
  I states -> Forall2 Q indices (loop states indices).
Proof.
  intros Hstep. revert states. induction indices as [|i indices IH]; intros states HI.
  - constructor.
  - rewrite loop_cons. destruct (Hstep states i HI) as [HI' HQ].
    constructor; [done|]. by apply IH.
Qed.

Lemma loop_length states (indices : list Z) :
  List.length (loop states indices) = List.length indices.
Proof.
  symmetry. eapply Forall2_length.
  by apply (loop_Forall2 (fun _ => True) (fun _ _ => True)).
Qed.

Lemma loop_Forall (I : list (Z * DriverState.t) -> Prop)
    (P : PositionChartData.t -> Prop) states (indices : list Z) :
  (forall st i, I st -> I (frame st i).1 /\ P (frame st i).2) ->
  I states -> Forall P (loop states indices).
Proof.
  intros Hstep. revert states. induction indices as [|i indices IH]; intros states HI.
  - constructor.
  - rewrite loop_cons. destruct (Hstep states i HI) as [HI' HP].
    constructor; [done|]. by apply IH.
Qed.

(** ** The keys of the states never change *)

Lemma keys_apply_completion (now : Q) states (c : LapCompletion.t) :
  List.map fst (apply_completion laps now states c) = List.map fst states.
Proof.
  unfold apply_completion. destruct (Qle_bool _ _); [|done].
  destruct (JsMap.get states _) eqn:Hg; [|done].
  destruct (_ >? _); [|done].
  rewrite keys_set. unfold JsMap.has. by rewrite Hg.
Qed.

Lemma keys_advance (now : Q) states :
  List.map fst (advance now states) = List.map fst states.
Proof.
  unfold advance_states. revert states.
  induction completions as [|c l IH]; intros states; simpl; [done|].
  by rewrite IH, keys_apply_completion.
Qed.

Lemma keys_chart_position (now global : Q) states (d : Driver.t) :
  List.map fst (chart_position laps now global states d).1 = List.map fst states.
Proof.
  unfold chart_position. destruct (JsMap.get states _) eqn:Hg; [|done]. simpl.
  rewrite keys_set. unfold JsMap.has. by rewrite Hg.
Qed.

Lemma map_chart_positions_cons (now global : Q) states (d : Driver.t) (ds : list Driver.t) :
  map_chart_positions laps now global states (d :: ds)
  = let r1 := chart_position laps now global states d in
    let r2 := map_chart_positions laps now global r1.1 ds in
    (r2.1, r1.2 :: r2.2).
Proof.
  simpl. destruct (chart_position _ _ _ _ _) as [states1 entry]. simpl.
  by destruct (map_chart_positions _ _ _ _ _).
Qed.

Lemma keys_map_chart_positions (now global : Q) states (ds : list Driver.t) :
  List.map fst (map_chart_positions laps now global states ds).1 = List.map fst states.
Proof.
  revert states. induction ds as [|d ds IH]; intros states; [done|].
  rewrite map_chart_positions_cons. simpl. by rewrite IH, keys_chart_position.
Qed.

Lemma keys_frame states (i : Z) :
  List.map fst (frame states i).1 = List.map fst states.
Proof.
  rewrite frame_at_eq. simpl. by rewrite keys_map_chart_positions, keys_advance.
Qed.

Lemma keys_initial_states (d : Driver.t) :
  d ∈ finishing ->
  Driver.driver_number d
  ∈ List.map fst (initial_states drivers laps qualifyingPositions).
Proof.
  unfold initial_states.
  assert (Hgen : forall ds acc,
    (d ∈ ds \/ Driver.driver_number d ∈ List.map fst acc) ->
    Driver.driver_number d
    ∈ List.map fst
        (fold_left (fun states driver =>
             JsMap.set states (Driver.driver_number driver)
               (DriverState.mk
                  (grid_position qualifyingPositions (Driver.driver_number driver))
                  0 0%Q 0 false 0%Q))
           ds acc)).
  { induction ds as [|d' ds IH]; intros acc [Hd|Hd]; simpl.
    - by apply elem_of_nil in Hd.
    - done.
    - apply IH. apply elem_of_cons in Hd as [->|Hd]; [right|by left].
      rewrite keys_set. destruct (JsMap.has _ _) eqn:Hh.
      + unfold JsMap.has in Hh. destruct (JsMap.get acc _) eqn:Hg; [|done].
        apply get_Some_elem_of in Hg.
        apply list_elem_of_In, in_map_iff. eexists. split; [|by apply list_elem_of_In].
        done.
      + apply elem_of_app. right. left.
    - apply IH. right. rewrite keys_set.
      destruct (JsMap.has _ _); [done|]. apply elem_of_app. by left. }
  intros Hd. apply Hgen. by left.
Qed.

Lemma covered_initial : covers (initial_states drivers laps qualifyingPositions).
Proof. intros d. apply keys_initial_states. Qed.

Lemma covered_frame states (i : Z) : covers states -> covers (frame states i).1.
Proof. unfold covered. by rewrite keys_frame. Qed.

(** ** Who is in a frame *)

Lemma chart_position_entry (now global : Q) states (d : Driver.t) :
  Driver.driver_number d ∈ List.map fst states ->
  exists e,
    (chart_position laps now global states d).2 = Some e
    /\ ChartPosition.driver_number e = Driver.driver_number d.
Proof.
  intros Hk. unfold chart_position.
  destruct (JsMap.get states _) eqn:Hg.
  - eexists. split; [done|]. done.
  - apply get_None_keys in Hg. by destruct Hg.
Qed.

Lemma map_chart_positions_numbers (now global : Q) states (ds : list Driver.t) :
  (forall d, d ∈ ds -> Driver.driver_number d ∈ List.map fst states) ->
  List.map ChartPosition.driver_number
    (filter_Boolean (map_chart_positions laps now global states ds).2)
  = List.map Driver.driver_number ds.
Proof.
  revert states. induction ds as [|d ds IH]; intros states Hcov; [done|].
  rewrite map_chart_positions_cons. cbv zeta. cbn [fst snd].
  destruct (chart_position_entry now global states d) as (e & -> & He);
    [apply Hcov; left|].
  rewrite filter_Boolean_cons. cbn [List.map]. rewrite He. f_equal.
  apply IH. intros d' Hd'. rewrite keys_chart_position. apply Hcov. by right.
Qed.

Lemma frame_numbers states (i : Z) :
  covers states ->
  List.map ChartPosition.driver_number (PositionChartData.positions (frame states i).2)
  ≡ₚ List.map Driver.driver_number finishing.
Proof.
  intros Hcov. rewrite frame_at_eq. simpl.
  rewrite <- (map_chart_positions_numbers (time i) (globalProgress laps i)
                (advance (time i) states) finishing).
  - apply Permutation_map, js_sort_perm.
  - intros d Hd. rewrite keys_advance. by apply Hcov.
Qed.

Lemma frames_numbers (f : PositionChartData.t) :
  f ∈ frames ->
  List.map ChartPosition.driver_number (PositionChartData.positions f)
  ≡ₚ List.map Driver.driver_number finishing.
Proof.
  revert f. apply Forall_forall. unfold processRaceData.
  apply (loop_Forall covers); [|apply covered_initial].
  intros st i Hst. split; [by apply covered_frame|by apply frame_numbers].
Qed.

Lemma frames_sorted (f : PositionChartData.t) :
  f ∈ frames ->
  StronglySorted Z.le
    (List.map ChartPosition.position (PositionChartData.positions f)).
Proof.
  revert f. apply Forall_forall. unfold processRaceData.
  apply (loop_Forall (fun _ => True)); [|done].
  intros st i _. split; [done|]. rewrite frame_at_eq. simpl.
  apply (StronglySorted_fmap ChartPosition.position
           (fun a b => ChartPosition.position a <= ChartPosition.position b));
    [done|].
  apply js_sort_sorted with (ok := fun _ => True); intros; try lia.
  apply Forall_forall. by intros.
Qed.

(** ** The time grid *)

Lemma maxLap_ge_1 : 1 <= maxLap laps.
Proof.
  unfold maxLap. induction (List.map Lap.lap_number laps) as [|x l IH]; simpl; lia.
Qed.

Lemma timeIntervals_ge_2 : 2 <= timeIntervals laps.
Proof. unfold timeIntervals. pose proof maxLap_ge_1. lia. Qed.


Lemma frames_length : List.length frames = (Z.to_nat (timeIntervals laps) + 1)%nat.
Proof.
  unfold processRaceData. rewrite loop_length, length_seqZ.
  pose proof timeIntervals_ge_2. lia.
Qed.

Lemma frames_timestamps :
  Forall2 (fun i f => PositionChartData.timestamp f = time_clip (time i))
    (seqZ 0 (timeIntervals laps + 1)) frames.
Proof.
  unfold processRaceData. apply (loop_Forall2 (fun _ => True)); [|done].
  intros st i _. split; [done|]. by rewrite frame_at_eq.
Qed.


Lemma frames_timestamps_map :
  List.map PositionChartData.timestamp frames
  = List.map (fun i => time_clip (time i)) (seqZ 0 (timeIntervals laps + 1)).
Proof.
  pose proof frames_timestamps as H.
  induction H as [|i f l l' Hf _ IH]; simpl; [done|]. by rewrite Hf, IH.
Qed.


Lemma timeStep_nonneg :
  startTime now0 drivers positions laps qualifyingPositions
  <= endTime now1 drivers positions laps qualifyingPositions ->
  (0 <= timeStep now0 now1 drivers positions laps qualifyingPositions)%Q.
Proof.
  intros Hse. unfold timeStep, double_div, double_sub. pose proof timeIntervals_ge_2 as Hn.
  apply round_double_nonneg. apply Qle_shift_div_l.
  - change 0%Q with (inject_Z 0). rewrite <- Zlt_Qlt. lia.
  - rewrite Qmult_0_l. apply round_double_nonneg.
    unfold Qminus. rewrite <- inject_Z_opp, <- inject_Z_plus.
    change 0%Q with (inject_Z 0). rewrite <- Zle_Qle. lia.
Qed.

(** The frame times never decrease when the window is not reversed: every
    rounding keeps the order. *)
Lemma time_nondecreasing (i j : Z) :
  startTime now0 drivers positions laps qualifyingPositions
  <= endTime now1 drivers positions laps qualifyingPositions ->
  i <= j -> (time i <= time j)%Q.
Proof.
  intros Hse Hij. unfold currentTime, double_add, double_mul.
  apply round_double_mono, Qplus_le_r, round_double_mono.
  apply Qmult_le_compat_r; [by rewrite <- Zle_Qle|by apply timeStep_nonneg].
Qed.


(** When the window is a multiple of the number of intervals, no operation
    rounds and the last frame is at [endTime]. *)
Lemma time_last_exact :
  let t0 := startTime now0 drivers positions laps qualifyingPositions in
  let t1 := endTime now1 drivers positions laps qualifyingPositions in
  (timeIntervals laps | t1 - t0) ->
  Z.abs t0 <= 2 ^ 53 -> Z.abs t1 <= 2 ^ 53 -> Z.abs (t1 - t0) <= 2 ^ 53 ->
  (time (timeIntervals laps) == inject_Z t1)%Q.
Proof.
  intros t0 t1 [q Hq] H0 H1 HD. pose proof timeIntervals_ge_2 as Hn.
  unfold currentTime, timeStep, double_add, double_mul, double_div, double_sub.
  fold t0 t1. set (n := timeIntervals laps) in *.
  assert (Hq53 : Z.abs q <= 2 ^ 53) by nia.
  assert (Hd : (round_double (inject_Z t1 - inject_Z t0) == inject_Z (t1 - t0))%Q).
  { unfold Qminus. rewrite <- inject_Z_opp, <- inject_Z_plus.
    apply round_double_Z. change (t1 + - t0) with (t1 - t0). lia. }
  assert (Hx : (inject_Z (t1 - t0) / inject_Z n == inject_Z q)%Q).
  { rewrite Hq, inject_Z_mult. field.
    change 0%Q with (inject_Z 0). rewrite inject_Z_injective. lia. }
  assert (Hstep : (round_double (round_double (inject_Z t1 - inject_Z t0) / inject_Z n)
                   == inject_Z q)%Q).
  { rewrite Hd, Hx. by apply round_double_Z. }
  assert (Hmul : (round_double (inject_Z n * inject_Z q) == inject_Z (t1 - t0))%Q).
  { rewrite <- inject_Z_mult, Z.mul_comm, <- Hq. by apply round_double_Z. }
  rewrite Hstep, Hmul, <- inject_Z_plus.
  replace (t0 + (t1 - t0)) with t1 by lia. by apply round_double_Z.
Qed.


Lemma completions_sorted :
  StronglySorted Z.le (List.map LapCompletion.timestamp completions).
Proof.
  unfold allLapCompletions.
  apply (StronglySorted_fmap LapCompletion.timestamp
           (fun a b => LapCompletion.timestamp a <= LapCompletion.timestamp b));
    [done|].
  apply js_sort_sorted with (ok := fun _ => True); intros; try lia.
  apply Forall_forall. by intros.
Qed.

(** ** Progress *)

Lemma baseline_apply_completion (now : Q) states (c : LapCompletion.t) n :
  baseline_of (apply_completion laps now states c) n = baseline_of states n.
Proof.
  unfold apply_completion. destruct (Qle_bool _ _); [|done].
  destruct (JsMap.get states _) eqn:Hg; [|done].
  destruct (_ >? _); [|done]. unfold baseline_of.
  destruct (decide (LapCompletion.driver_number c = n)) as [<-|Hne].
  - by rewrite get_set_eq, Hg.
  - by rewrite get_set_ne.
Qed.

Lemma baseline_advance (now : Q) states n :
  baseline_of (advance now states) n = baseline_of states n.
Proof.
  unfold advance_states. revert states.
  induction completions as [|c l IH]; intros states; simpl; [done|].
  by rewrite IH, baseline_apply_completion.
Qed.

Lemma baseline_chart_position (now global : Q) states (d : Driver.t) n :
  (baseline_of states n <= baseline_of (chart_position laps now global states d).1 n)%Q.
Proof.
  unfold chart_position. destruct (JsMap.get states _) eqn:Hg; simpl; [|apply Qle_refl].
  unfold baseline_of. destruct (decide (Driver.driver_number d = n)) as [<-|Hne].
  - rewrite get_set_eq, Hg. simpl. apply Q.le_max_l.
  - rewrite get_set_ne by done. apply Qle_refl.
Qed.

Lemma progress_chart_position (now global : Q) states (d : Driver.t) (e : ChartPosition.t) :
  (chart_position laps now global states d).2 = Some e ->
  ChartPosition.progress e
  = Qmax (baseline_of (chart_position laps now global states d).1
            (ChartPosition.driver_number e))
      (1 # 100).
Proof.
  unfold chart_position. destruct (JsMap.get states _) eqn:Hg; simpl; [|done].
  intros [= <-]. simpl. unfold baseline_of. by rewrite get_set_eq.
Qed.

Lemma progress_map_chart_positions (now global : Q) states (ds : list Driver.t) :
  let r := map_chart_positions laps now global states ds in
  (forall n, (baseline_of states n <= baseline_of r.1 n)%Q)
  /\ Forall (fun e =>
        (Qmax (baseline_of states (ChartPosition.driver_number e)) (1 # 100)
         <= ChartPosition.progress e)%Q
        /\ (ChartPosition.progress e
            <= Qmax (baseline_of r.1 (ChartPosition.driver_number e)) (1 # 100))%Q)
       (filter_Boolean r.2).
Proof.
  revert states. induction ds as [|d ds IH]; intros states.
  - simpl. split; [intros; apply Qle_refl|constructor].
  - rewrite map_chart_positions_cons. cbv zeta. cbn [fst snd].
    pose proof (baseline_chart_position now global states d) as Hd.
    pose proof (progress_chart_position now global states d) as He.
    destruct (chart_position laps now global states d) as [states1 entry].
    cbn [fst snd] in *.
    destruct (IH states1) as [Hmono Hrest].
    split; [intros n; eapply Qle_trans; [apply Hd|apply Hmono]|].
    rewrite filter_Boolean_cons. destruct entry as [e|].
    + constructor.
      * rewrite (He e eq_refl). split.
        -- apply Q.max_le_compat_r, Hd.
        -- apply Q.max_le_compat_r, Hmono.
      * eapply Forall_impl; [exact Hrest|]. intros e' [Hlo Hhi]. split; [|done].
        eapply Qle_trans; [|exact Hlo]. apply Q.max_le_compat_r, Hd.
    + eapply Forall_impl; [exact Hrest|]. intros e' [Hlo Hhi]. split; [|done].
      eapply Qle_trans; [|exact Hlo]. apply Q.max_le_compat_r, Hd.
Qed.

Lemma progress_frame states (i : Z) :
  (forall n, (baseline_of states n <= baseline_of (frame states i).1 n)%Q)
  /\ forall e, e ∈ PositionChartData.positions (frame states i).2 ->
       (Qmax (baseline_of states (ChartPosition.driver_number e)) (1 # 100)
        <= ChartPosition.progress e)%Q
       /\ (ChartPosition.progress e
           <= Qmax (baseline_of (frame states i).1 (ChartPosition.driver_number e))
                (1 # 100))%Q.
Proof.
  rewrite frame_at_eq. cbv zeta. cbn [fst snd PositionChartData.positions].
  destruct (progress_map_chart_positions (time i) (globalProgress laps i)
              (advance (time i) states) finishing) as [Hmono Hent].
  cbv zeta in Hmono, Hent. split.
  - intros n. rewrite <- (baseline_advance (time i) states n). apply Hmono.
  - intros e He%elem_of_js_sort. rewrite Forall_forall in Hent.
    rewrite <- (baseline_advance (time i) states). by apply Hent.
Qed.

Lemma loop_progress states (indices : list Z) (k : nat)
    (f g : PositionChartData.t) (a b : ChartPosition.t) :
  loop states indices !! k = Some f ->
  loop states indices !! S k = Some g ->
  a ∈ PositionChartData.positions f ->
  b ∈ PositionChartData.positions g ->
  ChartPosition.driver_number a = ChartPosition.driver_number b ->
  (ChartPosition.progress a <= ChartPosition.progress b)%Q.
Proof.
  revert states k. induction indices as [|i indices IH]; intros states k; [done|].
  rewrite loop_cons. destruct k as [|k]; simpl.
  - intros [= <-] Hg Ha Hb Hab. destruct indices as [|j indices]; [done|].
    rewrite loop_cons in Hg. injection Hg as <-.
    destruct (progress_frame states i) as [_ Hf].
    destruct (progress_frame (frame states i).1 j) as [_ Hg].
    destruct (Hf a Ha) as [_ Hhi]. destruct (Hg b Hb) as [Hlo _].
    rewrite Hab in Hhi. eapply Qle_trans; [exact Hhi|exact Hlo].
  - apply IH.
Qed.

Lemma loop_progress_floor states (indices : list Z) (f : PositionChartData.t)
    (a : ChartPosition.t) :
  f ∈ loop states indices ->
  a ∈ PositionChartData.positions f ->
  (1 # 100 <= ChartPosition.progress a)%Q.
Proof.
  revert f a. 
  assert (H : Forall (fun f => forall a, a ∈ PositionChartData.positions f ->
                        (1 # 100 <= ChartPosition.progress a)%Q)
                (loop states indices)).
  { apply (loop_Forall (fun _ => True)); [|done].
    intros st i _. split; [done|]. intros e He.
    destruct (progress_frame st i) as [_ Hb]. destruct (Hb e He) as [Hlo _].
    eapply Qle_trans; [|exact Hlo]. apply Q.le_max_r. }
  rewrite Forall_forall in H. intros f a Hf. by apply H.
Qed.

(** ** Where the position of an entry comes from *)

Lemma known_initial : Forall known (initial_states drivers laps qualifyingPositions).
Proof.
  unfold initial_states.
  assert (Hgen : forall ds acc, Forall known acc ->
    Forall known
      (fold_left (fun states driver =>
           JsMap.set states (Driver.driver_number driver)
             (DriverState.mk
                (grid_position qualifyingPositions (Driver.driver_number driver))
                0 0%Q 0 false 0%Q))
         ds acc)).
  { induction ds as [|d ds IH]; intros acc Hacc; simpl; [done|].
    apply IH, Forall_set; [done|]. by left. }
  by apply Hgen.
Qed.

Lemma known_apply_completion (now : Q) states (c : LapCompletion.t) :
  c ∈ completions -> Forall known states ->
  Forall known (apply_completion laps now states c).
Proof.
  intros Hc Hst. unfold apply_completion. destruct (Qle_bool _ _); [|done].
  destruct (JsMap.get states _) eqn:Hg; [|done].
  destruct (_ >? _); [|done].
  apply Forall_set; [done|]. right. by exists c.
Qed.

Lemma known_advance (now : Q) states :
  Forall known states -> Forall known (advance now states).
Proof.
  unfold advance_states.
  assert (Hgen : forall l, (forall c, c ∈ l -> c ∈ completions) ->
    forall st, Forall known st ->
      Forall known (fold_left (apply_completion laps now) l st)).
  { induction l as [|c l IH]; intros Hl st Hst; simpl; [done|].
    apply IH; [intros c' Hc'; apply Hl; by right|].
    apply known_apply_completion; [apply Hl; left|done]. }
  by apply Hgen.
Qed.

Lemma known_chart_position (now global : Q) states (d : Driver.t) :
  Forall known states ->
  Forall known (chart_position laps now global states d).1
  /\ forall e, (chart_position laps now global states d).2 = Some e ->
       known
         (ChartPosition.driver_number e,
          DriverState.mk (ChartPosition.position e) 0 0%Q 0 false 0%Q).
Proof.
  intros Hst. unfold chart_position.
  destruct (JsMap.get states _) eqn:Hg; simpl; [|done].
  apply get_Some_elem_of in Hg. rewrite Forall_forall in Hst.
  pose proof (Hst _ Hg) as Hk. split.
  - apply Forall_set; [by apply Forall_forall|]. exact Hk.
  - intros e [= <-]. exact Hk.
Qed.

Lemma known_map_chart_positions (now global : Q) states (ds : list Driver.t) :
  Forall known states ->
  Forall known (map_chart_positions laps now global states ds).1
  /\ Forall (fun e =>
        known
          (ChartPosition.driver_number e,
           DriverState.mk (ChartPosition.position e) 0 0%Q 0 false 0%Q))
       (filter_Boolean (map_chart_positions laps now global states ds).2).
Proof.
  revert states. induction ds as [|d ds IH]; intros states Hst.
  - simpl. split; [done|constructor].
  - rewrite map_chart_positions_cons. cbv zeta. cbn [fst snd].
    destruct (known_chart_position now global states d Hst) as [Hst1 He].
    destruct (chart_position laps now global states d) as [states1 entry].
    cbn [fst snd] in *. destruct (IH states1 Hst1) as [Hst2 Hrest].
    split; [done|]. rewrite filter_Boolean_cons.
    destruct entry as [e|]; [|done]. constructor; [by apply He|done].
Qed.

Lemma frames_positions_known (f : PositionChartData.t) (e : ChartPosition.t) :
  f ∈ frames -> e ∈ PositionChartData.positions f ->
  ChartPosition.position e
  = grid_position qualifyingPositions (ChartPosition.driver_number e)
  \/ exists c, c ∈ completions
       /\ LapCompletion.driver_number c = ChartPosition.driver_number e
       /\ LapCompletion.position c = ChartPosition.position e.
Proof.
  revert f e.
  assert (H : Forall (fun f => forall e, e ∈ PositionChartData.positions f ->
      known
        (ChartPosition.driver_number e,
         DriverState.mk (ChartPosition.position e) 0 0%Q 0 false 0%Q))
    frames).
  { unfold processRaceData.
    apply (loop_Forall (Forall known)); [|apply known_initial].
    intros st i Hst. rewrite frame_at_eq. cbv zeta. cbn [fst snd PositionChartData.positions].
    destruct (known_map_chart_positions (time i) (globalProgress laps i)
                (advance (time i) st) finishing (known_advance (time i) st Hst))
      as [Hst' Hent].
    split; [done|]. intros e He%elem_of_js_sort.
    rewrite Forall_forall in Hent. by apply Hent. }
  rewrite Forall_forall in H. intros f e Hf He. exact (H f Hf e He).
Qed.

(** ** Where a lap completion comes from *)

Lemma push_completions_elem (d : Driver.t) (cumulativeTime : Q) (ls : list Lap.t)
    (c : LapCompletion.t) :
  c ∈ push_completions positions qualifyingPositions d cumulativeTime ls ->
  exists lap, lap ∈ ls /\ built c d lap.
Proof.
  revert cumulativeTime. induction ls as [|lap ls IH]; intros cumulativeTime; simpl.
  - by intros ?%elem_of_nil.
  - intros [->|Hc]%elem_of_cons.
    + exists lap. split; [left|done].
    + destruct (IH _ Hc) as (lap' & Hlap' & Hb). exists lap'. split; [by right|done].
Qed.

Lemma push_completions_lap (d : Driver.t) (cumulativeTime : Q) (ls : list Lap.t)
    (lap : Lap.t) :
  lap ∈ ls ->
  exists c, c ∈ push_completions positions qualifyingPositions d cumulativeTime ls
            /\ built c d lap.
Proof.
  revert cumulativeTime. induction ls as [|lap' ls IH]; intros cumulativeTime; simpl.
  - by intros ?%elem_of_nil.
  - intros [->|Hl]%elem_of_cons.
    + eexists. split; [left|done].
    + destruct (IH (cumulativeTime + default 0 (Lap.lap_duration lap'))%Q Hl)
        as (c & Hc & Hb).
      exists c. split; [by right|done].
Qed.

Lemma elem_of_driverLaps (d : Driver.t) (lap : Lap.t) :
  lap ∈ driverLaps laps d
  ↔ lap ∈ laps /\ Lap.driver_number lap = Driver.driver_number d
    /\ is_some (Lap.lap_duration lap) = true.
Proof.
  unfold driverLaps. rewrite elem_of_js_sort, list_elem_of_In, filter_In.
  rewrite andb_true_iff, Z.eqb_eq, <- list_elem_of_In. tauto.
Qed.

Lemma elem_of_completions (c : LapCompletion.t) :
  c ∈ completions
  ↔ exists d, d ∈ finishing
      /\ c ∈ driver_completions positions laps qualifyingPositions d.
Proof.
  unfold allLapCompletions. rewrite elem_of_js_sort, list_elem_of_In, in_flat_map.
  split; intros (d & Hd & Hc); exists d; by rewrite ?list_elem_of_In in *.
Qed.

Lemma grid_position_value (n : Z) :
  grid_value qualifyingPositions n (grid_position qualifyingPositions n).
Proof.
  unfold grid_value, grid_position. split.
  - intros g -> Hg. simpl. by rewrite (proj2 (Z.eqb_neq _ _) Hg).
  - by intros [-> | ->].
Qed.

Lemma lap_position_attached (d : Driver.t) (lap : Lap.t) :
  attached positions qualifyingPositions (Driver.driver_number d) (Lap.date_start lap)
    (lap_position positions qualifyingPositions d lap).
Proof.
  unfold attached, lap_position, within_tolerance.
  set (matches := fun p : Position.t =>
    (Position.driver_number p =? Driver.driver_number d)
    && (Z.abs (Position.date p - Lap.date_start lap) <? 60000)).
  split.
  - intros pre p post -> Hn Ht Hpre.
    assert (Hfind : List.find matches (pre ++ p :: post) = Some p).
    { induction pre as [|x pre IH]; simpl.
      - unfold matches at 1. rewrite (proj2 (Z.eqb_eq _ _) Hn).
        by rewrite (proj2 (Z.ltb_lt _ _) Ht).
      - destruct (matches x) eqn:Hx.
        + apply andb_prop in Hx as [Hx1%Z.eqb_eq Hx2%Z.ltb_lt].
          destruct (Hpre x); [left|done..].
        + apply IH. intros p' Hp'. apply Hpre. by right. }
    rewrite Hfind. simpl. split.
    + intros Hp0. by rewrite (proj2 (Z.eqb_neq _ _) Hp0).
    + intros ->. simpl. apply grid_position_value.
  - intros Hnone.
    assert (Hfind : List.find matches positions = None).
    { apply find_none_iff. intros p Hp. unfold matches.
      destruct (Position.driver_number p =? _) eqn:Hn; [|done]. simpl.
      apply Z.ltb_ge. apply Z.eqb_eq in Hn.
      specialize (Hnone p Hp Hn). lia. }
    rewrite Hfind. simpl. apply grid_position_value.
Qed.

(** ** The claims about the replay timeline *)

(** C1 (amended).  In every frame the entries stand in ascending order of
    [position], one entry for each finishing driver; the position of an
    entry is the one its driver's state carries: the grid position of the
    car ([qualifyingPositions[n] || n]) or the position attached to one of
    the car's lap completions.  The values need not be 1..N, nor distinct. *)
Theorem frame_positions_ascending (f : PositionChartData.t) :
  f ∈ frames ->
  StronglySorted Z.le (List.map ChartPosition.position (PositionChartData.positions f))
  /\ List.length (PositionChartData.positions f) = List.length finishing
  /\ forall e, e ∈ PositionChartData.positions f ->
       ChartPosition.position e
       = grid_position qualifyingPositions (ChartPosition.driver_number e)
       \/ exists c, c ∈ completions
            /\ LapCompletion.driver_number c = ChartPosition.driver_number e
            /\ LapCompletion.position c = ChartPosition.position e.
Proof.
  intros Hf. split; [by apply frames_sorted|]. split.
  - rewrite <- (length_map ChartPosition.driver_number), (frames_numbers f Hf).
    by rewrite length_map.
  - intros e He. by apply (frames_positions_known f e).
Qed.

(** C2.  Between a frame and the next one, the progress of a driver does not
    decrease; and the progress of every entry of every frame is at least
    0.01. *)
Theorem progress_never_decreases :
  (forall (i : nat) (f g : PositionChartData.t) (a b : ChartPosition.t),
      frames !! i = Some f -> frames !! S i = Some g ->
      a ∈ PositionChartData.positions f -> b ∈ PositionChartData.positions g ->
      ChartPosition.driver_number a = ChartPosition.driver_number b ->
      (ChartPosition.progress a <= ChartPosition.progress b)%Q)
  /\ (forall (f : PositionChartData.t) (a : ChartPosition.t),
        f ∈ frames -> a ∈ PositionChartData.positions f ->
        (1 # 100 <= ChartPosition.progress a)%Q).
Proof.
  split.
  - intros i f g a b. apply loop_progress.
  - intros f a. apply loop_progress_floor.
Qed.


(** C7 (amended).  The lap completions are the laps with a duration of the
    finishing drivers, and the position attached to a completion is the
    position of the first sample of the car, in the order of the records,
    within 60 seconds of the start of the lap, when that position is not 0;
    the grid position of the car when that position is 0 and when no sample
    is that near; the number of the car when the grid has no position for it
    (or the position 0). *)
Theorem completion_position_first_sample :
  (forall c, c ∈ completions ->
     exists d lap,
       d ∈ finishing /\ lap ∈ laps
       /\ Lap.driver_number lap = Driver.driver_number d
       /\ is_some (Lap.lap_duration lap) = true
       /\ LapCompletion.timestamp c = Lap.date_start lap
       /\ LapCompletion.driver_number c = Driver.driver_number d
       /\ LapCompletion.lap_number c = Lap.lap_number lap
       /\ attached positions qualifyingPositions
            (Driver.driver_number d) (Lap.date_start lap) (LapCompletion.position c))
  /\ (forall d lap,
        d ∈ finishing -> lap ∈ laps ->
        Lap.driver_number lap = Driver.driver_number d ->
        is_some (Lap.lap_duration lap) = true ->
        exists c,
          c ∈ completions
          /\ LapCompletion.timestamp c = Lap.date_start lap
          /\ LapCompletion.driver_number c = Driver.driver_number d
          /\ LapCompletion.lap_number c = Lap.lap_number lap
          /\ attached positions qualifyingPositions
               (Driver.driver_number d) (Lap.date_start lap) (LapCompletion.position c)).
Proof.
  split.
  - intros c (d & Hd & Hc)%elem_of_completions.
    apply push_completions_elem in Hc as (lap & Hlap & Hts & Hdn & Hln & Hpos).
    apply elem_of_driverLaps in Hlap as (Hin & Hn & Hdur).
    exists d, lap. repeat (split; [done|]).
    rewrite Hpos. apply lap_position_attached.
  - intros d lap Hd Hin Hn Hdur.
    assert (Hlap : lap ∈ driverLaps laps d) by by apply elem_of_driverLaps.
    destruct (push_completions_lap d 0%Q _ lap Hlap) as (c & Hc & Hts & Hdn & Hln & Hpos).
    exists c. split; [apply elem_of_completions; by exists d|].
    repeat (split; [done|]). rewrite Hpos. apply lap_position_attached.
Qed.

(** C8 (amended).  The driver numbers of a frame are, with their
    multiplicities, the numbers of the drivers that have more than three lap
    records (whether or not the records carry a duration): a car with three
    lap records is in no frame, a car of the drivers list with four is in
    every frame, and it is there once when the drivers list names it once. *)
Theorem eligible_drivers_in_frames (f : PositionChartData.t) :
  f ∈ frames ->
  List.map ChartPosition.driver_number (PositionChartData.positions f)
  ≡ₚ List.map Driver.driver_number
       (List.filter (fun d => (3 <? lap_records laps (Driver.driver_number d))%nat) drivers)
  /\ (forall n,
        n ∈ List.map ChartPosition.driver_number (PositionChartData.positions f)
        ↔ n ∈ List.map Driver.driver_number drivers /\ (3 < lap_records laps n)%nat)
  /\ (NoDup (List.map Driver.driver_number drivers) ->
      NoDup (List.map ChartPosition.driver_number (PositionChartData.positions f))).
Proof.
  intros Hf. pose proof (frames_numbers f Hf) as Hperm.
  split; [exact Hperm|]. split.
  - intros n. rewrite Hperm. unfold finishingDrivers.
    rewrite !list_elem_of_In, !in_map_iff. split.
    + intros (d & <- & [Hd Hlaps]%filter_In). split; [by exists d|].
      by apply Nat.ltb_lt.
    + intros [(d & <- & Hd) Hlaps]. exists d. split; [done|].
      apply filter_In. split; [done|]. by apply Nat.ltb_lt.
  - intros Hnd. rewrite Hperm. unfold finishingDrivers.
    clear Hperm Hf. induction drivers as [|d ds IH]; simpl; [constructor|].
    apply NoDup_cons in Hnd as [Hd Hnd].
    destruct (3 <? _)%nat; simpl; [|by apply IH].
    apply NoDup_cons. split; [|by apply IH].
    intros Hin. apply Hd. apply list_elem_of_In in Hin.
    apply in_map_iff in Hin as (d' & Heq & [Hd' _]%filter_In).
    apply list_elem_of_In, in_map_iff. by exists d'.
Qed.

End ReplayFacts.

(** ** Interpolation *)

(** C6 (amended).  At a ratio of 1 or more, [interpolateDriverPositions]
    returns the entries of the current frame as they are.  At ratio 0 it
    returns, for each entry of the current frame and in the order of the
    current frame, that entry with the progress of the previous frame's
    entry of the same car, with [interpolated_position] equal to that entry's
    position and with the change of position between the two frames; the
    other fields ([position], lap, pit and timing fields) stay those of the
    current frame, and an entry without a counterpart in the previous frame
    is returned unchanged. *)
Theorem interpolation_endpoints (prevFrame currentFrame : PositionChartData.t) :
  (forall prev ratio, (1 <= ratio)%Q ->
     interpolateDriverPositions prev currentFrame ratio
     = PositionChartData.positions currentFrame)
  /\ Forall2 (rewound (PositionChartData.positions prevFrame))
       (PositionChartData.positions currentFrame)
       (interpolateDriverPositions (Some prevFrame) currentFrame 0).
Proof.
  split.
  - intros prev ratio Hr. unfold interpolateDriverPositions.
    destruct prev; [|done]. by rewrite (proj2 (Qle_bool_iff 1 ratio) Hr).
  - unfold interpolateDriverPositions.
    change (Qle_bool 1 0) with false. cbv iota.
    induction (PositionChartData.positions currentFrame) as [|c l IH]; simpl;
      constructor; [|exact IH].
    unfold rewound. destruct (List.find _ _) as [p|]; [|done].
    unfold carries_fields_of, interpolate_driver. simpl.
    split; [by repeat split|]. split; [ring|].
    split; [|done]. eexists. split; [reflexivity|]. ring.
Qed.

Lemma interpolation_endpoints_witness :
  (1 <= 1)%Q
  /\ interpolateDriverPositions (Some (race_frame 2)) (race_frame 3) 1
     = PositionChartData.positions (race_frame 3).
Proof.
  assert (H : (1 <= 1)%Q) by apply Qle_refl.
  split; [exact H|].
  exact (proj1 (interpolation_endpoints (race_frame 2) (race_frame 3))
           (Some (race_frame 2)) 1%Q H).
Defined.

Lemma same_driver_state_laps (l1 l2 : list ChartPosition.t) :
  Forall2 same_driver_state l1 l2 ->
  List.map ChartPosition.current_lap_number l1
  = List.map ChartPosition.current_lap_number l2.
Proof.
  induction 1 as [|a b l1 l2 (_ & _ & _ & _ & _ & Hlap) _ IH]; simpl; [done|].
  by rewrite Hlap, IH.
Qed.

(** C6, as stated, fails between the frames 2 and 3 of the short race: at
    ratio 0 the first entry returned is on lap 2, the first entry of the
    previous frame on lap 1. *)
Lemma interpolation_keeps_current_fields :
  race_frames !! 2%nat = Some (race_frame 2)
  /\ race_frames !! 3%nat = Some (race_frame 3)
  /\ ~ Forall2 same_driver_state
         (interpolateDriverPositions (Some (race_frame 2)) (race_frame 3) 0)
         (PositionChartData.positions (race_frame 2)).
Proof.
  split; [by vm_compute|]. split; [by vm_compute|].
  intros H. apply same_driver_state_laps in H.
  vm_compute in H. discriminate H.
Qed.

(** ** The short race: witnesses and counterexamples *)

Lemma race_frame_elem (k : nat) : (k < 9)%nat -> race_frame k ∈ race_frames.
Proof.
  intros Hk. apply list_elem_of_In. unfold race_frame. apply nth_In.
  by vm_compute.
Qed.

Lemma frame_positions_ascending_witness :
  race_frame 0 ∈ race_frames
  /\ StronglySorted Z.le
       (List.map ChartPosition.position (PositionChartData.positions (race_frame 0)))
  /\ List.length (PositionChartData.positions (race_frame 0)) = 3%nat.
Proof.
  assert (H : race_frame 0 ∈ race_frames) by (apply race_frame_elem; lia).
  split; [exact H|].
  destruct (frame_positions_ascending 0 0 race_drivers race_positions race_laps
              race_grid [] (race_frame 0) H) as (Hs & Hl & _).
  split; [exact Hs|exact Hl].
Defined.

(** C1, as stated, fails on the short race: the three entries of its frames
    have the positions 1, 3 and 4. *)
Lemma frame_positions_not_dense :
  ~ (forall f, f ∈ race_frames -> dense_positions f).
Proof.
  intros H. specialize (H (race_frame 0) (race_frame_elem 0 ltac:(lia))).
  unfold dense_positions in H. vm_compute in H.
  apply (Permutation_in 4) in H; [|simpl; tauto].
  simpl in H. lia.
Qed.

Lemma progress_never_decreases_witness :
  race_frames !! 2%nat = Some (race_frame 2)
  /\ race_frames !! 3%nat = Some (race_frame 3)
  /\ race_entry 2 0 ∈ PositionChartData.positions (race_frame 2)
  /\ race_entry 3 0 ∈ PositionChartData.positions (race_frame 3)
  /\ ChartPosition.driver_number (race_entry 2 0)
     = ChartPosition.driver_number (race_entry 3 0)
  /\ (ChartPosition.progress (race_entry 2 0)
      <= ChartPosition.progress (race_entry 3 0))%Q.
Proof.
  assert (H2 : race_frames !! 2%nat = Some (race_frame 2)) by (by vm_compute).
  assert (H3 : race_frames !! 3%nat = Some (race_frame 3)) by (by vm_compute).
  assert (Ha : race_entry 2 0 ∈ PositionChartData.positions (race_frame 2)).
  { apply list_elem_of_lookup. exists 0%nat. by vm_compute. }
  assert (Hb : race_entry 3 0 ∈ PositionChartData.positions (race_frame 3)).
  { apply list_elem_of_lookup. exists 0%nat. by vm_compute. }
  assert (Hn : ChartPosition.driver_number (race_entry 2 0)
               = ChartPosition.driver_number (race_entry 3 0)) by reflexivity.
  repeat (split; [assumption|]).
  exact (proj1 (progress_never_decreases 0 0 race_drivers race_positions race_laps
                  race_grid [])
           2%nat (race_frame 2) (race_frame 3) (race_entry 2 0) (race_entry 3 0)
           H2 H3 Ha Hb Hn).
Defined.

(** The frame times of the long race are doubles: the last one is
    917509.9999999999, below the last lap completion, and the frame of the
    middle is stamped 458754 where the even grid has 458755. *)
Example long_race_stamps :
  List.map PositionChartData.timestamp long_race_frames
  = [0; 65536; 131072; 196609; 262145; 327682; 393218; 458754; 524291; 589827;
     655364; 720900; 786437; 851973; 917509]
  /\ (grid_time 0 917510 14 7 == 458755)%Q
  /\ (grid_time 0 917510 14 14 == 917510)%Q
  /\ (currentTime 0 0 [VER] race_positions long_race_laps race_grid 14
      == 917510 - (1 # 8589934592))%Q.
Proof. repeat (match goal with |- _ /\ _ => split end); by vm_compute. Qed.



(** A first sample within the tolerance that shows position 0 is passed
    over for the grid position, not for a later sample. *)
Example zero_sample_falls_to_grid :
  lap_position [Position.mk 10 44 0; Position.mk 20 44 5] race_grid HAM
    (timed_lap 44 1 0) = 3
  /\ lap_position [Position.mk 10 44 0; Position.mk 20 44 5] ∅ HAM
       (timed_lap 44 1 0) = 44.
Proof. split; reflexivity. Qed.

Lemma completion_position_first_sample_witness :
  HAM ∈ finishingDrivers race_drivers race_laps
  /\ timed_lap 44 2 92000 ∈ race_laps
  /\ exists c,
       c ∈ race_completions
       /\ LapCompletion.timestamp c = 92000
       /\ LapCompletion.driver_number c = 44
       /\ LapCompletion.lap_number c = 2
       /\ attached race_positions race_grid 44 92000 (LapCompletion.position c).
Proof.
  assert (Hd : HAM ∈ finishingDrivers race_drivers race_laps).
  { apply list_elem_of_lookup. by exists 1%nat. }
  assert (Hl : timed_lap 44 2 92000 ∈ race_laps).
  { apply list_elem_of_lookup. by exists 6%nat. }
  split; [exact Hd|]. split; [exact Hl|].
  exact (proj2 (completion_position_first_sample race_drivers race_positions race_laps
                  race_grid)
           HAM (timed_lap 44 2 92000) Hd Hl eq_refl eq_refl).
Defined.

(** C7, as stated, fails on the short race: the second lap of car 44 starts
    at 92000; the sample of the car nearest to it is the one of date 93000,
    with position 2, but the position attached to the completion is 3, that
    of the sample of date 40000, the first one within the tolerance. *)
Lemma completion_position_not_nearest :
  ~ (forall c p,
       c ∈ race_completions ->
       nearest_sample race_positions
         (LapCompletion.driver_number c) (LapCompletion.timestamp c) p ->
       LapCompletion.position c = Position.position p).
Proof.
  intros H.
  specialize (H (LapCompletion.mk 92000 44 2 (90 + 90)%Q 3) (Position.mk 93000 44 2)).
  assert (Hc : LapCompletion.mk 92000 44 2 (90 + 90)%Q 3 ∈ race_completions).
  { apply list_elem_of_lookup. exists 3%nat. vm_compute. reflexivity. }
  assert (Hp : nearest_sample race_positions 44 92000 (Position.mk 93000 44 2)).
  { unfold nearest_sample, within_tolerance. simpl.
    split; [apply list_elem_of_lookup; by exists 5%nat|].
    split; [done|]. split; [lia|].
    intros p' Hp' Hn Ht. unfold race_positions in Hp'.
    repeat (apply elem_of_cons in Hp' as [->|Hp']; [simpl in *; lia|]).
    by apply elem_of_nil in Hp'. }
  specialize (H Hc Hp). simpl in H. lia.
Qed.

Lemma eligible_drivers_in_frames_witness :
  race_frame 0 ∈ race_frames
  /\ List.map ChartPosition.driver_number (PositionChartData.positions (race_frame 0))
     ≡ₚ [1; 44; 4].
Proof.
  assert (H : race_frame 0 ∈ race_frames) by (apply race_frame_elem; lia).
  split; [exact H|].
  exact (proj1 (eligible_drivers_in_frames 0 0 race_drivers race_positions race_laps
                  race_grid [] (race_frame 0) H)).
Defined.

(** C8, as stated, fails on the short race: car 4 has three completed laps
    (its first lap record has no duration) and is in the frames. *)
Lemma three_completed_laps_in_frame :
  completed_laps race_laps 4 = 3%nat
  /\ race_frame 0 ∈ race_frames
  /\ 4 ∈ List.map ChartPosition.driver_number (PositionChartData.positions (race_frame 0)).
Proof.
  split; [reflexivity|]. split; [apply race_frame_elem; lia|].
  apply list_elem_of_lookup. by exists 2%nat.
Qed.

(* ===================================================================== *)
(** * More about the championship standings *)
(* ===================================================================== *)

Section MapKeyFacts.
Context {K V : Type} `{EqDecision K}.
Implicit Types (m : list (K * V)) (k : K) (v : V).

Lemma has_true_keys m k : JsMap.has m k = true ↔ k ∈ List.map fst m.
Proof.
  unfold JsMap.has. destruct (JsMap.get m k) eqn:Hg.
  - split; [intros _|done]. apply get_Some_elem_of in Hg.
    apply list_elem_of_In, in_map_iff. exists (k, v). by rewrite <- list_elem_of_In.
  - split; [done|]. intros Hk. by apply get_None_keys in Hg.
Qed.

Lemma NoDup_keys_set m k v :
  NoDup (List.map fst m) -> NoDup (List.map fst (JsMap.set m k v)).
Proof.
  intros Hm. rewrite keys_set. destruct (JsMap.has m k) eqn:Hh; [done|].
  apply NoDup_app. split; [done|]. split; [|apply NoDup_singleton].
  intros x Hx ->%list_elem_of_singleton. apply has_true_keys in Hx. congruence.
Qed.

Lemma NoDup_keys_update m k (f : V -> V) :
  NoDup (List.map fst m) -> NoDup (List.map fst (JsMap.update m k f)).
Proof. by rewrite keys_update. Qed.

Lemma get_update_eq m k (f : V -> V) :
  JsMap.get (JsMap.update m k f) k = f <$> JsMap.get m k.
Proof.
  unfold JsMap.update. destruct (JsMap.get m k) eqn:Hg; simpl.
  - by rewrite get_set_eq.
  - by rewrite Hg.
Qed.

Lemma elem_of_get m k v :
  NoDup (List.map fst m) -> (k, v) ∈ m -> JsMap.get m k = Some v.
Proof.
  induction m as [|[k' v'] m IH]; simpl; [by intros _ ?%elem_of_nil|].
  intros [Hk' Hm]%NoDup_cons [[= -> ->]|Hin]%elem_of_cons.
  - by rewrite decide_True.
  - rewrite decide_False; [by apply IH|]. intros ->. apply Hk'.
    apply list_elem_of_In, in_map_iff. exists (k, v). by rewrite <- list_elem_of_In.
Qed.

Lemma NoDup_add (s : list K) k : NoDup s -> NoDup (JsMap.add s k).
Proof.
  intros Hs. unfold JsMap.add. destruct (decide (k ∈ s)); [done|].
  apply NoDup_app. split; [done|]. split; [|apply NoDup_singleton].
  by intros x Hx ->%list_elem_of_singleton.
Qed.

Lemma elem_of_add (s : list K) k x : x ∈ JsMap.add s k ↔ x ∈ s \/ x = k.
Proof.
  unfold JsMap.add. destruct (decide (k ∈ s)) as [Hk|Hk].
  - split; [by left|]. by intros [?| ->].
  - by rewrite elem_of_app, list_elem_of_singleton.
Qed.

End MapKeyFacts.

(** ** The points of one position *)

Lemma points_for_cases (position : Z) :
  (position <= 0 /\ points_for position = NaN)
  \/ (position = 1 /\ points_for position = Num 25)
  \/ (position = 2 /\ points_for position = Num 18)
  \/ (position = 3 /\ points_for position = Num 15)
  \/ (4 <= position /\ exists p, points_for position = Num p /\ 0 <= p <= 12).
Proof.
  unfold points_for. change (Z.of_nat (List.length pointsSystem)) with 10.
  destruct (position <=? 10) eqn:Hle.
  - destruct (1 <=? position) eqn:Hge; [|left; split; [lia|done]].
    right. assert (Hn : (Z.to_nat (position - 1) < 10)%nat) by lia.
    assert (Hp : position = Z.of_nat (Z.to_nat (position - 1)) + 1) by lia.
    destruct (Z.to_nat (position - 1)) as [|[|[|[|[|[|[|[|[|[|n]]]]]]]]]];
      simpl in *; try lia.
    + by left.
    + right; by left.
    + right; right; by left.
    + right; right; right. split; [lia|]. eexists. split; [done|lia].
    + right; right; right. split; [lia|]. eexists. split; [done|lia].
    + right; right; right. split; [lia|]. eexists. split; [done|lia].
    + right; right; right. split; [lia|]. eexists. split; [done|lia].
    + right; right; right. split; [lia|]. eexists. split; [done|lia].
    + right; right; right. split; [lia|]. eexists. split; [done|lia].
    + right; right; right. split; [lia|]. eexists. split; [done|lia].
  - right; right; right; right. split; [lia|]. exists 0. split; [done|lia].
Qed.

(** ** Induction over the awards of a season *)

Lemma season_stats_ind (I : Stats -> Prop) (api : Api) (sessions : list Session.t) :
  I (mkStats [] []) ->
  (forall s ds ps st e,
      s ∈ sessions -> is_race_session s = true ->
      getDrivers api (Session.session_key s) = Some ds ->
      getPositions api (Session.session_key s) = Some ps ->
      e ∈ finalPositions ps ->
      I st -> I (award ds st e)) ->
  I (season_stats api sessions).
Proof.
  intros Hinit Hstep. unfold season_stats.
  assert (Hsub : forall s, s ∈ List.filter is_race_session sessions ->
            s ∈ sessions /\ is_race_session s = true).
  { intros s Hs%list_elem_of_In%filter_In. by rewrite list_elem_of_In. }
  revert Hsub Hinit. generalize (mkStats [] []).
  induction (List.filter is_race_session sessions) as [|s l IH]; intros st Hsub Hst; simpl;
    [done|].
  apply IH; [intros s' Hs'; apply Hsub; by right|].
  destruct (Hsub s) as [Hs Hr]; [left|].
  unfold process_session.
  destruct (getDrivers api _) as [ds|] eqn:Hds; [|done].
  destruct (getPositions api _) as [ps|] eqn:Hps; [|done].
  unfold award_session.
  assert (Hfp : forall e, e ∈ finalPositions ps -> e ∈ finalPositions ps) by done.
  revert Hfp Hst. generalize (finalPositions ps) at 1 3 as l'. intros l'. revert st.
  induction l' as [|e l' IH']; intros st Hfp Hst; simpl; [done|].
  apply IH'; [intros e' He'; apply Hfp; by right|].
  eapply Hstep; eauto. apply Hfp. left.
Qed.

(** ** Reading the rows back *)

Lemma elem_of_ranked {A : Type} (sort : engine_sort) (score : A -> number * Z * Z)
    (reposition : nat -> A -> A) (rows : list A) (x : A) :
  permuting sort ->
  x ∈ ranked sort score reposition rows ->
  exists i y, y ∈ rows /\ x = reposition i y.
Proof.
  unfold ranked. intros Hperm (i & y & -> & Hy)%elem_of_lookup_imap.
  exists i, y. split; [|done]. apply list_elem_of_lookup_2 in Hy.
  by rewrite (Hperm A _ rows) in Hy.
Qed.

Lemma elem_of_driverStandings (sort : engine_sort) (st : Stats) (d : DriverStanding.t) :
  permuting sort ->
  d ∈ driverStandings sort st ->
  exists s, (DriverStanding.driver_number d, s) ∈ driverStats st
    /\ driver_score d = (DriverStat.points s, DriverStat.wins s, DriverStat.podiums s)
    /\ DriverStanding.team_name d = Driver.team_name (DriverStat.driver s).
Proof.
  intros Hperm. rewrite driverStandings_ranked.
  intros (i & row & Hrow & ->)%elem_of_ranked; [|done].
  unfold driver_rows in Hrow.
  apply list_elem_of_In, in_map_iff in Hrow as ([k s] & <- & Hin%list_elem_of_In).
  by exists s.
Qed.

Lemma elem_of_constructorStandings (sort : engine_sort) (st : Stats)
    (c : ConstructorStanding.t) :
  permuting sort ->
  c ∈ constructorStandings sort st ->
  exists s, (ConstructorStanding.team_name c, s) ∈ constructorStats st
    /\ constructor_score c
       = (ConstructorStat.points s, ConstructorStat.wins s, ConstructorStat.podiums s)
    /\ ConstructorStanding.drivers c
       = List.map (team_driver (driverStats st)) (ConstructorStat.drivers s).
Proof.
  intros Hperm. rewrite constructorStandings_ranked.
  intros (i & row & Hrow & ->)%elem_of_ranked; [|done].
  unfold constructor_rows in Hrow.
  apply list_elem_of_In, in_map_iff in Hrow as ([k s] & <- & Hin%list_elem_of_In).
  by exists s.
Qed.

Lemma driverStandings_numbers (sort : engine_sort) (st : Stats) :
  permuting sort ->
  List.map DriverStanding.driver_number (driverStandings sort st)
  ≡ₚ List.map fst (driverStats st).
Proof.
  intros Hperm. rewrite driverStandings_ranked, ranked_perm by done.
  unfold driver_rows. rewrite map_map.
  by rewrite (map_ext _ fst) by (by intros [k v]).
Qed.

Lemma constructorStandings_teams (sort : engine_sort) (st : Stats) :
  permuting sort ->
  List.map ConstructorStanding.team_name (constructorStandings sort st)
  ≡ₚ List.map fst (constructorStats st).
Proof.
  intros Hperm. rewrite constructorStandings_ranked, ranked_perm by done.
  unfold constructor_rows. rewrite map_map.
  by rewrite (map_ext _ fst) by (by intros [k v]).
Qed.

(** ** One row for each driver and for each team *)

Lemma award_keys_NoDup (ds : list Driver.t) (st : Stats) (e : Z * Z) :
  NoDup (List.map fst (driverStats st)) /\ NoDup (List.map fst (constructorStats st)) ->
  NoDup (List.map fst (driverStats (award ds st e)))
  /\ NoDup (List.map fst (constructorStats (award ds st e))).
Proof.
  intros [Hd Hc]. destruct e as [n position]. unfold award.
  destruct (List.find _ ds) as [driver|]; [|done]. simpl. split.
  - apply NoDup_keys_update. destruct (JsMap.has _ _); [done|]. by apply NoDup_keys_set.
  - apply NoDup_keys_update. destruct (JsMap.has _ _); [done|]. by apply NoDup_keys_set.
Qed.

Lemma season_stats_keys_NoDup (api : Api) (sessions : list Session.t) :
  NoDup (List.map fst (driverStats (season_stats api sessions)))
  /\ NoDup (List.map fst (constructorStats (season_stats api sessions))).
Proof.
  apply (season_stats_ind (fun st =>
    NoDup (List.map fst (driverStats st)) /\ NoDup (List.map fst (constructorStats st)))).
  - split; constructor.
  - intros s ds ps st e _ _ _ _ _. apply award_keys_NoDup.
Qed.

(** X1.  No driver number stands twice in the drivers table and no team
    twice in the constructors table, whatever the sessions return and
    whatever implementation of [sort] that keeps the elements is used. *)
Theorem standings_rows_unique (sort : engine_sort) (api : Api) (year : Z)
    (r : ChampionshipData.t) :
  permuting sort ->
  getChampionshipStandings sort api year = Some r ->
  NoDup (List.map DriverStanding.driver_number (ChampionshipData.drivers r))
  /\ NoDup (List.map ConstructorStanding.team_name (ChampionshipData.constructors r)).
Proof.
  intros Hperm. unfold getChampionshipStandings.
  destruct (getSessions api year) as [sessions|]; [|done]. intros [= <-]. simpl.
  destruct (season_stats_keys_NoDup api sessions) as [Hd Hc].
  rewrite driverStandings_numbers, constructorStandings_teams by done. by split.
Qed.

Lemma standings_rows_unique_witness :
  permuting stable_sort
  /\ getChampionshipStandings stable_sort sample_api 2024 = Some sample_standings
  /\ NoDup (List.map DriverStanding.driver_number
              (ChampionshipData.drivers sample_standings)).
Proof.
  assert (H : getChampionshipStandings stable_sort sample_api 2024
              = Some sample_standings) by (vm_compute; reflexivity).
  split; [exact stable_sort_permuting|]. split; [exact H|].
  exact (proj1 (standings_rows_unique stable_sort sample_api 2024 sample_standings
                  stable_sort_permuting H)).
Defined.

(** ** Wins, podiums and points of a row *)

Lemma credit_consistent (position : Z) (points : number) (wins podiums : Z) :
  score_consistent (points, wins, podiums) ->
  score_consistent
    (num_add points (points_for position),
     bump (position =? 1) wins, bump (position <=? 3) podiums).
Proof.
  unfold score_consistent, bump. intros [Hw Hp].
  destruct (points_for_cases position)
    as [[Hpos ->]|[[-> ->]|[[-> ->]|[[-> ->]|[Hpos (q & -> & Hq)]]]]].
  - destruct (position =? 1) eqn:H1; [lia|].
    destruct (position <=? 3) eqn:H3; [|lia].
    split; [lia|]. by destruct points.
  - simpl. split; [lia|]. destruct points as [x|]; [|done].
    intros p [= <-]. specialize (Hp x eq_refl). lia.
  - simpl. split; [lia|]. destruct points as [x|]; [|done].
    intros p [= <-]. specialize (Hp x eq_refl). lia.
  - simpl. split; [lia|]. destruct points as [x|]; [|done].
    intros p [= <-]. specialize (Hp x eq_refl). lia.
  - destruct (position =? 1) eqn:H1; [lia|].
    destruct (position <=? 3) eqn:H3; [lia|].
    split; [lia|]. destruct points as [x|]; [|done].
    intros p [= <-]. specialize (Hp x eq_refl). lia.
Qed.

Lemma award_consistent (ds : list Driver.t) (st : Stats) (e : Z * Z) :
  Forall (fun x => score_consistent
            (DriverStat.points x.2, DriverStat.wins x.2, DriverStat.podiums x.2))
    (driverStats st)
  /\ Forall (fun x => score_consistent
               (ConstructorStat.points x.2, ConstructorStat.wins x.2,
                ConstructorStat.podiums x.2))
       (constructorStats st) ->
  Forall (fun x => score_consistent
            (DriverStat.points x.2, DriverStat.wins x.2, DriverStat.podiums x.2))
    (driverStats (award ds st e))
  /\ Forall (fun x => score_consistent
               (ConstructorStat.points x.2, ConstructorStat.wins x.2,
                ConstructorStat.podiums x.2))
       (constructorStats (award ds st e)).
Proof.
  intros [Hd Hc]. destruct e as [n position]. unfold award.
  assert (H0 : score_consistent (Num 0, 0, 0)).
  { split; [lia|]. intros p [= <-]. lia. }
  destruct (List.find _ ds) as [driver|]; [|done]. simpl. split.
  - apply Forall_update.
    + destruct (JsMap.has _ _); [done|]. by apply Forall_set.
    + intros v Hv. by apply credit_consistent.
  - apply Forall_update.
    + destruct (JsMap.has _ _); [done|]. by apply Forall_set.
    + intros v Hv. by apply credit_consistent.
Qed.

(** X2.  In both tables a row has no more wins than podiums, neither is
    negative, and points that are a number are at least 25 for each win plus
    15 for each further podium. *)
Theorem standings_scores_consistent (sort : engine_sort) (api : Api) (year : Z)
    (r : ChampionshipData.t) :
  permuting sort ->
  getChampionshipStandings sort api year = Some r ->
  Forall (fun d => score_consistent (driver_score d)) (ChampionshipData.drivers r)
  /\ Forall (fun c => score_consistent (constructor_score c))
       (ChampionshipData.constructors r).
Proof.
  intros Hperm. unfold getChampionshipStandings.
  destruct (getSessions api year) as [sessions|]; [|done]. intros [= <-]. simpl.
  assert (Hinv : Forall (fun x => score_consistent
                     (DriverStat.points x.2, DriverStat.wins x.2, DriverStat.podiums x.2))
                   (driverStats (season_stats api sessions))
                 /\ Forall (fun x => score_consistent
                     (ConstructorStat.points x.2, ConstructorStat.wins x.2,
                      ConstructorStat.podiums x.2))
                   (constructorStats (season_stats api sessions))).
  { apply (season_stats_ind (fun st =>
      Forall (fun x => score_consistent
                (DriverStat.points x.2, DriverStat.wins x.2, DriverStat.podiums x.2))
        (driverStats st)
      /\ Forall (fun x => score_consistent
                   (ConstructorStat.points x.2, ConstructorStat.wins x.2,
                    ConstructorStat.podiums x.2))
           (constructorStats st))).
    - split; constructor.
    - intros s ds ps st e _ _ _ _ _. apply award_consistent. }
  destruct Hinv as [Hd Hc]. rewrite Forall_forall in Hd. rewrite Forall_forall in Hc.
  split; apply Forall_forall.
  - intros d (s & Hin & Heq & _)%elem_of_driverStandings; [|done].
    change (score_consistent (driver_score d)). rewrite Heq. exact (Hd _ Hin).
  - intros c (s & Hin & Heq & _)%elem_of_constructorStandings; [|done].
    change (score_consistent (constructor_score c)). rewrite Heq. exact (Hc _ Hin).
Qed.

Lemma standings_scores_consistent_witness :
  permuting stable_sort
  /\ getChampionshipStandings stable_sort sample_api 2024 = Some sample_standings
  /\ Forall (fun d => score_consistent (driver_score d))
       (ChampionshipData.drivers sample_standings).
Proof.
  assert (H : getChampionshipStandings stable_sort sample_api 2024
              = Some sample_standings) by (vm_compute; reflexivity).
  split; [exact stable_sort_permuting|]. split; [exact H|].
  exact (proj1 (standings_scores_consistent stable_sort sample_api 2024
                  sample_standings stable_sort_permuting H)).
Defined.

(** ** What one session adds to a driver *)

Lemma finalPositions_keys_NoDup (positions : list Position.t) :
  NoDup (List.map fst (finalPositions positions)).
Proof.
  unfold finalPositions.
  assert (Hgen : forall l acc, NoDup (List.map fst acc) ->
            NoDup (List.map fst (fold_left (final_step positions) l acc))).
  { induction l as [|pos l IH]; intros acc Hacc; simpl; [done|].
    apply IH. unfold final_step. destruct (replaces_existing _ _ _); [|done].
    by apply NoDup_keys_set. }
  apply Hgen. constructor.
Qed.

Lemma award_driver_other (ds : list Driver.t) (st : Stats) (k q n : Z) :
  k ≠ n ->
  JsMap.get (driverStats (award ds st (k, q))) n = JsMap.get (driverStats st) n.
Proof.
  intros Hk. unfold award. destruct (List.find _ ds) as [d|]; [|done]. simpl.
  rewrite get_update_ne by done.
  destruct (JsMap.has _ _); [done|]. by rewrite get_set_ne.
Qed.

Lemma award_driver_this (ds : list Driver.t) (st : Stats) (n p : Z) (d : Driver.t) :
  List.find (fun d => Driver.driver_number d =? n) ds = Some d ->
  JsMap.get (driverStats (award ds st (n, p))) n
  = Some (credit_driver (points_for p) (p =? 1) (p <=? 3)
            (default (DriverStat.mk d (Num 0) 0 0) (JsMap.get (driverStats st) n))).
Proof.
  intros Hd. unfold award. rewrite Hd. simpl. rewrite get_update_eq.
  unfold JsMap.has. destruct (JsMap.get (driverStats st) n) eqn:Hg; simpl.
  - by rewrite Hg.
  - by rewrite get_set_eq.
Qed.

Lemma fold_award_other (ds : list Driver.t) (l : list (Z * Z)) (st : Stats) (n : Z) :
  n ∉ List.map fst l ->
  JsMap.get (driverStats (fold_left (award ds) l st)) n = JsMap.get (driverStats st) n.
Proof.
  revert st. induction l as [|[k q] l IH]; intros st Hn; simpl; [done|].
  simpl in Hn. apply not_elem_of_cons in Hn as [Hk Hn].
  rewrite IH by done. by apply award_driver_other.
Qed.



(** ** The drivers listed under a constructor *)

Lemma award_team_drivers (ds : list Driver.t) (st : Stats) (e : Z * Z) :
  Forall (fun x : string * ConstructorStat.t =>
            NoDup (ConstructorStat.drivers x.2)
            /\ forall n, n ∈ ConstructorStat.drivers x.2 ->
                 n ∈ List.map fst (driverStats st))
    (constructorStats st) ->
  Forall (fun x : string * ConstructorStat.t =>
            NoDup (ConstructorStat.drivers x.2)
            /\ forall n, n ∈ ConstructorStat.drivers x.2 ->
                 n ∈ List.map fst (driverStats (award ds st e)))
    (constructorStats (award ds st e)).
Proof.
  intros Hc. destruct e as [k position]. unfold award.
  destruct (List.find _ ds) as [driver|]; [|done]. simpl.
  set (ds' := JsMap.update _ k _).
  assert (Hkeys : forall n, n ∈ List.map fst (driverStats st) -> n ∈ List.map fst ds').
  { intros n Hn. subst ds'. rewrite keys_update.
    destruct (JsMap.has _ _); [done|]. rewrite keys_set.
    destruct (JsMap.has _ _); [done|]. apply elem_of_app. by left. }
  assert (Hk : k ∈ List.map fst ds').
  { subst ds'. rewrite keys_update. destruct (JsMap.has _ _) eqn:Hh.
    - by apply has_true_keys.
    - rewrite keys_set, Hh. apply elem_of_app. right. left. }
  assert (Hc' : Forall (fun x : string * ConstructorStat.t =>
            NoDup (ConstructorStat.drivers x.2)
            /\ forall n, n ∈ ConstructorStat.drivers x.2 -> n ∈ List.map fst ds')
          (constructorStats st)).
  { eapply Forall_impl; [exact Hc|]. intros x [Hnd Hin]. split; [done|]. auto. }
  apply Forall_update.
  - destruct (JsMap.has (constructorStats st) _); [exact Hc'|].
    apply Forall_set; [exact Hc'|]. simpl.
    split; [constructor|]. by intros n ?%elem_of_nil.
  - intros v [Hnd Hin]. simpl in *. split; [by apply NoDup_add|].
    intros n [Hn| ->]%elem_of_add; auto.
Qed.

Lemma elem_of_driverStandings_2 (sort : engine_sort) (st : Stats) (n : Z)
    (s : DriverStat.t) :
  permuting sort ->
  (n, s) ∈ driverStats st ->
  exists d, d ∈ driverStandings sort st
    /\ DriverStanding.driver_number d = n
    /\ DriverStanding.points d = DriverStat.points s.
Proof.
  intros Hperm Hin. rewrite driverStandings_ranked. unfold ranked.
  assert (Hrow : driver_row (n, s) ∈ sort _
            (fun a b => score_cmp (driver_score a) (driver_score b)) (driver_rows st)).
  { rewrite (Hperm _ _ (driver_rows st)). unfold driver_rows.
    apply list_elem_of_In, in_map, list_elem_of_In, Hin. }
  apply list_elem_of_lookup in Hrow as [i Hi].
  exists (set_driver_position i (driver_row (n, s))). split; [|done].
  apply list_elem_of_lookup. exists i. by rewrite list_lookup_imap, Hi.
Qed.

(** X4.  The drivers listed under a constructor are distinct cars, every
    one of them has a row in the drivers table, and the points shown beside
    it are the points of that row, the total of the driver's season ([0]
    stands for a total that is not a number). *)
Theorem constructor_drivers_listed (sort : engine_sort) (api : Api) (year : Z)
    (r : ChampionshipData.t) (c : ConstructorStanding.t) :
  permuting sort ->
  getChampionshipStandings sort api year = Some r ->
  c ∈ ChampionshipData.constructors r ->
  NoDup (List.map TeamDriver.driver_number (ConstructorStanding.drivers c))
  /\ forall td, td ∈ ConstructorStanding.drivers c ->
       exists d, d ∈ ChampionshipData.drivers r
         /\ DriverStanding.driver_number d = TeamDriver.driver_number td
         /\ TeamDriver.points td = num_or_zero (DriverStanding.points d).
Proof.
  intros Hperm. unfold getChampionshipStandings.
  destruct (getSessions api year) as [sessions|]; [|done]. intros [= <-]. simpl.
  set (st := season_stats api sessions).
  assert (Hinv : Forall (fun x : string * ConstructorStat.t =>
            NoDup (ConstructorStat.drivers x.2)
            /\ forall n, n ∈ ConstructorStat.drivers x.2 ->
                 n ∈ List.map fst (driverStats st))
          (constructorStats st)).
  { subst st. apply (season_stats_ind (fun st =>
      Forall (fun x : string * ConstructorStat.t =>
            NoDup (ConstructorStat.drivers x.2)
            /\ forall n, n ∈ ConstructorStat.drivers x.2 ->
                 n ∈ List.map fst (driverStats st))
        (constructorStats st))).
    - constructor.
    - intros s ds ps st e _ _ _ _ _. apply award_team_drivers. }
  intros (s & Hin & _ & Hdrivers)%elem_of_constructorStandings; [|done].
  rewrite Forall_forall in Hinv. destruct (Hinv _ Hin) as [Hnd Hkeys]. simpl in *.
  rewrite Hdrivers. split.
  - rewrite map_map.
    rewrite (map_ext _ id); [by rewrite map_id|].
    intros n. unfold team_driver. by destruct (JsMap.get _ n).
  - intros td (n & <- & Hn%list_elem_of_In)%list_elem_of_In%in_map_iff.
    unfold team_driver.
    destruct (JsMap.get (driverStats st) n) as [ds|] eqn:Hg.
    + apply get_Some_elem_of in Hg.
      apply (elem_of_driverStandings_2 sort) in Hg as (d & Hd & Hdn & Hp); [|done].
      exists d. simpl. by rewrite Hp.
    + apply get_None_keys in Hg. destruct Hg. by apply Hkeys.
Qed.

Lemma constructor_drivers_listed_witness :
  permuting stable_sort
  /\ getChampionshipStandings stable_sort sample_api 2024 = Some sample_standings
  /\ nth 0 (ChampionshipData.constructors sample_standings)
       (ConstructorStanding.mk 0 "" "" NaN 0 0 [])
     ∈ ChampionshipData.constructors sample_standings
  /\ NoDup (List.map TeamDriver.driver_number
              (ConstructorStanding.drivers
                 (nth 0 (ChampionshipData.constructors sample_standings)
                    (ConstructorStanding.mk 0 "" "" NaN 0 0 [])))).
Proof.
  assert (H : getChampionshipStandings stable_sort sample_api 2024
              = Some sample_standings) by (vm_compute; reflexivity).
  assert (Hc : nth 0 (ChampionshipData.constructors sample_standings)
                 (ConstructorStanding.mk 0 "" "" NaN 0 0 [])
               ∈ ChampionshipData.constructors sample_standings).
  { apply list_elem_of_lookup. by exists 0%nat. }
  split; [exact stable_sort_permuting|]. split; [exact H|]. split; [exact Hc|].
  exact (proj1 (constructor_drivers_listed stable_sort sample_api 2024 sample_standings
                  _ stable_sort_permuting H Hc)).
Defined.

(** ** A session whose requests fail *)










(** The sample season with the failing race between the two others: the
    race after the failure counts (car 1 wins it). *)
Example middle_season_table :
  List.map Session.session_key (List.filter is_race_session middle_sessions)
  = [9001; 9004; 9003]
  /\ getDrivers middle_api 9004 = None
  /\ List.map (fun d => (DriverStanding.position d, DriverStanding.driver_number d,
                         DriverStanding.points d, DriverStanding.wins d,
                         DriverStanding.podiums d))
       (driverStandings stable_sort
          (tally (counted_sessions middle_api [Session.mk 9001 "Race"]
                  ++ counted_sessions middle_api [Session.mk 9003 "Race"])))
     = [(1, 1, Num 43, 1, 2); (2, 44, Num 43, 1, 2); (3, 11, Num 15, 0, 1)]
  /\ List.map (fun d => (DriverStanding.driver_number d, DriverStanding.points d,
                         DriverStanding.wins d))
       (driverStandings stable_sort
          (tally (counted_sessions middle_api [Session.mk 9001 "Race"])))
     = [(44, Num 25, 1); (1, Num 18, 0); (11, Num 15, 0)].
Proof. repeat (match goal with |- _ /\ _ => split end); by vm_compute. Qed.


(* ===================================================================== *)
(** * The starting grid *)
(* ===================================================================== *)

Lemma getQualifyingPositions_records (meetingSessions : option (list Session.t))
    (api : Api) (drivers : list Driver.t) :
  getQualifyingPositions meetingSessions api drivers
  = match qualifying_records meetingSessions api with
    | Some qualifyingPositions => finalQualifyingPositions qualifyingPositions
    | None => fallbackPositions drivers
    end.
Proof.
  unfold getQualifyingPositions, qualifying_records.
  destruct meetingSessions as [sessions|]; simpl; [|done].
  destruct (List.find _ sessions) as [q|]; simpl; [|done]. done.
Qed.

Lemma fallback_from_lookup (index : nat) (drivers : list Driver.t) (m : gmap Z Z) (n : Z) :
  n ∉ List.map Driver.driver_number drivers ->
  fallback_from index drivers m !! n = m !! n.
Proof.
  revert index m. induction drivers as [|d ds IH]; intros index m Hn; simpl; [done|].
  simpl in Hn. apply not_elem_of_cons in Hn as [Hd Hn].
  rewrite IH by done. by rewrite lookup_insert_ne.
Qed.

Lemma fallback_from_index (index : nat) (drivers : list Driver.t) (m : gmap Z Z)
    (i : nat) (d : Driver.t) :
  NoDup (List.map Driver.driver_number drivers) ->
  drivers !! i = Some d ->
  fallback_from index drivers m !! Driver.driver_number d = Some (Z.of_nat (index + i) + 1).
Proof.
  revert index m i. induction drivers as [|d' ds IH]; intros index m i Hnd Hi; [done|].
  simpl in Hnd. apply NoDup_cons in Hnd as [Hd' Hnd]. destruct i as [|i]; simpl in *.
  - injection Hi as ->. rewrite fallback_from_lookup by done.
    rewrite lookup_insert_eq. do 2 f_equal. lia.
  - rewrite (IH (S index) _ i) by done. do 2 f_equal. lia.
Qed.

(** X5.  Without the records of a qualifying session (the session request
    fails, the meeting has no session named qualifying or sprint_shootout, or
    the positions request fails), the grid is the order of the drivers list:
    with distinct driver numbers, the driver at index [i] starts from
    [i + 1], and a car that is not in the list has no grid position. *)
Theorem qualifying_fallback_is_list_order (meetingSessions : option (list Session.t))
    (api : Api) (drivers : list Driver.t) :
  qualifying_records meetingSessions api = None ->
  NoDup (List.map Driver.driver_number drivers) ->
  (forall (i : nat) d, drivers !! i = Some d ->
     getQualifyingPositions meetingSessions api drivers !! Driver.driver_number d
     = Some (Z.of_nat i + 1))
  /\ (forall n, n ∉ List.map Driver.driver_number drivers ->
        getQualifyingPositions meetingSessions api drivers !! n = None).
Proof.
  intros Hrec Hnd. rewrite getQualifyingPositions_records, Hrec.
  unfold fallbackPositions. split.
  - intros i d Hi. by rewrite (fallback_from_index 0 drivers ∅ i d).
  - intros n Hn. by rewrite fallback_from_lookup.
Qed.

Lemma qualifying_fallback_is_list_order_witness :
  qualifying_records None weekend_api = None
  /\ NoDup (List.map Driver.driver_number race_drivers)
  /\ getQualifyingPositions None weekend_api race_drivers !! 44 = Some 3.
Proof.
  assert (H1 : qualifying_records None weekend_api = None) by reflexivity.
  assert (H2 : NoDup (List.map Driver.driver_number race_drivers)).
  { apply (bool_decide_unpack _). by vm_compute. }
  split; [exact H1|]. split; [exact H2|].
  exact (proj1 (qualifying_fallback_is_list_order None weekend_api race_drivers H1 H2)
           2%nat HAM eq_refl).
Defined.

Lemma qualifying_fold_lookup (all l : list Position.t) (acc : list (Z * Z))
    (m : gmap Z Z) :
  (forall n, m !! n = JsMap.get acc n) ->
  forall n,
    fold_left (qualifying_step all) l m !! n
    = JsMap.get (fold_left (final_step all) l acc) n.
Proof.
  revert acc m. induction l as [|pos l IH]; intros acc m Hm; simpl; [done|].
  apply IH. intros n. unfold qualifying_step, final_step. rewrite Hm.
  destruct (replaces_existing _ _ _); [|done].
  destruct (decide (Position.driver_number pos = n)) as [<-|Hne].
  - by rewrite lookup_insert_eq, get_set_eq.
  - by rewrite lookup_insert_ne, get_set_ne.
Qed.

(** X6.  With the records of a qualifying session, the grid has an entry
    only for the cars in these records; when the records of each car come
    in increasing order of date and no position is 0, the grid position of a
    car is the position of its latest record.  (No record at all gives an
    empty grid, not the fallback.) *)
Theorem qualifying_grid_is_latest (meetingSessions : option (list Session.t))
    (api : Api) (drivers : list Driver.t) (records : list Position.t) :
  qualifying_records meetingSessions api = Some records ->
  (forall n, n ∉ List.map Position.driver_number records ->
     getQualifyingPositions meetingSessions api drivers !! n = None)
  /\ (chronological records ->
      Forall (fun p => Position.position p ≠ 0) records ->
      forall n, getQualifyingPositions meetingSessions api drivers !! n
                = final_classification records n).
Proof.
  intros Hrec. rewrite getQualifyingPositions_records, Hrec.
  unfold finalQualifyingPositions.
  assert (Hget : forall n, fold_left (qualifying_step records) records ∅ !! n
                           = JsMap.get (finalPositions records) n).
  { apply qualifying_fold_lookup. intros n. by rewrite lookup_empty. }
  split.
  - intros n Hn. rewrite Hget. apply get_None_keys. intros Hin. apply Hn.
    assert (Hall : Forall (fun e : Z * Z => e.1 ∈ List.map Position.driver_number records)
                     (finalPositions records)).
    { apply finalPositions_Forall, Forall_forall. intros p Hp. simpl.
      by apply list_elem_of_In, in_map, list_elem_of_In. }
    rewrite Forall_forall in Hall.
    apply list_elem_of_In, in_map_iff in Hin as ([k v] & <- & Hkv%list_elem_of_In).
    exact (Hall _ Hkv).
  - intros Hchron Hnz n. rewrite Hget. by apply finalPositions_chronological.
Qed.

Lemma qualifying_grid_is_latest_witness :
  qualifying_records (Some weekend_sessions) weekend_api
  = Some [ Position.mk 1000 44 1; Position.mk 1000 1 2; Position.mk 1000 4 3;
           Position.mk 2000 1 1; Position.mk 2000 44 2 ]
  /\ chronological
       [ Position.mk 1000 44 1; Position.mk 1000 1 2; Position.mk 1000 4 3;
         Position.mk 2000 1 1; Position.mk 2000 44 2 ]
  /\ getQualifyingPositions (Some weekend_sessions) weekend_api race_drivers !! 11 = None
  /\ getQualifyingPositions (Some weekend_sessions) weekend_api race_drivers !! 1 = Some 1.
Proof.
  assert (H : qualifying_records (Some weekend_sessions) weekend_api
              = Some [ Position.mk 1000 44 1; Position.mk 1000 1 2; Position.mk 1000 4 3;
                       Position.mk 2000 1 1; Position.mk 2000 44 2 ]) by reflexivity.
  assert (Hc : chronological
                 [ Position.mk 1000 44 1; Position.mk 1000 1 2; Position.mk 1000 4 3;
                   Position.mk 2000 1 1; Position.mk 2000 44 2 ]).
  { unfold chronological. apply (bool_decide_unpack _). by vm_compute. }
  assert (Hz : Forall (fun p => Position.position p ≠ 0)
                 [ Position.mk 1000 44 1; Position.mk 1000 1 2; Position.mk 1000 4 3;
                   Position.mk 2000 1 1; Position.mk 2000 44 2 ]).
  { apply (bool_decide_unpack _). by vm_compute. }
  assert (Hn : 11 ∉ List.map Position.driver_number
                 [ Position.mk 1000 44 1; Position.mk 1000 1 2; Position.mk 1000 4 3;
                   Position.mk 2000 1 1; Position.mk 2000 44 2 ]).
  { apply (bool_decide_unpack _). by vm_compute. }
  destruct (qualifying_grid_is_latest (Some weekend_sessions) weekend_api
              race_drivers _ H) as [Habsent Hlatest].
  split; [exact H|]. split; [exact Hc|]. split; [exact (Habsent 11 Hn)|].
  exact (Hlatest Hc Hz 1).
Defined.

(* ===================================================================== *)
(** * More about the replay timeline *)
(* ===================================================================== *)

Lemma fold_max_le (b : Z) (l : list Z) (z : Z) :
  b <= z -> (forall x, x ∈ l -> x <= z) -> fold_right Z.max b l <= z.
Proof.
  intros Hb. induction l as [|x l IH]; intros Hl; simpl; [done|].
  apply Z.max_lub; [apply Hl; left|]. apply IH. intros y Hy. apply Hl. by right.
Qed.

Lemma fold_max_ge_base (b : Z) (l : list Z) : b <= fold_right Z.max b l.
Proof. induction l as [|x l IH]; simpl; lia. Qed.

Lemma fold_max_ge_elem (b : Z) (l : list Z) (x : Z) :
  x ∈ l -> x <= fold_right Z.max b l.
Proof.
  induction l as [|y l IH]; simpl; [by intros ?%elem_of_nil|].
  intros [->|Hx]%elem_of_cons; [lia|]. specialize (IH Hx). lia.
Qed.

Lemma fold_max_same_elements (b : Z) (l1 l2 : list Z) :
  (forall x, x ∈ l1 ↔ x ∈ l2) -> fold_right Z.max b l1 = fold_right Z.max b l2.
Proof.
  intros Heq. apply Z.le_antisymm; apply fold_max_le;
    try apply fold_max_ge_base; intros x Hx; apply fold_max_ge_elem, Heq, Hx.
Qed.

Section ReplayMore.
Context (now0 now1 : Z).
Context (drivers : list Driver.t) (positions : list Position.t) (laps : list Lap.t).
Context (qualifyingPositions : gmap Z Z) (raceControl : list RaceControl.t).

Local Abbreviation finishing := (finishingDrivers drivers laps).
Local Abbreviation completions :=
  (allLapCompletions drivers positions laps qualifyingPositions).
Local Abbreviation frame :=
  (frame_at now0 now1 drivers positions laps qualifyingPositions raceControl).
Local Abbreviation loop :=
  (frame_loop now0 now1 drivers positions laps qualifyingPositions raceControl).
Local Abbreviation frames :=
  (processRaceData now0 now1 drivers positions laps qualifyingPositions raceControl).
Local Abbreviation time :=
  (currentTime now0 now1 drivers positions laps qualifyingPositions).
Local Abbreviation advance :=
  (advance_states drivers positions laps qualifyingPositions).
Local Abbreviation initial := (initial_states drivers laps qualifyingPositions).
Local Abbreviation reaches_end :=
  (last_frame_reaches_end now0 now1 drivers positions laps qualifyingPositions).

Implicit Types (states : list (Z * DriverState.t)) (n : Z).

(** ** The loop, with its indices *)

Lemma loop_Forall2_index (I : list (Z * DriverState.t) -> Prop)
    (Q : Z -> PositionChartData.t -> Prop) states (indices : list Z) :
  (forall st i, i ∈ indices -> I st -> I (frame st i).1 /\ Q i (frame st i).2) ->
  I states -> Forall2 Q indices (loop states indices).
Proof.
  revert states. induction indices as [|i indices IH]; intros states Hstep HI.
  - constructor.
  - rewrite (loop_cons now0 now1 drivers positions laps qualifyingPositions raceControl).
    destruct (Hstep states i) as [HI' HQ]; [left|done|].
    constructor; [done|]. apply IH; [|done].
    intros st j Hj. apply Hstep. by right.
Qed.

Lemma frames_Forall_index (I : list (Z * DriverState.t) -> Prop)
    (P : PositionChartData.t -> Prop) :
  (forall st i, 0 <= i <= timeIntervals laps -> I st ->
     I (frame st i).1 /\ P (frame st i).2) ->
  I initial -> Forall P frames.
Proof.
  intros Hstep Hinit. unfold processRaceData.
  eapply (Forall2_Forall_r (fun _ f => P f)); [|apply Forall_true; done].
  apply (loop_Forall2_index I); [|done].
  intros st i Hi%elem_of_seqZ. apply Hstep. lia.
Qed.

(** ** An invariant of the states, and of the entries made from them *)

Section StateInvariant.
Context (P : Z -> Z -> Z -> Z -> bool -> Prop).
Hypothesis P_initial :
  forall d, d ∈ finishing ->
    P (Driver.driver_number d)
      (grid_position qualifyingPositions (Driver.driver_number d)) 0 0 false.
Hypothesis P_completion :
  forall c p l s b,
    c ∈ completions ->
    P (LapCompletion.driver_number c) p l s b ->
    l < LapCompletion.lap_number c ->
    let pitLap :=
      List.find (fun lap =>
          (Lap.driver_number lap =? LapCompletion.driver_number c)
          && (Lap.lap_number lap =? LapCompletion.lap_number c)
          && Lap.is_pit_out_lap lap)
        laps in
    P (LapCompletion.driver_number c) (LapCompletion.position c)
      (LapCompletion.lap_number c) (if is_some pitLap then s + 1 else s)
      (is_some pitLap).

Lemma invariant_initial : Forall (state_holds P) initial.
Proof.
  unfold initial_states.
  assert (Hgen : forall ds acc,
    (forall d, d ∈ ds -> d ∈ finishing) ->
    Forall (state_holds P) acc ->
    Forall (state_holds P)
      (fold_left (fun states driver =>
           JsMap.set states (Driver.driver_number driver)
             (DriverState.mk
                (grid_position qualifyingPositions (Driver.driver_number driver))
                0 0%Q 0 false 0%Q))
         ds acc)).
  { induction ds as [|d ds IH]; intros acc Hds Hacc; simpl; [done|].
    apply IH; [intros d' Hd'; apply Hds; by right|].
    apply Forall_set; [done|]. apply P_initial, Hds. left. }
  by apply Hgen.
Qed.

Lemma invariant_apply_completion (now : Q) states (c : LapCompletion.t) :
  c ∈ completions -> Forall (state_holds P) states ->
  Forall (state_holds P) (apply_completion laps now states c).
Proof.
  intros Hc Hst. unfold apply_completion. destruct (Qle_bool _ _); [|done].
  destruct (JsMap.get states _) as [s|] eqn:Hg; [|done].
  destruct (_ >? _) eqn:Hlap; [|done].
  apply Forall_set; [done|]. unfold state_holds. simpl.
  apply get_Some_elem_of in Hg. rewrite Forall_forall in Hst.
  apply (P_completion c _ _ _ _ Hc (Hst _ Hg)). by apply Z.gtb_lt.
Qed.

Lemma invariant_advance (now : Q) states :
  Forall (state_holds P) states -> Forall (state_holds P) (advance now states).
Proof.
  unfold advance_states.
  assert (Hgen : forall l, (forall c, c ∈ l -> c ∈ completions) ->
    forall st, Forall (state_holds P) st ->
      Forall (state_holds P) (fold_left (apply_completion laps now) l st)).
  { induction l as [|c l IH]; intros Hl st Hst; simpl; [done|].
    apply IH; [intros c' Hc'; apply Hl; by right|].
    apply invariant_apply_completion; [apply Hl; left|done]. }
  by apply Hgen.
Qed.

Lemma invariant_chart_position (now global : Q) states (d : Driver.t) :
  Forall (state_holds P) states ->
  Forall (state_holds P) (chart_position laps now global states d).1
  /\ forall e, (chart_position laps now global states d).2 = Some e -> entry_holds P e.
Proof.
  intros Hst. unfold chart_position.
  destruct (JsMap.get states _) eqn:Hg; simpl; [|done].
  apply get_Some_elem_of in Hg. rewrite Forall_forall in Hst.
  pose proof (Hst _ Hg) as Hk. split.
  - apply Forall_set; [by apply Forall_forall|]. exact Hk.
  - intros e [= <-]. exact Hk.
Qed.

Lemma invariant_map_chart_positions (now global : Q) states (ds : list Driver.t) :
  Forall (state_holds P) states ->
  Forall (state_holds P) (map_chart_positions laps now global states ds).1
  /\ Forall (entry_holds P)
       (filter_Boolean (map_chart_positions laps now global states ds).2).
Proof.
  revert states. induction ds as [|d ds IH]; intros states Hst.
  - simpl. split; [done|constructor].
  - rewrite map_chart_positions_cons. cbv zeta. cbn [fst snd].
    destruct (invariant_chart_position now global states d Hst) as [Hst1 He].
    destruct (chart_position laps now global states d) as [states1 entry].
    cbn [fst snd] in *. destruct (IH states1 Hst1) as [Hst2 Hrest].
    split; [done|]. rewrite filter_Boolean_cons.
    destruct entry as [e|]; [|done]. constructor; [by apply He|done].
Qed.

Lemma frame_state_invariant states (i : Z) :
  Forall (state_holds P) states ->
  Forall (state_holds P) (frame states i).1
  /\ Forall (entry_holds P) (PositionChartData.positions (frame states i).2).
Proof.
  intros Hst.
  rewrite (frame_at_eq now0 now1 drivers positions laps qualifyingPositions raceControl).
  cbv zeta. cbn [fst snd PositionChartData.positions].
  destruct (invariant_map_chart_positions (time i) (globalProgress laps i)
              (advance (time i) states) finishing (invariant_advance (time i) states Hst))
    as [Hst' Hent].
  split; [done|]. apply Forall_forall. intros e He%elem_of_js_sort.
  rewrite Forall_forall in Hent. by apply Hent.
Qed.

Lemma frames_entries_invariant (f : PositionChartData.t) (e : ChartPosition.t) :
  f ∈ frames -> e ∈ PositionChartData.positions f -> entry_holds P e.
Proof.
  intros Hf He.
  assert (H : Forall (fun f => Forall (entry_holds P) (PositionChartData.positions f))
                frames).
  { unfold processRaceData.
    apply (loop_Forall now0 now1 drivers positions laps qualifyingPositions raceControl
             (Forall (state_holds P))); [|apply invariant_initial].
    intros st i Hst. by apply frame_state_invariant. }
  rewrite Forall_forall in H. specialize (H f Hf).
  rewrite Forall_forall in H. by apply H.
Qed.

End StateInvariant.

(** ** Pit stops and the pit flag *)

Lemma is_some_find {A : Type} (f : A -> bool) (l : list A) :
  is_some (List.find f l) = true ↔ exists x, x ∈ l /\ f x = true.
Proof.
  destruct (List.find f l) as [x|] eqn:Hf; simpl.
  - apply find_some in Hf as [Hin Hx]. split; [|done].
    intros _. exists x. by rewrite list_elem_of_In.
  - split; [done|]. intros (x & Hin & Hx). apply list_elem_of_In in Hin.
    apply (find_none _ _ Hf) in Hin. congruence.
Qed.

Lemma completion_lap_bounded (c : LapCompletion.t) :
  c ∈ completions -> LapCompletion.lap_number c <= maxLap laps.
Proof.
  intros (d & Hd & Hc)%elem_of_completions.
  apply push_completions_elem in Hc as (lap & Hlap & _ & _ & -> & _).
  apply elem_of_driverLaps in Hlap as (Hin & _).
  unfold maxLap. apply fold_max_ge_elem.
  by apply list_elem_of_In, in_map, list_elem_of_In.
Qed.

(** X7.  In every frame, the pit stops of an entry are not negative; an
    entry on lap 0 is not in the pit and has no pit stop; an entry on a later
    lap is shown in the pit exactly when a lap record of its car with the
    number of that lap is a pit-out lap, and then it has at least one pit
    stop. *)
Theorem pit_flag_follows_current_lap (f : PositionChartData.t) (e : ChartPosition.t) :
  f ∈ frames -> e ∈ PositionChartData.positions f ->
  0 <= ChartPosition.pit_stops e
  /\ (ChartPosition.current_lap_number e = 0 ->
      ChartPosition.is_in_pit e = false /\ ChartPosition.pit_stops e = 0)
  /\ (ChartPosition.current_lap_number e ≠ 0 ->
      (ChartPosition.is_in_pit e = true
       ↔ exists lap, lap ∈ laps
           /\ Lap.driver_number lap = ChartPosition.driver_number e
           /\ Lap.lap_number lap = ChartPosition.current_lap_number e
           /\ Lap.is_pit_out_lap lap = true))
  /\ (ChartPosition.is_in_pit e = true -> 1 <= ChartPosition.pit_stops e).
Proof.
  intros Hf He.
  set (P := fun (k p l s : Z) (b : bool) =>
       0 <= l /\ 0 <= s /\ (b = true -> 1 <= s)
       /\ (l = 0 -> b = false /\ s = 0)
       /\ (l ≠ 0 ->
           b = is_some (List.find (fun lap =>
                   (Lap.driver_number lap =? k) && (Lap.lap_number lap =? l)
                   && Lap.is_pit_out_lap lap) laps))).
  assert (Hinv : entry_holds P e).
  { apply (frames_entries_invariant P) with (f := f); [| |done|done].
    - intros d _. unfold P. repeat split; (lia || done).
    - intros c p l s b Hc (Hl & Hs & Hb & H0 & Hn) Hlt pitLap. unfold P.
      split; [lia|]. split; [destruct (is_some pitLap); lia|].
      split; [intros Hp; rewrite Hp; lia|]. split; [lia|]. done. }
  destruct Hinv as (Hl & Hs & Hb & H0 & Hn).
  split; [done|]. split; [done|]. split; [|done].
  intros Hlap. rewrite (Hn Hlap), is_some_find. split.
  - intros (lap & Hin & [[Hd%Z.eqb_eq Hk%Z.eqb_eq]%andb_prop Hp]%andb_prop).
    by exists lap.
  - intros (lap & Hin & Hd & Hk & Hp). exists lap. split; [done|].
    by rewrite (proj2 (Z.eqb_eq _ _) Hd), (proj2 (Z.eqb_eq _ _) Hk), Hp.
Qed.

(** ** Fields that a frame copies from the states *)

Section Field.
Context (proj : DriverState.t -> Z).
Hypothesis proj_baseline :
  forall p l c s b x y,
    proj (DriverState.mk p l c s b x) = proj (DriverState.mk p l c s b y).

Lemma field_chart_position (now global : Q) states (d : Driver.t) n :
  field_of proj (chart_position laps now global states d).1 n = field_of proj states n.
Proof.
  unfold chart_position. destruct (JsMap.get states _) as [s|] eqn:Hg; simpl; [|done].
  unfold field_of. destruct (decide (Driver.driver_number d = n)) as [<-|Hne].
  - rewrite get_set_eq, Hg. destruct s. apply proj_baseline.
  - by rewrite get_set_ne.
Qed.

Lemma field_map_chart_positions (now global : Q) states (ds : list Driver.t) n :
  field_of proj (map_chart_positions laps now global states ds).1 n
  = field_of proj states n.
Proof.
  revert states. induction ds as [|d ds IH]; intros states; [done|].
  rewrite map_chart_positions_cons. cbv zeta. cbn [fst].
  by rewrite IH, field_chart_position.
Qed.

End Field.

Lemma entry_chart_position (now global : Q) states (d : Driver.t) (e : ChartPosition.t) :
  (chart_position laps now global states d).2 = Some e ->
  ChartPosition.current_lap_number e
  = field_of DriverState.lap_number states (ChartPosition.driver_number e)
  /\ ChartPosition.pit_stops e
     = field_of DriverState.pit_stops states (ChartPosition.driver_number e).
Proof.
  unfold chart_position. destruct (JsMap.get states _) as [s|] eqn:Hg; simpl; [|done].
  intros [= <-]. simpl. unfold field_of. by rewrite Hg.
Qed.

Lemma entries_map_chart_positions (now global : Q) states (ds : list Driver.t) :
  Forall (fun e =>
      ChartPosition.current_lap_number e
      = field_of DriverState.lap_number states (ChartPosition.driver_number e)
      /\ ChartPosition.pit_stops e
         = field_of DriverState.pit_stops states (ChartPosition.driver_number e))
    (filter_Boolean (map_chart_positions laps now global states ds).2).
Proof.
  revert states. induction ds as [|d ds IH]; intros states; [constructor|].
  rewrite map_chart_positions_cons. cbv zeta. cbn [snd].
  rewrite filter_Boolean_cons.
  pose proof (entry_chart_position now global states d) as He.
  assert (Hrest : Forall (fun e =>
      ChartPosition.current_lap_number e
      = field_of DriverState.lap_number states (ChartPosition.driver_number e)
      /\ ChartPosition.pit_stops e
         = field_of DriverState.pit_stops states (ChartPosition.driver_number e))
    (filter_Boolean
       (map_chart_positions laps now global
          (chart_position laps now global states d).1 ds).2)).
  { eapply Forall_impl; [apply IH|]. intros e. cbv beta.
    by rewrite !field_chart_position. }
  destruct (chart_position laps now global states d).2 as [e|]; [|done].
  constructor; [by apply He|done].
Qed.

Lemma entries_frame states (i : Z) (e : ChartPosition.t) :
  e ∈ PositionChartData.positions (frame states i).2 ->
  ChartPosition.current_lap_number e
  = field_of DriverState.lap_number (frame states i).1 (ChartPosition.driver_number e)
  /\ ChartPosition.pit_stops e
     = field_of DriverState.pit_stops (frame states i).1 (ChartPosition.driver_number e).
Proof.
  rewrite (frame_at_eq now0 now1 drivers positions laps qualifyingPositions raceControl).
  cbv zeta. cbn [fst snd PositionChartData.positions].
  intros He%elem_of_js_sort. rewrite !field_map_chart_positions by done.
  pose proof (entries_map_chart_positions (time i) (globalProgress laps i)
                (advance (time i) states) finishing) as H.
  rewrite Forall_forall in H. by apply H.
Qed.

(** ** The states only move on *)

Lemma advanced_refl states : advanced states states.
Proof. apply Forall_Forall2_diag, Forall_forall. intros x _. repeat split; lia. Qed.

Lemma advanced_trans states1 states2 states3 :
  advanced states1 states2 -> advanced states2 states3 -> advanced states1 states3.
Proof.
  unfold advanced. intros H12. revert states3.
  induction H12 as [|x y l1 l2 (Hk & Hl & Hs) _ IH]; intros states3 H23.
  - by inversion H23.
  - inversion H23 as [|y' z l2' l3 (Hk' & Hl' & Hs') H23']; subst.
    constructor; [|by apply IH]. repeat split; [congruence|lia|lia].
Qed.

Lemma advanced_set states k (old new : DriverState.t) :
  JsMap.get states k = Some old ->
  DriverState.lap_number old <= DriverState.lap_number new ->
  DriverState.pit_stops old <= DriverState.pit_stops new ->
  advanced states (JsMap.set states k new).
Proof.
  intros Hg Hl Hs. induction states as [|[k' v'] states IH]; simpl in *; [done|].
  destruct (decide (k' = k)) as [->|Hne].
  - injection Hg as ->. constructor; [by repeat split|apply advanced_refl].
  - constructor; [repeat split; simpl; lia|by apply IH].
Qed.

Lemma advanced_apply_completion (now : Q) states (c : LapCompletion.t) :
  advanced states (apply_completion laps now states c).
Proof.
  unfold apply_completion. destruct (Qle_bool _ _); [|apply advanced_refl].
  destruct (JsMap.get states _) as [s|] eqn:Hg; [|apply advanced_refl].
  destruct (_ >? _) eqn:Hlap; [|apply advanced_refl].
  apply Z.gtb_lt in Hlap. eapply advanced_set; [exact Hg|simpl; lia|].
  simpl. destruct (is_some _); lia.
Qed.

Lemma advanced_advance (now : Q) states : advanced states (advance now states).
Proof.
  unfold advance_states. revert states.
  induction completions as [|c l IH]; intros states; simpl; [apply advanced_refl|].
  eapply advanced_trans; [apply advanced_apply_completion|apply IH].
Qed.

Lemma advanced_chart_position (now global : Q) states (d : Driver.t) :
  advanced states (chart_position laps now global states d).1.
Proof.
  unfold chart_position. destruct (JsMap.get states _) as [s|] eqn:Hg; simpl;
    [|apply advanced_refl].
  eapply advanced_set; [exact Hg|simpl; lia..].
Qed.

Lemma advanced_map_chart_positions (now global : Q) states (ds : list Driver.t) :
  advanced states (map_chart_positions laps now global states ds).1.
Proof.
  revert states. induction ds as [|d ds IH]; intros states; [apply advanced_refl|].
  rewrite map_chart_positions_cons. cbv zeta. cbn [fst].
  eapply advanced_trans; [apply advanced_chart_position|apply IH].
Qed.

Lemma advanced_frame states (i : Z) : advanced states (frame states i).1.
Proof.
  rewrite (frame_at_eq now0 now1 drivers positions laps qualifyingPositions raceControl).
  cbv zeta. cbn [fst].
  eapply advanced_trans; [apply advanced_advance|apply advanced_map_chart_positions].
Qed.

Lemma advanced_field states1 states2 n :
  advanced states1 states2 ->
  field_of DriverState.lap_number states1 n <= field_of DriverState.lap_number states2 n
  /\ field_of DriverState.pit_stops states1 n <= field_of DriverState.pit_stops states2 n.
Proof.
  unfold field_of. induction 1 as [|[k1 s1] [k2 s2] l1 l2 (Hk & Hl & Hs) _ IH]; simpl;
    [lia|].
  simpl in Hk. subst k2. by destruct (decide (k1 = n)).
Qed.

Lemma advanced_lap_max states1 states2 :
  advanced states1 states2 ->
  fold_right Z.max 1 (List.map (fun e => DriverState.lap_number e.2) states1)
  <= fold_right Z.max 1 (List.map (fun e => DriverState.lap_number e.2) states2).
Proof.
  induction 1 as [|x y l1 l2 (Hk & Hl & Hs) _ IH]; simpl; lia.
Qed.

(** ** Lap counters *)

Lemma states_laps_bounded states (i : Z) :
  Forall (state_holds (fun _ _ l _ _ => 0 <= l <= maxLap laps)) states ->
  Forall (state_holds (fun _ _ l _ _ => 0 <= l <= maxLap laps)) (frame states i).1.
Proof.
  intros Hst. apply frame_state_invariant; [|done].
  intros c p l s b Hc Hl Hlt pitLap. cbv beta.
  pose proof (completion_lap_bounded c Hc). lia.
Qed.

Lemma frame_lapNumber states (i : Z) :
  PositionChartData.lapNumber (frame states i).2
  = fold_right Z.max 1 (List.map (fun e => DriverState.lap_number e.2) (frame states i).1).
Proof.
  by rewrite (frame_at_eq now0 now1 drivers positions laps qualifyingPositions raceControl).
Qed.

Lemma field_le_lap_max states n :
  Forall (state_holds (fun _ _ l _ _ => 0 <= l <= maxLap laps)) states ->
  0 <= field_of DriverState.lap_number states n
       <= fold_right Z.max 1 (List.map (fun e => DriverState.lap_number e.2) states).
Proof.
  intros Hst. unfold field_of. destruct (JsMap.get states n) as [s|] eqn:Hg.
  - apply get_Some_elem_of in Hg. rewrite Forall_forall in Hst.
    destruct (Hst _ Hg) as [H0 _]. simpl in H0. split; [done|].
    apply fold_max_ge_elem.
    apply list_elem_of_In, in_map_iff. exists (n, s). by rewrite <- list_elem_of_In.
  - pose proof (fold_max_ge_base 1
      (List.map (fun e : Z * DriverState.t => DriverState.lap_number e.2) states)). lia.
Qed.

Lemma loop_lap_sorted states (indices : list Z) :
  StronglySorted Z.le (List.map PositionChartData.lapNumber (loop states indices))
  /\ Forall (fun f =>
        fold_right Z.max 1 (List.map (fun e => DriverState.lap_number e.2) states)
        <= PositionChartData.lapNumber f)
       (loop states indices).
Proof.
  revert states. induction indices as [|i indices IH]; intros states.
  - simpl. split; constructor.
  - rewrite (loop_cons now0 now1 drivers positions laps qualifyingPositions raceControl).
    destruct (IH (frame states i).1) as [Hs Hall]. simpl.
    pose proof (advanced_lap_max _ _ (advanced_frame states i)) as Hstep.
    rewrite <- frame_lapNumber in Hstep, Hall. split.
    + constructor; [done|]. by rewrite Forall_map.
    + constructor; [done|]. eapply Forall_impl; [exact Hall|]. cbv beta. lia.
Qed.

Lemma frames_lap_bounds (f : PositionChartData.t) :
  f ∈ frames ->
  PositionChartData.totalLaps f = maxLap laps
  /\ 1 <= PositionChartData.lapNumber f <= PositionChartData.totalLaps f
  /\ forall e, e ∈ PositionChartData.positions f ->
       0 <= ChartPosition.current_lap_number e <= PositionChartData.lapNumber f.
Proof.
  revert f. apply Forall_forall. unfold processRaceData.
  apply (loop_Forall now0 now1 drivers positions laps qualifyingPositions raceControl
           (Forall (state_holds (fun _ _ l _ _ => 0 <= l <= maxLap laps)))).
  - intros st i Hst. pose proof (states_laps_bounded st i Hst) as Hst'.
    split; [done|]. split; [|split].
    + by rewrite (frame_at_eq now0 now1 drivers positions laps qualifyingPositions
                    raceControl).
    + replace (PositionChartData.totalLaps (frame st i).2) with (maxLap laps)
        by (by rewrite (frame_at_eq now0 now1 drivers positions laps
                          qualifyingPositions raceControl)).
      rewrite frame_lapNumber. split; [apply fold_max_ge_base|].
      apply fold_max_le; [apply (maxLap_ge_1 laps)|].
      intros x ([k s] & <- & Hin%list_elem_of_In)%list_elem_of_In%in_map_iff.
      rewrite Forall_forall in Hst'. destruct (Hst' _ Hin) as [_ Hle]. exact Hle.
    + intros e He. destruct (entries_frame st i e He) as [-> _].
      rewrite frame_lapNumber. by apply field_le_lap_max.
  - apply invariant_initial. intros d _. cbv beta. pose proof (maxLap_ge_1 laps). lia.
Qed.

Lemma frames_lap_sorted :
  StronglySorted Z.le (List.map PositionChartData.lapNumber frames).
Proof. apply loop_lap_sorted. Qed.

(** X8.  Every frame carries the same [totalLaps], the highest lap number
    of the lap records (at least 1); its [lapNumber] lies between 1 and
    [totalLaps], no entry of the frame is on a later lap than [lapNumber],
    and along the frames [lapNumber] never decreases. *)
Theorem frame_lap_counters :
  StronglySorted Z.le (List.map PositionChartData.lapNumber frames)
  /\ forall f, f ∈ frames ->
       PositionChartData.totalLaps f = maxLap laps
       /\ 1 <= PositionChartData.lapNumber f <= PositionChartData.totalLaps f
       /\ forall e, e ∈ PositionChartData.positions f ->
            0 <= ChartPosition.current_lap_number e <= PositionChartData.lapNumber f.
Proof. split; [apply frames_lap_sorted|apply frames_lap_bounds]. Qed.

Lemma loop_laps_monotone states (indices : list Z) (k : nat)
    (f g : PositionChartData.t) (a b : ChartPosition.t) :
  loop states indices !! k = Some f ->
  loop states indices !! S k = Some g ->
  a ∈ PositionChartData.positions f ->
  b ∈ PositionChartData.positions g ->
  ChartPosition.driver_number a = ChartPosition.driver_number b ->
  ChartPosition.current_lap_number a <= ChartPosition.current_lap_number b
  /\ ChartPosition.pit_stops a <= ChartPosition.pit_stops b.
Proof.
  revert states k. induction indices as [|i indices IH]; intros states k; [done|].
  rewrite (loop_cons now0 now1 drivers positions laps qualifyingPositions raceControl).
  destruct k as [|k]; simpl.
  - intros [= <-] Hg Ha Hb Hab. destruct indices as [|j indices]; [done|].
    rewrite (loop_cons now0 now1 drivers positions laps qualifyingPositions raceControl)
      in Hg.
    injection Hg as <-.
    destruct (entries_frame states i a Ha) as [-> ->].
    destruct (entries_frame (frame states i).1 j b Hb) as [-> ->].
    rewrite Hab. apply advanced_field, advanced_frame.
  - apply IH.
Qed.

(** X9.  From a frame to the next one, neither the lap number nor the
    number of pit stops of a driver decreases. *)
Theorem laps_and_pit_stops_never_decrease (i : nat) (f g : PositionChartData.t)
    (a b : ChartPosition.t) :
  frames !! i = Some f -> frames !! S i = Some g ->
  a ∈ PositionChartData.positions f -> b ∈ PositionChartData.positions g ->
  ChartPosition.driver_number a = ChartPosition.driver_number b ->
  ChartPosition.current_lap_number a <= ChartPosition.current_lap_number b
  /\ ChartPosition.pit_stops a <= ChartPosition.pit_stops b.
Proof. apply loop_laps_monotone. Qed.

(** ** Progress stays on the track *)

Lemma globalProgress_bounds (i : Z) :
  0 <= i <= timeIntervals laps -> (0 <= globalProgress laps i <= 1)%Q.
Proof.
  intros Hi. pose proof (timeIntervals_ge_2 laps) as Hn.
  unfold globalProgress, raceProgressPerFrame.
  assert (Hpos : (0 < inject_Z (timeIntervals laps))%Q).
  { change 0%Q with (inject_Z 0). rewrite <- Zlt_Qlt. lia. }
  assert (Hi0 : (0 <= inject_Z i)%Q).
  { change 0%Q with (inject_Z 0). rewrite <- Zle_Qle. lia. }
  assert (Hin : (inject_Z i <= inject_Z (timeIntervals laps))%Q).
  { rewrite <- Zle_Qle. lia. }
  assert (Heq : (inject_Z i * (1 / inject_Z (timeIntervals laps))
                 == inject_Z i / inject_Z (timeIntervals laps))%Q).
  { field. intros H0. rewrite H0 in Hpos. by apply Qlt_irrefl in Hpos. }
  rewrite Heq. split.
  - apply Qle_shift_div_l; [done|]. by rewrite Qmult_0_l.
  - apply Qle_shift_div_r; [done|]. by rewrite Qmult_1_l.
Qed.

Lemma computed_progress_le_1 (global : Q) (s : DriverState.t) :
  (0 <= global <= 1)%Q -> (computed_progress laps global s <= 1)%Q.
Proof.
  intros [H0 H1]. unfold computed_progress.
  assert (Hscale : forall c : Q, (0 <= c)%Q -> (c <= 1)%Q -> (global * c <= 1)%Q).
  { intros c Hc0 Hc1. apply Qle_trans with (1 * c)%Q.
    - by apply Qmult_le_compat_r.
    - by rewrite Qmult_1_l. }
  destruct (_ >? 0).
  - apply Q.max_lub; [apply Q.le_min_r|]. apply Hscale; unfold Qle; simpl; lia.
  - apply Q.max_lub; [apply Hscale|]; unfold Qle; simpl; lia.
Qed.

Lemma baseline_le_1_chart_position (now global : Q) states (d : Driver.t) :
  (0 <= global <= 1)%Q ->
  (forall n, (baseline_of states n <= 1)%Q) ->
  forall n, (baseline_of (chart_position laps now global states d).1 n <= 1)%Q.
Proof.
  intros Hg Hst n. unfold chart_position.
  destruct (JsMap.get states _) as [s|] eqn:Hget; simpl; [|apply Hst].
  unfold baseline_of. destruct (decide (Driver.driver_number d = n)) as [<-|Hne].
  - rewrite get_set_eq. simpl. apply Q.max_lub; [|by apply computed_progress_le_1].
    specialize (Hst (Driver.driver_number d)). unfold baseline_of in Hst.
    by rewrite Hget in Hst.
  - rewrite get_set_ne by done. apply Hst.
Qed.

Lemma baseline_le_1_map_chart_positions (now global : Q) states (ds : list Driver.t) :
  (0 <= global <= 1)%Q ->
  (forall n, (baseline_of states n <= 1)%Q) ->
  forall n, (baseline_of (map_chart_positions laps now global states ds).1 n <= 1)%Q.
Proof.
  intros Hg. revert states. induction ds as [|d ds IH]; intros states Hst; [done|].
  rewrite map_chart_positions_cons. cbv zeta. cbn [fst].
  apply IH. by apply baseline_le_1_chart_position.
Qed.

(** X10.  The progress of every entry of every frame is at most 1. *)
Theorem progress_at_most_one (f : PositionChartData.t) (e : ChartPosition.t) :
  f ∈ frames -> e ∈ PositionChartData.positions f ->
  (ChartPosition.progress e <= 1)%Q.
Proof.
  revert f e.
  assert (H : Forall (fun f => forall e, e ∈ PositionChartData.positions f ->
                        (ChartPosition.progress e <= 1)%Q) frames).
  { apply (frames_Forall_index (fun st => forall n, (baseline_of st n <= 1)%Q)).
    - intros st i Hi Hst.
      assert (Hst' : forall n, (baseline_of (frame st i).1 n <= 1)%Q).
      { rewrite (frame_at_eq now0 now1 drivers positions laps qualifyingPositions
                   raceControl). cbv zeta. cbn [fst].
        apply baseline_le_1_map_chart_positions; [by apply globalProgress_bounds|].
        intros n. by rewrite (baseline_advance drivers positions laps). }
      split; [done|]. intros e He.
      destruct (progress_frame now0 now1 drivers positions laps qualifyingPositions
                  raceControl st i) as [_ Hb].
      destruct (Hb e He) as [_ Hhi]. eapply Qle_trans; [exact Hhi|].
      apply Q.max_lub; [apply Hst'|]. unfold Qle; simpl; lia.
    - intros n. unfold baseline_of.
      destruct (JsMap.get initial n) as [s|] eqn:Hg; [|unfold Qle; simpl; lia].
      apply get_Some_elem_of in Hg.
      assert (Hz : Forall (fun x : Z * DriverState.t =>
                      DriverState.baseline_progress x.2 = 0%Q) initial).
      { unfold initial_states.
        assert (Hgen : forall ds acc,
          Forall (fun x : Z * DriverState.t =>
                    DriverState.baseline_progress x.2 = 0%Q) acc ->
          Forall (fun x : Z * DriverState.t =>
                    DriverState.baseline_progress x.2 = 0%Q)
            (fold_left (fun states driver =>
                 JsMap.set states (Driver.driver_number driver)
                   (DriverState.mk
                      (grid_position qualifyingPositions (Driver.driver_number driver))
                      0 0%Q 0 false 0%Q))
               ds acc)).
        { induction ds as [|d ds IH]; intros acc Hacc; simpl; [done|].
          apply IH. by apply Forall_set. }
        apply Hgen. constructor. }
      rewrite Forall_forall in Hz. specialize (Hz _ Hg). simpl in Hz. rewrite Hz.
      unfold Qle; simpl; lia. }
  rewrite Forall_forall in H. intros f e Hf. by apply H.
Qed.

(** ** The lap a frame shows *)

Lemma loop_seqZ (J : Z -> list (Z * DriverState.t) -> Prop)
    (Q : Z -> PositionChartData.t -> Prop) (len : nat) (a : Z) states :
  (forall st i, a <= i < a + Z.of_nat len -> J i st ->
     J (i + 1) (frame st i).1 /\ Q i (frame st i).2) ->
  J a states ->
  Forall2 Q (seqZ a (Z.of_nat len)) (loop states (seqZ a (Z.of_nat len))).
Proof.
  revert a states. induction len as [|len IH]; intros a states Hstep HJ; [constructor|].
  rewrite seqZ_cons by lia.
  replace (Z.pred (Z.of_nat (S len))) with (Z.of_nat len) by lia.
  rewrite (loop_cons now0 now1 drivers positions laps qualifyingPositions raceControl).
  destruct (Hstep states a) as [HJ' HQ]; [lia|done|].
  constructor; [done|]. apply IH; [|done].
  intros st i Hi. apply Hstep. lia.
Qed.

Lemma field_apply_completion_other (now : Q) states (c : LapCompletion.t) n :
  LapCompletion.driver_number c ≠ n ->
  field_of DriverState.lap_number (apply_completion laps now states c) n
  = field_of DriverState.lap_number states n.
Proof.
  intros Hne. unfold apply_completion. destruct (Qle_bool _ _); [|done].
  destruct (JsMap.get states _) as [s|] eqn:Hg; [|done].
  destruct (_ >? _); [|done]. unfold field_of. by rewrite get_set_ne.
Qed.

Lemma field_apply_completion_this (now : Q) states (c : LapCompletion.t) :
  Qle_bool (inject_Z (LapCompletion.timestamp c)) now = true ->
  LapCompletion.driver_number c ∈ List.map fst states ->
  field_of DriverState.lap_number (apply_completion laps now states c)
    (LapCompletion.driver_number c)
  = Z.max (field_of DriverState.lap_number states (LapCompletion.driver_number c))
      (LapCompletion.lap_number c).
Proof.
  intros Ht Hk. unfold apply_completion. rewrite Ht. unfold field_of.
  destruct (JsMap.get states _) as [s|] eqn:Hg.
  - destruct (_ >? _) eqn:Hlap.
    + apply Z.gtb_lt in Hlap. rewrite get_set_eq. simpl. lia.
    + rewrite Hg. destruct (Z.gtb_spec (LapCompletion.lap_number c)
                              (DriverState.lap_number s)); [done|lia].
  - apply get_None_keys in Hg. by destruct Hg.
Qed.

Lemma field_apply_completion_late (now : Q) states (c : LapCompletion.t) n :
  Qle_bool (inject_Z (LapCompletion.timestamp c)) now = false ->
  field_of DriverState.lap_number (apply_completion laps now states c) n
  = field_of DriverState.lap_number states n.
Proof. intros Ht. unfold apply_completion. by rewrite Ht. Qed.

(** What the [forEach] over the completions leaves as the lap of a car that
    has a state. *)
Lemma field_fold_completions (now : Q) (cs : list LapCompletion.t) states n :
  n ∈ List.map fst states ->
  0 <= field_of DriverState.lap_number states n ->
  field_of DriverState.lap_number (fold_left (apply_completion laps now) cs states) n
  = Z.max (field_of DriverState.lap_number states n) (laps_done_by cs n now).
Proof.
  unfold laps_done_by. revert states.
  induction cs as [|c cs IH]; intros states Hk H0; simpl; [lia|].
  rewrite IH; [|by rewrite keys_apply_completion|].
  - destruct (Z.eqb_spec (LapCompletion.driver_number c) n) as [<-|Hne]; simpl.
    + destruct (Qle_bool _ _) eqn:Ht; simpl.
      * rewrite field_apply_completion_this by done. lia.
      * by rewrite field_apply_completion_late.
    + by rewrite field_apply_completion_other.
  - destruct (decide (LapCompletion.driver_number c = n)) as [<-|Hne].
    + destruct (Qle_bool (inject_Z (LapCompletion.timestamp c)) now) eqn:Ht.
      * rewrite field_apply_completion_this by done. lia.
      * by rewrite field_apply_completion_late.
    + by rewrite field_apply_completion_other.
Qed.

Lemma laps_done_by_nonneg (cs : list LapCompletion.t) n (now : Q) :
  0 <= laps_done_by cs n now.
Proof. apply fold_max_ge_base. Qed.

Lemma laps_done_by_mono (cs : list LapCompletion.t) n (t1 t2 : Q) :
  (t1 <= t2)%Q -> laps_done_by cs n t1 <= laps_done_by cs n t2.
Proof.
  intros Ht. unfold laps_done_by. apply fold_max_le; [apply fold_max_ge_base|].
  intros x (c & <- & Hc)%list_elem_of_In%in_map_iff.
  apply filter_In in Hc as [Hin [Hd Hts]%andb_prop].
  apply fold_max_ge_elem, list_elem_of_In, in_map, filter_In. split; [done|].
  rewrite Hd. simpl. apply Qle_bool_iff. apply Qle_bool_iff in Hts.
  by apply Qle_trans with t1.
Qed.

Lemma sorted_le_last (l : list Z) (x y : Z) :
  StronglySorted Z.le l -> x ∈ l -> last l = Some y -> x <= y.
Proof.
  intros Hs. induction Hs as [|z l Hs IH Hall]; [by intros ?%elem_of_nil|].
  intros Hx Hy. destruct l as [|z' l].
  - simpl in Hy. injection Hy as <-. apply list_elem_of_singleton in Hx. lia.
  - change (last (z :: z' :: l)) with (last (z' :: l)) in Hy.
    apply elem_of_cons in Hx as [->|Hx]; [|by apply IH].
    rewrite Forall_forall in Hall. apply Hall.
    rewrite last_lookup in Hy. by apply list_elem_of_lookup_2 in Hy.
Qed.

Lemma last_map {A B : Type} (f : A -> B) (l : list A) :
  last (List.map f l) = f <$> last l.
Proof.
  induction l as [|x [|y l] IH]; [done..|].
  change (last (List.map f (x :: y :: l))) with (last (List.map f (y :: l))).
  by rewrite IH.
Qed.

Lemma start_before_end :
  completions ≠ [] ->
  startTime now0 drivers positions laps qualifyingPositions
  <= endTime now1 drivers positions laps qualifyingPositions.
Proof.
  intros Hne. unfold startTime, endTime. pose proof completions_sorted as Hs.
  specialize (Hs drivers positions laps qualifyingPositions).
  destruct completions as [|c cs] eqn:Hcs; [done|].
  destruct (last (c :: cs)) as [z|] eqn:Hlast.
  - apply (sorted_le_last _ _ _ Hs); [simpl; left|].
    by rewrite last_map, Hlast.
  - by apply last_None in Hlast.
Qed.

Lemma time_mono (i j : Z) : completions ≠ [] -> i <= j -> (time i <= time j)%Q.
Proof.
  intros Hne Hij.
  apply (time_nondecreasing now0 now1 drivers positions laps qualifyingPositions);
    [by apply start_before_end|done].
Qed.

Lemma laps_done_by_step n (i : Z) :
  laps_done_by completions n (time (i - 1)) <= laps_done_by completions n (time i).
Proof.
  destruct (decide (completions = [])) as [Hnil|Hne].
  - rewrite Hnil. done.
  - apply laps_done_by_mono, time_mono; [done|lia].
Qed.

Lemma field_frame states (i : Z) n :
  field_of DriverState.lap_number (frame states i).1 n
  = field_of DriverState.lap_number (advance (time i) states) n.
Proof.
  rewrite (frame_at_eq now0 now1 drivers positions laps qualifyingPositions raceControl).
  cbv zeta. cbn [fst]. by apply field_map_chart_positions.
Qed.

Lemma frame_lap_shown states (i : Z) :
  covered drivers laps states ->
  (forall n, 0 <= field_of DriverState.lap_number states n
             <= laps_done_by completions n (time (i - 1))) ->
  (forall n, 0 <= field_of DriverState.lap_number (frame states i).1 n
             <= laps_done_by completions n (time i))
  /\ forall e, e ∈ PositionChartData.positions (frame states i).2 ->
       ChartPosition.current_lap_number e
       = laps_done_by completions (ChartPosition.driver_number e) (time i).
Proof.
  intros Hcov Hst.
  assert (Hkey : forall n, n ∈ List.map fst states ->
            field_of DriverState.lap_number (frame states i).1 n
            = laps_done_by completions n (time i)).
  { intros n Hn. rewrite field_frame. unfold advance_states.
    rewrite field_fold_completions; [|done|apply Hst].
    pose proof (Hst n). pose proof (laps_done_by_step n i). lia. }
  split.
  - intros n. destruct (decide (n ∈ List.map fst states)) as [Hn|Hn].
    + rewrite (Hkey n Hn). split; [apply laps_done_by_nonneg|done].
    + assert (Hnone : JsMap.get (frame states i).1 n = None).
      { destruct (JsMap.get (frame states i).1 n) as [s|] eqn:Hg; [|done].
        apply get_Some_elem_of in Hg. destruct Hn.
        rewrite <- (keys_frame now0 now1 drivers positions laps qualifyingPositions
                      raceControl states i).
        apply list_elem_of_In, in_map_iff. exists (n, s).
        by rewrite <- list_elem_of_In. }
      unfold field_of at 1 2. rewrite Hnone.
      split; [done|apply laps_done_by_nonneg].
  - intros e He. destruct (entries_frame states i e He) as [-> _].
    apply Hkey.
    pose proof (frame_numbers now0 now1 drivers positions laps qualifyingPositions
                  raceControl states i Hcov) as Hperm.
    assert (Hin : ChartPosition.driver_number e
                  ∈ List.map Driver.driver_number finishing).
    { rewrite <- Hperm. apply list_elem_of_In, in_map. by apply list_elem_of_In. }
    apply list_elem_of_In, in_map_iff in Hin as (d & <- & Hd%list_elem_of_In).
    by apply Hcov.
Qed.

Lemma initial_laps n : field_of DriverState.lap_number initial n = 0.
Proof.
  unfold field_of. destruct (JsMap.get initial n) as [s|] eqn:Hg; [|done].
  apply get_Some_elem_of in Hg.
  pose proof (invariant_initial (fun _ _ l _ _ => l = 0) (fun _ _ => eq_refl)) as H.
  rewrite Forall_forall in H. apply (H _ Hg).
Qed.

Lemma frames_lap_shown :
  Forall2 (fun i f => forall e, e ∈ PositionChartData.positions f ->
      ChartPosition.current_lap_number e
      = laps_done_by completions (ChartPosition.driver_number e) (time i))
    (seqZ 0 (timeIntervals laps + 1)) frames.
Proof.
  unfold processRaceData. pose proof (timeIntervals_ge_2 laps) as Hn.
  rewrite <- (Z2Nat.id (timeIntervals laps + 1)) by lia.
  apply (loop_seqZ (fun i st =>
           covered drivers laps st
           /\ forall n, 0 <= field_of DriverState.lap_number st n
                        <= laps_done_by completions n (time (i - 1)))).
  - intros st i _ [Hcov Hst].
    destruct (frame_lap_shown st i Hcov Hst) as [Hst' He].
    split; [|done]. split.
    + by apply (covered_frame now0 now1 drivers positions laps qualifyingPositions
                  raceControl).
    + replace (i + 1 - 1) with i by lia. done.
  - split; [apply covered_initial|].
    intros n. rewrite initial_laps. split; [done|apply laps_done_by_nonneg].
Qed.

(** X11.  In the frame of index [i], the lap number of every entry is the
    highest lap number among the lap completions of its car that are stamped
    no later than the time of the frame (0 when there is none yet). *)
Theorem frame_shows_laps_done (i : nat) (f : PositionChartData.t) (e : ChartPosition.t) :
  frames !! i = Some f -> e ∈ PositionChartData.positions f ->
  ChartPosition.current_lap_number e
  = laps_done_by completions (ChartPosition.driver_number e) (time (Z.of_nat i)).
Proof.
  intros Hf He.
  destruct (Forall2_lookup_r _ _ _ _ _ frames_lap_shown Hf) as (j & Hj & Hshown).
  apply lookup_seqZ in Hj as [-> _]. rewrite Z.add_0_l in Hshown. by apply Hshown.
Qed.

(** The last frame reaches [endTime] when the window is a multiple of the
    number of intervals. *)
Lemma reaches_end_exact :
  (timeIntervals laps
   | endTime now1 drivers positions laps qualifyingPositions
     - startTime now0 drivers positions laps qualifyingPositions) ->
  Z.abs (startTime now0 drivers positions laps qualifyingPositions) <= 2 ^ 53 ->
  Z.abs (endTime now1 drivers positions laps qualifyingPositions) <= 2 ^ 53 ->
  Z.abs (endTime now1 drivers positions laps qualifyingPositions
         - startTime now0 drivers positions laps qualifyingPositions) <= 2 ^ 53 ->
  reaches_end = true.
Proof.
  intros Hdiv H0 H1 HD. apply Qle_bool_iff.
  rewrite (time_last_exact now0 now1 drivers positions laps qualifyingPositions
             Hdiv H0 H1 HD).
  apply Qle_refl.
Qed.

Lemma completions_before_end (c : LapCompletion.t) :
  reaches_end = true ->
  c ∈ completions ->
  Qle_bool (inject_Z (LapCompletion.timestamp c)) (time (timeIntervals laps)) = true.
Proof.
  intros Hend%Qle_bool_iff Hc. apply Qle_bool_iff.
  eapply Qle_trans; [|exact Hend].
  rewrite <- Zle_Qle. unfold endTime.
  destruct (last completions) as [z|] eqn:Hlast.
  - apply (sorted_le_last (List.map LapCompletion.timestamp completions)).
    + apply completions_sorted.
    + by apply list_elem_of_In, in_map, list_elem_of_In.
    + by rewrite last_map, Hlast.
  - apply last_None in Hlast. rewrite Hlast in Hc. by apply elem_of_nil in Hc.
Qed.

(** The laps done by a car never exceed its last lap with a duration. *)
Lemma laps_done_le_last (d : Driver.t) (now : Q) :
  laps_done_by completions (Driver.driver_number d) now
  <= last_timed_lap laps (Driver.driver_number d).
Proof.
  unfold laps_done_by, last_timed_lap. apply fold_max_le; [apply fold_max_ge_base|].
  intros x. rewrite list_elem_of_In, in_map_iff.
  intros (c & <- & [Hc [Hk%Z.eqb_eq _]%andb_prop]%filter_In).
  apply list_elem_of_In, elem_of_completions in Hc as (d' & Hd' & Hc).
  apply push_completions_elem in Hc as (lap & Hlap & _ & Hcd & -> & _).
  apply elem_of_driverLaps in Hlap as (Hin & Hld & Htimed).
  apply fold_max_ge_elem, list_elem_of_In, in_map, filter_In.
  split; [by apply list_elem_of_In|].
  rewrite Htimed, andb_true_r. apply Z.eqb_eq. congruence.
Qed.

Lemma laps_done_at_end (d : Driver.t) :
  reaches_end = true ->
  d ∈ finishing ->
  laps_done_by completions (Driver.driver_number d) (time (timeIntervals laps))
  = last_timed_lap laps (Driver.driver_number d).
Proof.
  intros Hend Hd. apply Z.le_antisymm; [apply laps_done_le_last|].
  unfold laps_done_by, last_timed_lap. apply fold_max_le; [apply fold_max_ge_base|].
  intros x. rewrite list_elem_of_In, in_map_iff.
  intros (lap & <- & [Hin [Hk%Z.eqb_eq Htimed]%andb_prop]%filter_In).
  assert (Hlap : lap ∈ driverLaps laps d).
  { apply elem_of_driverLaps. by rewrite <- list_elem_of_In in Hin. }
  destruct (push_completions_lap positions qualifyingPositions d 0%Q _ _ Hlap)
    as (c & Hc & _ & Hcd & Hcl & _).
  assert (Hall : c ∈ completions) by (apply elem_of_completions; by exists d).
  rewrite <- Hcl.
  apply fold_max_ge_elem, list_elem_of_In, in_map, filter_In.
  split; [by apply list_elem_of_In|].
  rewrite (completions_before_end c Hend Hall), andb_true_r. by apply Z.eqb_eq.
Qed.

(** In every frame, a car is at most on its last lap with a duration. *)
Lemma frame_laps_le_last (f : PositionChartData.t) (e : ChartPosition.t) :
  f ∈ frames -> e ∈ PositionChartData.positions f ->
  ChartPosition.current_lap_number e
  <= last_timed_lap laps (ChartPosition.driver_number e).
Proof.
  intros Hf He. pose proof Hf as [i Hi]%list_elem_of_lookup.
  destruct (Forall2_lookup_r _ _ _ _ _ frames_lap_shown Hi) as (j & Hj & Hshown).
  rewrite (Hshown e He).
  assert (Hin : ChartPosition.driver_number e
                ∈ List.map Driver.driver_number finishing).
  { rewrite <- (frames_numbers now0 now1 drivers positions laps qualifyingPositions
                  raceControl f Hf).
    apply list_elem_of_In, in_map. by apply list_elem_of_In. }
  apply list_elem_of_In, in_map_iff in Hin as (d & <- & Hd%list_elem_of_In).
  apply laps_done_le_last.
Qed.

Lemma last_frame_laps (f : PositionChartData.t) (e : ChartPosition.t) :
  reaches_end = true ->
  last frames = Some f -> e ∈ PositionChartData.positions f ->
  ChartPosition.current_lap_number e
  = last_timed_lap laps (ChartPosition.driver_number e).
Proof.
  intros Hend Hf He. rewrite last_lookup in Hf.
  pose proof (timeIntervals_ge_2 laps) as Hn.
  rewrite (frames_length now0 now1 drivers positions laps qualifyingPositions
             raceControl) in Hf.
  replace (Init.Nat.pred (Z.to_nat (timeIntervals laps) + 1))
    with (Z.to_nat (timeIntervals laps)) in Hf by lia.
  destruct (Forall2_lookup_r _ _ _ _ _ frames_lap_shown Hf) as (j & Hj & Hshown).
  apply lookup_seqZ in Hj as [-> _]. rewrite (Hshown e He).
  replace (0 + Z.of_nat (Z.to_nat (timeIntervals laps))) with (timeIntervals laps) by lia.
  assert (Hin : ChartPosition.driver_number e
                ∈ List.map Driver.driver_number finishing).
  { rewrite <- (frames_numbers now0 now1 drivers positions laps qualifyingPositions
                  raceControl f).
    - apply list_elem_of_In, in_map. by apply list_elem_of_In.
    - by eapply list_elem_of_lookup_2. }
  apply list_elem_of_In, in_map_iff in Hin as (d & <- & Hd%list_elem_of_In).
  by apply laps_done_at_end.
Qed.

(** X12.  When the time of the last frame, as the doubles give it, is not
    below [endTime] (the timestamp of the last lap completion), every entry
    of the last frame is on the last lap of its car that has a duration:
    every lap completion has been applied by then. *)
Theorem last_frame_shows_last_lap (f : PositionChartData.t) (e : ChartPosition.t) :
  last_frame_reaches_end now0 now1 drivers positions laps qualifyingPositions = true ->
  last frames = Some f -> e ∈ PositionChartData.positions f ->
  ChartPosition.current_lap_number e
  = last_timed_lap laps (ChartPosition.driver_number e).
Proof. apply last_frame_laps. Qed.

(** ** Where the position of an entry comes from *)

(** X13.  An entry on lap 0 shows the grid position of its car; an entry on
    a later lap shows the position attached to a lap completion of its car
    for that lap. *)
Theorem entry_position_source (f : PositionChartData.t) (e : ChartPosition.t) :
  f ∈ frames -> e ∈ PositionChartData.positions f ->
  (ChartPosition.current_lap_number e = 0 ->
     ChartPosition.position e
     = grid_position qualifyingPositions (ChartPosition.driver_number e))
  /\ (ChartPosition.current_lap_number e ≠ 0 ->
        exists c, c ∈ completions
          /\ LapCompletion.driver_number c = ChartPosition.driver_number e
          /\ LapCompletion.lap_number c = ChartPosition.current_lap_number e
          /\ LapCompletion.position c = ChartPosition.position e).
Proof.
  intros Hf He.
  set (P := fun (k p l s : Z) (b : bool) =>
         0 <= l
         /\ (l = 0 -> p = grid_position qualifyingPositions k)
         /\ (l ≠ 0 -> exists c, c ∈ completions
               /\ LapCompletion.driver_number c = k
               /\ LapCompletion.lap_number c = l
               /\ LapCompletion.position c = p)).
  assert (Hinv : entry_holds P e).
  { apply (frames_entries_invariant P) with (f := f); [| |done|done].
    - intros d _. unfold P. split; [done|]. split; [done|]. by intros [].
    - intros c p l s b Hc (Hl & _) Hlt pitLap. unfold P.
      split; [lia|]. split; [lia|]. intros _. by exists c. }
  destruct Hinv as (_ & H0 & Hn). by split.
Qed.

(** ** Flags *)

Lemma frames_flags :
  Forall2 (fun i f => PositionChartData.flags f = currentFlags raceControl (time i))
    (seqZ 0 (timeIntervals laps + 1)) frames.
Proof.
  unfold processRaceData. apply (loop_Forall2_index (fun _ => True)); [|done].
  intros st i _ _. split; [done|].
  by rewrite (frame_at_eq now0 now1 drivers positions laps qualifyingPositions
                raceControl).
Qed.

(** X14.  A flag shown in the frame of index [i] is made from a race-control
    message that has a flag or belongs to the category Flag, and whose date
    minus the time of the frame, a subtraction of doubles, is strictly within
    30 seconds; the type of the flag is never empty and its driver number is
    never 0. *)
Theorem frame_flag_source (i : nat) (f : PositionChartData.t) (g : ChartFlag.t) :
  frames !! i = Some f -> g ∈ PositionChartData.flags f ->
  ChartFlag.type g ≠ EmptyString
  /\ ChartFlag.driver_number g ≠ Some 0
  /\ exists rc, rc ∈ raceControl
       /\ g = chart_flag rc
       /\ (Qabs (double_sub (inject_Z (RaceControl.date rc))
                   (currentTime now0 now1 drivers positions laps qualifyingPositions
                      (Z.of_nat i))) < 30000)%Q
       /\ (flag_set (RaceControl.flag rc) = true \/ RaceControl.category rc = "Flag"%string).
Proof.
  intros Hf Hg.
  destruct (Forall2_lookup_r _ _ _ _ _ frames_flags Hf) as (j & Hj & Hflags).
  apply lookup_seqZ in Hj as [-> _]. rewrite Z.add_0_l in Hflags.
  rewrite Hflags in Hg. unfold currentFlags in Hg.
  apply list_elem_of_In, in_map_iff in Hg as (rc & <- & [Hin Hrc]%filter_In).
  apply andb_prop in Hrc as [Hnear Hkind]. split; [|split].
  - unfold chart_flag. simpl. by destruct (RaceControl.flag rc) as [[|]|].
  - unfold chart_flag. simpl. destruct (RaceControl.driver_number rc) as [n|]; [|done].
    destruct (Z.eqb_spec n 0); [done|congruence].
  - exists rc. split; [by apply list_elem_of_In|]. split; [done|]. split.
    + apply Qnot_le_lt. intros Hle%Qle_bool_iff.
      unfold Qlt_bool in Hnear. by rewrite Hle in Hnear.
    + apply orb_prop in Hkind as [Hflag|Hcat]; [by left|right].
      by apply bool_decide_eq_true in Hcat.
Qed.

(** ** A race without an eligible driver *)

(** X15.  When no driver has more than 3 lap records, the frames are still
    built, [min(2 * maxLap, 100) + 1] of them (three at least), each with no
    entry and lap number 1. *)
Theorem no_eligible_driver_no_entry :
  finishing = [] ->
  List.length frames = (Z.to_nat (Z.min (maxLap laps * 2) 100) + 1)%nat
  /\ (3 <= List.length frames)%nat
  /\ forall f, f ∈ frames ->
       PositionChartData.positions f = [] /\ PositionChartData.lapNumber f = 1.
Proof.
  intros Hnone.
  pose proof (frames_length now0 now1 drivers positions laps qualifyingPositions
                raceControl) as Hlen.
  pose proof (timeIntervals_ge_2 laps) as Hn.
  split; [exact Hlen|]. split; [rewrite Hlen; lia|].
  apply Forall_forall. unfold processRaceData.
  apply (loop_Forall now0 now1 drivers positions laps qualifyingPositions raceControl
           (fun st => st = [])).
  - intros st i ->.
    assert (Hkeys : (frame [] i).1 = []).
    { pose proof (keys_frame now0 now1 drivers positions laps qualifyingPositions
                    raceControl [] i) as Hk.
      by destruct ((frame [] i).1). }
    split; [done|]. split.
    + pose proof (frame_numbers now0 now1 drivers positions laps qualifyingPositions
                    raceControl [] i) as Hperm.
      rewrite Hnone in Hperm.
      assert (Hcov : covered drivers laps []).
      { intros d Hd. rewrite Hnone in Hd. by apply elem_of_nil in Hd. }
      specialize (Hperm Hcov). apply Permutation_nil_r in Hperm.
      by destruct (PositionChartData.positions (frame [] i).2).
    + by rewrite frame_lapNumber, Hkeys.
  - unfold initial_states. by rewrite Hnone.
Qed.

End ReplayMore.

(** ** The theorems of this part, on the short race with a pit stop *)

Lemma pit_frame_lookup (k : nat) :
  (k < 9)%nat -> pit_race_frames !! k = Some (pit_frame k).
Proof.
  intros Hk. do 9 (destruct k as [|k]; [by vm_compute|]). lia.
Qed.

Lemma pit_frame_elem (k : nat) : (k < 9)%nat -> pit_frame k ∈ pit_race_frames.
Proof. intros Hk. eapply list_elem_of_lookup_2. by apply pit_frame_lookup. Qed.

Lemma pit_entry_elem (k j : nat) :
  (k < 9)%nat -> (j < 3)%nat ->
  pit_entry k j ∈ PositionChartData.positions (pit_frame k).
Proof.
  intros Hk Hj. unfold pit_entry. apply list_elem_of_In, nth_In.
  assert (Hlen : Forall (fun f => List.length (PositionChartData.positions f) = 3%nat)
                   pit_race_frames).
  { apply (bool_decide_unpack _). by vm_compute. }
  rewrite Forall_forall in Hlen. rewrite (Hlen _ (pit_frame_elem k Hk)). exact Hj.
Qed.

Lemma pit_flag_follows_current_lap_witness :
  pit_frame 6 ∈ pit_race_frames
  /\ pit_entry 6 0 ∈ PositionChartData.positions (pit_frame 6)
  /\ (ChartPosition.is_in_pit (pit_entry 6 0) = true
      -> 1 <= ChartPosition.pit_stops (pit_entry 6 0)).
Proof.
  assert (Hf : pit_frame 6 ∈ pit_race_frames) by (apply pit_frame_elem; lia).
  assert (He : pit_entry 6 0 ∈ PositionChartData.positions (pit_frame 6))
    by (apply pit_entry_elem; lia).
  repeat (split; [assumption|]).
  exact (proj2 (proj2 (proj2
           (pit_flag_follows_current_lap 0 0 race_drivers race_positions pit_race_laps
              race_grid race_control (pit_frame 6) (pit_entry 6 0) Hf He)))).
Defined.

Lemma frame_lap_counters_witness :
  pit_frame 6 ∈ pit_race_frames
  /\ PositionChartData.totalLaps (pit_frame 6) = maxLap pit_race_laps
  /\ 1 <= PositionChartData.lapNumber (pit_frame 6)
       <= PositionChartData.totalLaps (pit_frame 6).
Proof.
  assert (Hf : pit_frame 6 ∈ pit_race_frames) by (apply pit_frame_elem; lia).
  split; [assumption|].
  destruct (proj2 (frame_lap_counters 0 0 race_drivers race_positions pit_race_laps
                     race_grid race_control) (pit_frame 6) Hf) as (Ht & Hl & _).
  by split.
Defined.

Lemma laps_and_pit_stops_never_decrease_witness :
  pit_race_frames !! 5%nat = Some (pit_frame 5)
  /\ pit_race_frames !! 6%nat = Some (pit_frame 6)
  /\ pit_entry 5 0 ∈ PositionChartData.positions (pit_frame 5)
  /\ pit_entry 6 0 ∈ PositionChartData.positions (pit_frame 6)
  /\ ChartPosition.driver_number (pit_entry 5 0)
     = ChartPosition.driver_number (pit_entry 6 0)
  /\ ChartPosition.current_lap_number (pit_entry 5 0)
     <= ChartPosition.current_lap_number (pit_entry 6 0)
  /\ ChartPosition.pit_stops (pit_entry 5 0) <= ChartPosition.pit_stops (pit_entry 6 0).
Proof.
  assert (H5 : pit_race_frames !! 5%nat = Some (pit_frame 5))
    by (apply pit_frame_lookup; lia).
  assert (H6 : pit_race_frames !! 6%nat = Some (pit_frame 6))
    by (apply pit_frame_lookup; lia).
  assert (Ha : pit_entry 5 0 ∈ PositionChartData.positions (pit_frame 5))
    by (apply pit_entry_elem; lia).
  assert (Hb : pit_entry 6 0 ∈ PositionChartData.positions (pit_frame 6))
    by (apply pit_entry_elem; lia).
  assert (Hn : ChartPosition.driver_number (pit_entry 5 0)
               = ChartPosition.driver_number (pit_entry 6 0)) by (by vm_compute).
  repeat (split; [assumption|]).
  exact (laps_and_pit_stops_never_decrease 0 0 race_drivers race_positions pit_race_laps
           race_grid race_control 5%nat (pit_frame 5) (pit_frame 6)
           (pit_entry 5 0) (pit_entry 6 0) H5 H6 Ha Hb Hn).
Defined.

Lemma progress_at_most_one_witness :
  pit_frame 8 ∈ pit_race_frames
  /\ pit_entry 8 0 ∈ PositionChartData.positions (pit_frame 8)
  /\ (ChartPosition.progress (pit_entry 8 0) <= 1)%Q.
Proof.
  assert (Hf : pit_frame 8 ∈ pit_race_frames) by (apply pit_frame_elem; lia).
  assert (He : pit_entry 8 0 ∈ PositionChartData.positions (pit_frame 8))
    by (apply pit_entry_elem; lia).
  repeat (split; [assumption|]).
  exact (progress_at_most_one 0 0 race_drivers race_positions pit_race_laps
           race_grid race_control (pit_frame 8) (pit_entry 8 0) Hf He).
Defined.

Lemma frame_shows_laps_done_witness :
  long_race_frames !! 14%nat = Some (long_frame 14)
  /\ nth 0 (PositionChartData.positions (long_frame 14)) no_entry
     ∈ PositionChartData.positions (long_frame 14)
  /\ ChartPosition.current_lap_number
       (nth 0 (PositionChartData.positions (long_frame 14)) no_entry)
     = laps_done_by
         (allLapCompletions [VER] race_positions long_race_laps race_grid)
         (ChartPosition.driver_number
            (nth 0 (PositionChartData.positions (long_frame 14)) no_entry))
         (currentTime 0 0 [VER] race_positions long_race_laps race_grid (Z.of_nat 14)).
Proof.
  assert (H14 : long_race_frames !! 14%nat = Some (long_frame 14)) by (by vm_compute).
  assert (He : nth 0 (PositionChartData.positions (long_frame 14)) no_entry
               ∈ PositionChartData.positions (long_frame 14)).
  { apply list_elem_of_lookup. exists 0%nat. by vm_compute. }
  split; [exact H14|]. split; [exact He|].
  exact (frame_shows_laps_done 0 0 [VER] race_positions long_race_laps
           race_grid long_race_control 14%nat (long_frame 14) _ H14 He).
Defined.

Lemma last_frame_shows_last_lap_witness :
  last_frame_reaches_end 0 0 race_drivers race_positions pit_race_laps race_grid = true
  /\ last pit_race_frames = Some (pit_frame 8)
  /\ pit_entry 8 1 ∈ PositionChartData.positions (pit_frame 8)
  /\ ChartPosition.current_lap_number (pit_entry 8 1)
     = last_timed_lap pit_race_laps (ChartPosition.driver_number (pit_entry 8 1)).
Proof.
  assert (Hend : last_frame_reaches_end 0 0 race_drivers race_positions pit_race_laps
                   race_grid = true) by (by vm_compute).
  assert (Hf : last pit_race_frames = Some (pit_frame 8)) by (by vm_compute).
  assert (He : pit_entry 8 1 ∈ PositionChartData.positions (pit_frame 8))
    by (apply pit_entry_elem; lia).
  split; [exact Hend|]. split; [exact Hf|]. split; [exact He|].
  exact (last_frame_shows_last_lap 0 0 race_drivers race_positions pit_race_laps
           race_grid race_control (pit_frame 8) (pit_entry 8 1) Hend Hf He).
Defined.

(** In the long race the time of the last frame stays below the last lap
    completion: the last frame shows car 1 on lap 6 of its 7 timed laps. *)
Example long_race_last_frame :
  last_frame_reaches_end 0 0 [VER] race_positions long_race_laps race_grid = false
  /\ last long_race_frames = Some (long_frame 14)
  /\ List.map (fun e => (ChartPosition.driver_number e,
                         ChartPosition.current_lap_number e))
       (PositionChartData.positions (long_frame 14)) = [(1, 6)]
  /\ last_timed_lap long_race_laps 1 = 7
  /\ (PositionChartData.lapNumber (long_frame 14),
      PositionChartData.totalLaps (long_frame 14)) = (6, 7).
Proof. repeat (match goal with |- _ /\ _ => split end); by vm_compute. Qed.

Lemma entry_position_source_witness :
  pit_frame 0 ∈ pit_race_frames
  /\ pit_entry 0 2 ∈ PositionChartData.positions (pit_frame 0)
  /\ (ChartPosition.current_lap_number (pit_entry 0 2) = 0 ->
      ChartPosition.position (pit_entry 0 2)
      = grid_position race_grid (ChartPosition.driver_number (pit_entry 0 2))).
Proof.
  assert (Hf : pit_frame 0 ∈ pit_race_frames) by (apply pit_frame_elem; lia).
  assert (He : pit_entry 0 2 ∈ PositionChartData.positions (pit_frame 0))
    by (apply pit_entry_elem; lia).
  repeat (split; [assumption|]).
  exact (proj1 (entry_position_source 0 0 race_drivers race_positions pit_race_laps
                  race_grid race_control (pit_frame 0) (pit_entry 0 2) Hf He)).
Defined.

Lemma frame_flag_source_witness :
  long_race_frames !! 14%nat = Some (long_frame 14)
  /\ ChartFlag.mk "YELLOW" "Yellow in sector 1" None
     ∈ PositionChartData.flags (long_frame 14)
  /\ exists rc, rc ∈ long_race_control
       /\ ChartFlag.mk "YELLOW" "Yellow in sector 1" None = chart_flag rc
       /\ (Qabs (double_sub (inject_Z (RaceControl.date rc))
                   (currentTime 0 0 [VER] race_positions long_race_laps race_grid
                      (Z.of_nat 14))) < 30000)%Q
       /\ (flag_set (RaceControl.flag rc) = true
           \/ RaceControl.category rc = "Flag"%string).
Proof.
  assert (H14 : long_race_frames !! 14%nat = Some (long_frame 14)) by (by vm_compute).
  assert (Hg : ChartFlag.mk "YELLOW" "Yellow in sector 1" None
               ∈ PositionChartData.flags (long_frame 14)).
  { apply list_elem_of_lookup. exists 0%nat. by vm_compute. }
  split; [exact H14|]. split; [exact Hg|].
  destruct (frame_flag_source 0 0 [VER] race_positions long_race_laps
              race_grid long_race_control 14%nat (long_frame 14) _ H14 Hg)
    as (_ & _ & Hrc).
  exact Hrc.
Defined.

(** The message of the long race is dated exactly 30 seconds before the last
    point of the even grid; the flag is shown because the time of the last
    frame is the double below it. *)
Example long_race_flag_distance :
  (Qabs (inject_Z 887510 - grid_time 0 917510 14 14) == 30000)%Q
  /\ (Qabs (double_sub (inject_Z 887510)
              (currentTime 0 0 [VER] race_positions long_race_laps race_grid 14))
      == 30000 - (1 # 8589934592))%Q
  /\ List.map PositionChartData.flags long_race_frames
     = repeat [] 14 ++ [[ChartFlag.mk "YELLOW" "Yellow in sector 1" None]].
Proof. repeat (match goal with |- _ /\ _ => split end); by vm_compute. Qed.

Lemma no_eligible_driver_no_entry_witness :
  finishingDrivers race_drivers [] = []
  /\ List.length empty_race_frames = 3%nat
  /\ nth 1 empty_race_frames no_frame ∈ empty_race_frames
  /\ PositionChartData.positions (nth 1 empty_race_frames no_frame) = []
  /\ PositionChartData.lapNumber (nth 1 empty_race_frames no_frame) = 1.
Proof.
  assert (Hnone : finishingDrivers race_drivers [] = []) by reflexivity.
  assert (Hf : nth 1 empty_race_frames no_frame ∈ empty_race_frames).
  { apply list_elem_of_lookup. exists 1%nat. by vm_compute. }
  split; [exact Hnone|].
  destruct (no_eligible_driver_no_entry 0 0 race_drivers race_positions [] race_grid []
              Hnone) as (Hlen & _ & Hall).
  split; [exact Hlen|]. split; [exact Hf|]. exact (Hall _ Hf).
Defined.

(* ===================================================================== *)
(** * The replay controls *)
(* ===================================================================== *)

Lemma findIndex_Some {A : Type} (p : A -> bool) (l : list A) (i : nat) :
  findIndex p l = Some i ->
  (exists x, l !! i = Some x /\ p x = true)
  /\ forall j y, (j < i)%nat -> l !! j = Some y -> p y = false.
Proof.
  revert i. induction l as [|x l IH]; intros i; simpl; [done|].
  destruct (p x) eqn:Hx.
  - intros [= <-]. split; [by exists x|]. intros j y Hj. lia.
  - destruct (findIndex p l) as [k|]; [|done]. simpl. intros [= <-].
    destruct (IH k eq_refl) as [Hhit Hbefore]. split; [done|].
    intros [|j] y Hj; simpl.
    + by intros [= <-].
    + apply Hbefore. lia.
Qed.

Lemma findIndex_None {A : Type} (p : A -> bool) (l : list A) :
  findIndex p l = None <-> Forall (fun x => p x = false) l.
Proof.
  induction l as [|x l IH]; simpl; [by split; [constructor|]|].
  destruct (p x) eqn:Hx.
  - split; [done|]. intros H. apply Forall_cons_1 in H as [H _]. congruence.
  - destruct (findIndex p l) as [k|]; simpl.
    + split; [done|]. intros H. apply Forall_cons_1 in H as [_ H].
      by apply IH in H.
    + split; [|done]. intros _. constructor; [done|]. by apply IH.
Qed.

Lemma frame_of_index_nat (chartData : list PositionChartData.t) (i : nat) :
  frame_of_index chartData (Z.of_nat i) = chartData !! i.
Proof.
  unfold frame_of_index. destruct (Z.ltb_spec (Z.of_nat i) 0); [lia|].
  by rewrite Nat2Z.id.
Qed.

Lemma frame_of_index_Some (chartData : list PositionChartData.t) (i : Z)
    (f : PositionChartData.t) :
  frame_of_index chartData i = Some f <-> 0 <= i /\ chartData !! Z.to_nat i = Some f.
Proof.
  unfold frame_of_index. destruct (Z.ltb_spec i 0); split; try done.
  - intros [? _]. lia.
  - by intros [_ ?].
Qed.

Lemma skip_to_lap_target (s : ReplayState.t) (lapNumber : Z) :
  let s' := skipToLap s lapNumber in
  ((exists f, f ∈ ReplayState.chartData s /\ lapNumber <= PositionChartData.lapNumber f) ->
     ReplayState.chartData s' = ReplayState.chartData s
     /\ ReplayState.isPlaying s' = false
     /\ ReplayState.animationProgress s' = 0%Q
     /\ (exists f, frame_of_index (ReplayState.chartData s) (ReplayState.currentIndex s')
                   = Some f
                   /\ lapNumber <= PositionChartData.lapNumber f)
     /\ forall j g, j < ReplayState.currentIndex s' ->
          frame_of_index (ReplayState.chartData s) j = Some g ->
          PositionChartData.lapNumber g < lapNumber)
  /\ ((forall f, f ∈ ReplayState.chartData s -> PositionChartData.lapNumber f < lapNumber) ->
      s' = s).
Proof.
  cbv zeta. unfold skipToLap.
  destruct (findIndex _ _) as [i|] eqn:Hfind.
  - apply findIndex_Some in Hfind as [(x & Hx & Hhit%Z.leb_le) Hbefore]. split.
    + intros _. simpl. split; [done|]. split; [done|]. split; [done|]. split.
      * exists x. by rewrite frame_of_index_nat.
      * intros j g Hj [H0 Hg]%frame_of_index_Some.
        specialize (Hbefore (Z.to_nat j) g ltac:(lia) Hg).
        by apply Z.leb_gt in Hbefore.
    + intros Hall. apply list_elem_of_lookup_2 in Hx. specialize (Hall x Hx). lia.
  - apply findIndex_None in Hfind. split; [|done].
    intros (f & Hf & Hle). rewrite Forall_forall in Hfind.
    specialize (Hfind f Hf). apply Z.leb_gt in Hfind. lia.
Qed.

(** X16.  [skipToLap] moves to the first frame whose lap number is at least
    the requested one, stops the replay and resets the animation; when no
    frame has such a lap number, the state is left as it is. *)
Theorem skip_to_lap_first_frame (s : ReplayState.t) (lapNumber : Z) :
  let s' := skipToLap s lapNumber in
  ((exists f, f ∈ ReplayState.chartData s /\ lapNumber <= PositionChartData.lapNumber f) ->
     ReplayState.chartData s' = ReplayState.chartData s
     /\ ReplayState.isPlaying s' = false
     /\ ReplayState.animationProgress s' = 0%Q
     /\ (exists f, frame_of_index (ReplayState.chartData s) (ReplayState.currentIndex s')
                   = Some f
                   /\ lapNumber <= PositionChartData.lapNumber f)
     /\ forall j g, j < ReplayState.currentIndex s' ->
          frame_of_index (ReplayState.chartData s) j = Some g ->
          PositionChartData.lapNumber g < lapNumber)
  /\ ((forall f, f ∈ ReplayState.chartData s -> PositionChartData.lapNumber f < lapNumber) ->
      s' = s).
Proof. apply skip_to_lap_target. Qed.

Lemma lookup_map {A B : Type} (f : A -> B) (l : list A) (i : nat) :
  List.map f l !! i = f <$> l !! i.
Proof. revert i. induction l as [|x l IH]; intros [|i]; simpl; try done. Qed.

Section ReplayControls.
Context (now0 now1 : Z).
Context (drivers : list Driver.t) (positions : list Position.t) (laps : list Lap.t).
Context (qualifyingPositions : gmap Z Z) (raceControl : list RaceControl.t).

Local Abbreviation finishing := (finishingDrivers drivers laps).
Local Abbreviation frame :=
  (frame_at now0 now1 drivers positions laps qualifyingPositions raceControl).
Local Abbreviation frames :=
  (processRaceData now0 now1 drivers positions laps qualifyingPositions raceControl).
Local Abbreviation initial := (initial_states drivers laps qualifyingPositions).

Lemma frames_last_is_Some : is_Some (last frames).
Proof.
  rewrite last_lookup. apply lookup_lt_is_Some.
  rewrite (frames_length now0 now1 drivers positions laps qualifyingPositions
             raceControl). lia.
Qed.

Lemma frames_first_is_Some : is_Some (frames !! 0%nat).
Proof.
  apply lookup_lt_is_Some.
  rewrite (frames_length now0 now1 drivers positions laps qualifyingPositions
             raceControl). lia.
Qed.

Lemma sorted_lookup_le (l : list Z) (i j : nat) (x y : Z) :
  StronglySorted Z.le l -> (i <= j)%nat -> l !! i = Some x -> l !! j = Some y -> x <= y.
Proof.
  intros Hs. revert i j. induction Hs as [|z l Hs IH Hall]; intros i j Hij; [done|].
  destruct i as [|i], j as [|j]; simpl; try lia.
  - intros [= <-] [= <-]. lia.
  - intros [= <-] Hy. rewrite Forall_forall in Hall.
    by apply Hall, list_elem_of_lookup_2 with j.
  - apply IH. lia.
Qed.

Lemma frames_lap_le_last (f fl : PositionChartData.t) :
  f ∈ frames -> last frames = Some fl ->
  PositionChartData.lapNumber f <= PositionChartData.lapNumber fl.
Proof.
  intros Hf Hl.
  apply (sorted_le_last (List.map PositionChartData.lapNumber frames)).
  - apply frames_lap_sorted.
  - by apply list_elem_of_In, in_map, list_elem_of_In.
  - by rewrite last_map, Hl.
Qed.

(** X17.  On the frames of [processRaceData]: skipping to lap 1 (or to any
    lap below) rewinds to the first frame; skipping to a lap above the
    highest lap number of the lap records changes nothing; in general the
    skip happens exactly when the requested lap is at most the lap number of
    the last frame, and then every frame from the target on has reached the
    requested lap. *)
Theorem skip_to_lap_on_frames (s : ReplayState.t) (lapNumber : Z) :
  ReplayState.chartData s = frames ->
  (lapNumber <= 1 -> skipToLap s lapNumber = ReplayState.mk frames 0 0%Q false)
  /\ (maxLap laps < lapNumber -> skipToLap s lapNumber = s)
  /\ forall fl, last frames = Some fl ->
       (PositionChartData.lapNumber fl < lapNumber -> skipToLap s lapNumber = s)
       /\ (lapNumber <= PositionChartData.lapNumber fl ->
           ReplayState.isPlaying (skipToLap s lapNumber) = false
           /\ forall j g, ReplayState.currentIndex (skipToLap s lapNumber) <= j ->
                frame_of_index frames j = Some g ->
                lapNumber <= PositionChartData.lapNumber g).
Proof.
  intros Hdata.
  pose proof (frames_lap_bounds now0 now1 drivers positions laps qualifyingPositions
                raceControl) as Hbounds.
  split; [|split].
  - intros Hlap. unfold skipToLap. rewrite Hdata.
    destruct frames_first_is_Some as [f0 Hf0].
    destruct frames as [|f l] eqn:Hfr; [done|]. simpl in Hf0. injection Hf0 as ->.
    destruct (Hbounds f0) as (_ & [H1 _] & _); [left|].
    simpl. destruct (Z.leb_spec lapNumber (PositionChartData.lapNumber f0)); [done|lia].
  - intros Hlap.
    apply (proj2 (skip_to_lap_target s lapNumber)).
    intros f Hf. rewrite Hdata in Hf.
    destruct (Hbounds f Hf) as (Ht & [_ Hle] & _). lia.
  - intros fl Hl. split.
    + intros Hlap. apply (proj2 (skip_to_lap_target s lapNumber)).
      intros f Hf. rewrite Hdata in Hf.
      pose proof (frames_lap_le_last f fl Hf Hl). lia.
    + intros Hlap.
      destruct (proj1 (skip_to_lap_target s lapNumber)) as (_ & Hstop & _ & Hhit & _).
      { exists fl. split; [|done]. rewrite Hdata.
        rewrite last_lookup in Hl. by apply list_elem_of_lookup_2 in Hl. }
      split; [done|]. destruct Hhit as (f & Hf & Hfl).
      rewrite Hdata in Hf. apply frame_of_index_Some in Hf as [H0 Hf].
      intros j g Hj [Hj0 Hg]%frame_of_index_Some.
      assert (Hle : PositionChartData.lapNumber f <= PositionChartData.lapNumber g).
      { apply (sorted_lookup_le (List.map PositionChartData.lapNumber frames)
                 (Z.to_nat (ReplayState.currentIndex (skipToLap s lapNumber)))
                 (Z.to_nat j)).
        - apply frames_lap_sorted.
        - lia.
        - by rewrite lookup_map, Hf.
        - by rewrite lookup_map, Hg. }
      lia.
Qed.

(** ** The lap number of a frame *)

Lemma keys_initial_subset (k : Z) :
  k ∈ List.map fst initial -> k ∈ List.map Driver.driver_number finishing.
Proof.
  unfold initial_states.
  assert (Hgen : forall ds acc,
    k ∈ List.map fst
          (fold_left (fun states driver =>
               JsMap.set states (Driver.driver_number driver)
                 (DriverState.mk
                    (grid_position qualifyingPositions (Driver.driver_number driver))
                    0 0%Q 0 false 0%Q))
             ds acc) ->
    k ∈ List.map fst acc \/ k ∈ List.map Driver.driver_number ds).
  { induction ds as [|d ds IH]; intros acc; simpl; [by left|].
    intros [Hk|Hk]%IH; [|right; by right].
    rewrite keys_set in Hk. destruct (JsMap.has acc _); [by left|].
    apply elem_of_app in Hk as [Hk|Hk%list_elem_of_singleton]; [by left|].
    subst k. right. left. }
  intros [Hk|Hk]%Hgen; [by apply elem_of_nil in Hk|done].
Qed.

Lemma keys_initial_NoDup : NoDup (List.map fst initial).
Proof.
  unfold initial_states. generalize (NoDup_nil_2 (A := Z)).
  change (@nil Z) with (List.map fst (@nil (Z * DriverState.t))).
  generalize (@nil (Z * DriverState.t)).
  induction finishing as [|d ds IH]; intros acc Hacc; simpl; [done|].
  apply IH. by apply NoDup_keys_set.
Qed.

Lemma frames_lap_highest (f : PositionChartData.t) :
  f ∈ frames ->
  PositionChartData.lapNumber f
  = fold_right Z.max 1
      (List.map ChartPosition.current_lap_number (PositionChartData.positions f)).
Proof.
  revert f. apply Forall_forall. unfold processRaceData.
  apply (loop_Forall now0 now1 drivers positions laps qualifyingPositions raceControl
           (fun st => covered drivers laps st
                      /\ NoDup (List.map fst st)
                      /\ forall k, k ∈ List.map fst st ->
                           k ∈ List.map Driver.driver_number finishing)).
  - intros st i (Hcov & Hnd & Hsub).
    pose proof (keys_frame now0 now1 drivers positions laps qualifyingPositions
                  raceControl st i) as Hkeys.
    split; [split; [|split]|].
    + by apply (covered_frame now0 now1 drivers positions laps qualifyingPositions
                  raceControl).
    + by rewrite Hkeys.
    + by rewrite Hkeys.
    + rewrite (frame_lapNumber now0 now1 drivers positions laps qualifyingPositions
                 raceControl).
      apply fold_max_same_elements. intros x.
      pose proof (frame_numbers now0 now1 drivers positions laps qualifyingPositions
                    raceControl st i Hcov) as Hperm.
      rewrite !list_elem_of_In, !in_map_iff. split.
      * intros ([k s] & <- & Hin%list_elem_of_In). simpl.
        assert (Hk : k ∈ List.map ChartPosition.driver_number
                       (PositionChartData.positions (frame st i).2)).
        { rewrite Hperm. apply Hsub. rewrite <- Hkeys.
          apply list_elem_of_In, in_map_iff. exists (k, s).
          by rewrite <- list_elem_of_In. }
        apply list_elem_of_In, in_map_iff in Hk as (e & <- & He).
        exists e. split; [|done]. apply list_elem_of_In in He.
        destruct (entries_frame now0 now1 drivers positions laps qualifyingPositions
                    raceControl st i e He) as [-> _].
        unfold field_of. rewrite (elem_of_get _ _ s); [done| |done].
        by rewrite Hkeys.
      * intros (e & <- & He%list_elem_of_In).
        destruct (entries_frame now0 now1 drivers positions laps qualifyingPositions
                    raceControl st i e He) as [-> _].
        assert (Hk : ChartPosition.driver_number e ∈ List.map fst (frame st i).1).
        { rewrite Hkeys.
          assert (Hin : ChartPosition.driver_number e
                        ∈ List.map Driver.driver_number finishing).
          { rewrite <- Hperm. apply list_elem_of_In, in_map. by apply list_elem_of_In. }
          apply list_elem_of_In, in_map_iff in Hin as (d & <- & Hd%list_elem_of_In).
          by apply Hcov. }
        unfold field_of.
        destruct (JsMap.get (frame st i).1 (ChartPosition.driver_number e))
          as [s|] eqn:Hg.
        -- exists (ChartPosition.driver_number e, s). split; [done|].
           by apply list_elem_of_In, get_Some_elem_of.
        -- by apply get_None_keys in Hg.
  - split; [apply covered_initial|]. split; [apply keys_initial_NoDup|].
    apply keys_initial_subset.
Qed.

(** X18.  The lap number of a frame is the highest lap number among its
    entries, and 1 when no entry is beyond lap 1. *)
Theorem frame_lap_is_highest_entry (f : PositionChartData.t) :
  f ∈ frames ->
  PositionChartData.lapNumber f
  = fold_right Z.max 1
      (List.map ChartPosition.current_lap_number (PositionChartData.positions f)).
Proof. apply frames_lap_highest. Qed.

(** ** The "Finish" button: [skipToLap(totalLaps)] *)

Lemma last_frame_lap_low (fl : PositionChartData.t) (d : Driver.t) :
  last_frame_reaches_end now0 now1 drivers positions laps qualifyingPositions = true ->
  last frames = Some fl -> d ∈ finishing ->
  last_timed_lap laps (Driver.driver_number d) <= PositionChartData.lapNumber fl.
Proof.
  intros Hend Hl Hd.
  assert (Hfl : fl ∈ frames).
  { rewrite last_lookup in Hl. by apply list_elem_of_lookup_2 in Hl. }
  pose proof (frames_numbers now0 now1 drivers positions laps qualifyingPositions
                raceControl fl Hfl) as Hperm.
  rewrite (frames_lap_highest fl Hfl).
  assert (Hk : Driver.driver_number d
               ∈ List.map ChartPosition.driver_number (PositionChartData.positions fl)).
  { rewrite Hperm. apply list_elem_of_In, in_map. by apply list_elem_of_In. }
  apply list_elem_of_In, in_map_iff in Hk as (e & <- & He%list_elem_of_In).
  rewrite <- (last_frame_laps now0 now1 drivers positions laps qualifyingPositions
                raceControl fl e Hend Hl He).
  apply fold_max_ge_elem. apply list_elem_of_In, in_map. by apply list_elem_of_In.
Qed.

Lemma frame_lap_high (f : PositionChartData.t) (z : Z) :
  f ∈ frames -> 1 <= z ->
  (forall d, d ∈ finishing -> last_timed_lap laps (Driver.driver_number d) <= z) ->
  PositionChartData.lapNumber f <= z.
Proof.
  intros Hf Hz Hall.
  pose proof (frames_numbers now0 now1 drivers positions laps qualifyingPositions
                raceControl f Hf) as Hperm.
  rewrite (frames_lap_highest f Hf). apply fold_max_le; [done|].
  intros x (e & <- & He%list_elem_of_In)%list_elem_of_In%in_map_iff.
  pose proof (frame_laps_le_last now0 now1 drivers positions laps qualifyingPositions
                raceControl f e Hf He) as Hle.
  assert (Hk : ChartPosition.driver_number e
               ∈ List.map Driver.driver_number finishing).
  { rewrite <- Hperm. apply list_elem_of_In, in_map. by apply list_elem_of_In. }
  apply list_elem_of_In, in_map_iff in Hk as (d & Hdn & Hd%list_elem_of_In).
  specialize (Hall d Hd). rewrite Hdn in Hall. lia.
Qed.

(** X19.  Skipping to [totalLaps] (the "Finish" button) reaches a frame,
    whose lap number is then [totalLaps], when an eligible driver has a lap
    with a duration that carries the highest lap number of the lap records
    and the time of the last frame, as the doubles give it, is not below
    [endTime].  When the highest lap number is above 1 and no eligible
    driver has such a lap, the skip changes nothing. *)
Theorem skip_to_finish (s : ReplayState.t) :
  ReplayState.chartData s = frames ->
  (last_frame_reaches_end now0 now1 drivers positions laps qualifyingPositions = true ->
   (exists d, d ∈ finishing
      /\ last_timed_lap laps (Driver.driver_number d) = maxLap laps) ->
   exists f, frame_of_index frames (ReplayState.currentIndex (skipToLap s (maxLap laps)))
             = Some f
             /\ PositionChartData.lapNumber f = PositionChartData.totalLaps f)
  /\ (1 < maxLap laps ->
      (forall d, d ∈ finishing ->
         last_timed_lap laps (Driver.driver_number d) < maxLap laps) ->
      skipToLap s (maxLap laps) = s).
Proof.
  intros Hdata. destruct frames_last_is_Some as [fl Hl].
  assert (Hfl : fl ∈ frames).
  { rewrite last_lookup in Hl. by apply list_elem_of_lookup_2 in Hl. }
  split.
  - intros Hend (d & Hd & Hlast).
    destruct (proj1 (skip_to_lap_target s (maxLap laps))) as (_ & _ & _ & Hhit & _).
    { exists fl. rewrite Hdata. split; [done|]. rewrite <- Hlast.
      by apply last_frame_lap_low. }
    destruct Hhit as (f & Hf & Hle). rewrite Hdata in Hf. exists f. split; [done|].
    apply frame_of_index_Some in Hf as [_ Hf%list_elem_of_lookup_2].
    destruct (frames_lap_bounds now0 now1 drivers positions laps qualifyingPositions
                raceControl f Hf) as (Ht & [_ Hup] & _).
    lia.
  - intros Hmax Hall.
    apply (proj2 (skip_to_lap_target s (maxLap laps))).
    intros f Hf. rewrite Hdata in Hf.
    assert (Hz : PositionChartData.lapNumber f <= maxLap laps - 1).
    { apply frame_lap_high; [done|lia|]. intros d Hd. specialize (Hall d Hd). lia. }
    lia.
Qed.

(** ** The figures of [getCurrentRaceStats] *)

Lemma frames_pit_facts (f : PositionChartData.t) (e : ChartPosition.t) :
  f ∈ frames -> e ∈ PositionChartData.positions f ->
  0 <= ChartPosition.pit_stops e
  /\ (ChartPosition.is_in_pit e = true -> 1 <= ChartPosition.pit_stops e).
Proof.
  intros Hf He.
  set (P := fun (k p l s : Z) (b : bool) => 0 <= s /\ (b = true -> 1 <= s)).
  assert (Hinv : entry_holds P e).
  { apply (frames_entries_invariant now0 now1 drivers positions laps qualifyingPositions
             raceControl P) with (f := f); [| |done|done].
    - intros d _. unfold P. split; [done|]. done.
    - intros c p l s b Hc (Hs & Hb) Hlt pitLap. unfold P.
      destruct (is_some pitLap); split; (lia || done). }
  exact Hinv.
Qed.

Lemma fold_pit_stops (l : list ChartPosition.t) (acc : Z) :
  fold_left (fun sum p => sum + ChartPosition.pit_stops p) l acc
  = acc + fold_left (fun sum p => sum + ChartPosition.pit_stops p) l 0.
Proof.
  revert acc. induction l as [|e l IH]; intros acc; simpl; [lia|].
  rewrite (IH (acc + _)), (IH (0 + _)). lia.
Qed.

Lemma in_pit_le_pit_stops (l : list ChartPosition.t) :
  (forall e, e ∈ l ->
     0 <= ChartPosition.pit_stops e
     /\ (ChartPosition.is_in_pit e = true -> 1 <= ChartPosition.pit_stops e)) ->
  Z.of_nat (List.length (List.filter ChartPosition.is_in_pit l))
  <= fold_left (fun sum p => sum + ChartPosition.pit_stops p) l 0.
Proof.
  induction l as [|e l IH]; intros Hl; simpl; [done|].
  rewrite fold_pit_stops.
  destruct (Hl e) as [H0 H1]; [left|].
  assert (IH' := IH (fun e' He' => Hl e' (list_elem_of_further _ _ _ He'))).
  destruct (ChartPosition.is_in_pit e); simpl; [specialize (H1 eq_refl)|]; lia.
Qed.

Lemma frame_of_index_frames (i : Z) :
  is_Some (frame_of_index frames i) <-> 0 <= i <= timeIntervals laps.
Proof.
  pose proof (timeIntervals_ge_2 laps) as Hn. unfold frame_of_index.
  destruct (Z.ltb_spec i 0) as [Hneg|Hpos].
  - split; [by intros [? ?]|lia].
  - rewrite lookup_lt_is_Some,
      (frames_length now0 now1 drivers positions laps qualifyingPositions raceControl).
    lia.
Qed.

(** X20.  On the frames of [processRaceData], [getCurrentRaceStats] gives
    figures exactly for the indices 0 .. n, and [null] elsewhere.  The leader
    is an entry with the least position of the frame, and there is one as
    soon as a driver is eligible; the number of drivers in the pit is at most
    the total of pit stops and at most the number of entries. *)
Theorem race_stats_on_frames (s : ReplayState.t) :
  ReplayState.chartData s = frames ->
  (is_Some (getCurrentRaceStats s) <-> 0 <= ReplayState.currentIndex s <= timeIntervals laps)
  /\ forall stats, getCurrentRaceStats s = Some stats ->
       0 <= RaceStats.driversInPit stats <= RaceStats.totalPitStops stats
       /\ RaceStats.driversInPit stats <= Z.of_nat (List.length finishing)
       /\ (RaceStats.leader stats = None <-> finishing = [])
       /\ forall e, RaceStats.leader stats = Some e ->
            forall f e', frame_of_index frames (ReplayState.currentIndex s) = Some f ->
              e' ∈ PositionChartData.positions f ->
              ChartPosition.position e <= ChartPosition.position e'.
Proof.
  intros Hdata. unfold getCurrentRaceStats. rewrite Hdata. split.
  - rewrite <- frame_of_index_frames.
    destruct (frame_of_index frames _); split; intros [? ?]; done.
  - intros stats.
    destruct (frame_of_index frames (ReplayState.currentIndex s)) as [f|] eqn:Hf;
      [|done].
    intros [= <-]. simpl.
    assert (Hin : f ∈ frames).
    { apply frame_of_index_Some in Hf as [_ Hf]. by apply list_elem_of_lookup_2 in Hf. }
    pose proof (frames_numbers now0 now1 drivers positions laps qualifyingPositions
                  raceControl f Hin) as Hperm.
    assert (Hlen : List.length (PositionChartData.positions f) = List.length finishing).
    { apply Permutation_length in Hperm. by rewrite !length_map in Hperm. }
    split; [split; [lia|]|split; [|split]].
    + apply in_pit_le_pit_stops. intros e He.
      by apply (frames_pit_facts f e).
    + rewrite <- Hlen.
      pose proof (filter_length_le ChartPosition.is_in_pit (PositionChartData.positions f)).
      lia.
    + destruct (PositionChartData.positions f) as [|e l], finishing as [|d ds];
        simpl in *; try done.
    + intros e He f' e' [= <-] He'.
      pose proof (frames_sorted now0 now1 drivers positions laps qualifyingPositions
                    raceControl f Hin) as Hs.
      destruct (PositionChartData.positions f) as [|e0 l]; [done|].
      simpl in He. injection He as ->. simpl in Hs.
      apply StronglySorted_inv in Hs as [_ Hall].
      apply elem_of_cons in He' as [->|He']; [lia|].
      rewrite Forall_forall in Hall. apply Hall.
      by apply list_elem_of_In, in_map, list_elem_of_In.
Qed.

(** ** The timing table *)

Lemma js_sort_sorted_id {A : Type} (cmp : A -> A -> Z) (l : list A) :
  StronglySorted (fun a b => cmp a b <= 0) l -> js_sort cmp l = l.
Proof.
  induction 1 as [|x l Hs IH Hall]; simpl; [done|].
  rewrite IH. destruct l as [|y l]; simpl; [done|].
  apply Forall_cons_1 in Hall as [Hxy _].
  by rewrite (proj2 (Z.leb_le _ _) Hxy).
Qed.

Lemma interpolate_carries (prev : option PositionChartData.t)
    (cur : PositionChartData.t) (ratio : Q) :
  Forall2 (fun c r => carries_fields_of r c)
    (PositionChartData.positions cur) (interpolateDriverPositions prev cur ratio).
Proof.
  assert (Hsame : forall l : list ChartPosition.t,
            Forall2 (fun c r => carries_fields_of r c) l l).
  { intros l. apply Forall2_same_length_lookup_2; [done|].
    intros i c r Hc Hr. rewrite Hc in Hr. injection Hr as <-.
    unfold carries_fields_of. by repeat split. }
  unfold interpolateDriverPositions. destruct prev as [p|]; [|apply Hsame].
  destruct (Qle_bool 1 ratio); [apply Hsame|].
  induction (PositionChartData.positions cur) as [|c l IH]; simpl; constructor;
    [|exact IH].
  destruct (List.find _ _) as [q|]; unfold carries_fields_of; by repeat split.
Qed.

(** X21.  On the frames of [processRaceData] the rows of the timing table
    are, in the order of the entries of the current frame, those entries with
    all their fields but the progress (the sort by position that the table
    applies changes nothing). *)
Theorem table_rows_follow_frame (s : ReplayState.t) (rows : list ChartPosition.t) :
  ReplayState.chartData s = frames ->
  table_rows s = Some rows ->
  exists cur, frame_of_index frames (ReplayState.currentIndex s) = Some cur
    /\ Forall2 (fun c r => carries_fields_of r c) (PositionChartData.positions cur) rows.
Proof.
  intros Hdata. unfold table_rows. rewrite Hdata.
  destruct (frame_of_index frames (ReplayState.currentIndex s)) as [cur|] eqn:Hcur;
    [|done].
  intros [= <-]. exists cur. split; [done|].
  set (prev := if 0 <? ReplayState.currentIndex s then _ else _).
  pose proof (interpolate_carries prev cur (ReplayState.animationProgress s)) as Hc.
  rewrite js_sort_sorted_id; [done|].
  assert (Hin : cur ∈ frames).
  { apply frame_of_index_Some in Hcur as [_ Hf]. by apply list_elem_of_lookup_2 in Hf. }
  pose proof (frames_sorted now0 now1 drivers positions laps qualifyingPositions
                raceControl cur Hin) as Hs.
  assert (Hpos : List.map ChartPosition.position
                   (interpolateDriverPositions prev cur (ReplayState.animationProgress s))
                 = List.map ChartPosition.position (PositionChartData.positions cur)).
  { clear -Hc. induction Hc as [|c r l l' (_ & Hp & _) _ IH]; simpl; [done|].
    by rewrite Hp, IH. }
  rewrite <- Hpos in Hs. clear -Hs.
  induction (interpolateDriverPositions prev cur (ReplayState.animationProgress s))
    as [|r l IH]; [constructor|].
  simpl in Hs. apply StronglySorted_inv in Hs as [Hs Hall].
  constructor; [by apply IH|].
  rewrite Forall_forall in Hall. rewrite Forall_forall. intros r' Hr'.
  assert (ChartPosition.position r <= ChartPosition.position r'); [|lia].
  apply Hall. by apply list_elem_of_In, in_map, list_elem_of_In.
Qed.

(** ** Interpolation between two successive frames *)

(** X22.  Between a frame of [processRaceData] and the next one, at a ratio
    from 0 to 1, every interpolated entry has a counterpart in the earlier
    frame, and its progress lies between the progress of that counterpart and
    the progress of the entry of the later frame: the displayed progress never
    runs backwards. *)
Theorem interpolation_between_frames (i : nat) (prev cur : PositionChartData.t)
    (ratio : Q) :
  frames !! i = Some prev -> frames !! S i = Some cur ->
  (0 <= ratio <= 1)%Q ->
  Forall2 (fun c r =>
      exists p, p ∈ PositionChartData.positions prev
        /\ ChartPosition.driver_number p = ChartPosition.driver_number c
        /\ (ChartPosition.progress p <= ChartPosition.progress r)%Q
        /\ (ChartPosition.progress r <= ChartPosition.progress c)%Q)
    (PositionChartData.positions cur)
    (interpolateDriverPositions (Some prev) cur ratio).
Proof.
  intros Hp Hc [Hr0 Hr1].
  assert (Hpin : prev ∈ frames) by (by eapply list_elem_of_lookup_2).
  assert (Hcin : cur ∈ frames) by (by eapply list_elem_of_lookup_2).
  assert (Hfound : forall c, c ∈ PositionChartData.positions cur ->
            exists p, List.find (fun p =>
                        ChartPosition.driver_number p =? ChartPosition.driver_number c)
                        (PositionChartData.positions prev) = Some p
              /\ p ∈ PositionChartData.positions prev
              /\ ChartPosition.driver_number p = ChartPosition.driver_number c
              /\ (ChartPosition.progress p <= ChartPosition.progress c)%Q).
  { intros c Hcc.
    assert (Hk : ChartPosition.driver_number c
                 ∈ List.map ChartPosition.driver_number
                     (PositionChartData.positions prev)).
    { rewrite (frames_numbers now0 now1 drivers positions laps qualifyingPositions
                 raceControl prev Hpin),
        <- (frames_numbers now0 now1 drivers positions laps qualifyingPositions
              raceControl cur Hcin).
      by apply list_elem_of_In, in_map, list_elem_of_In. }
    apply list_elem_of_In, in_map_iff in Hk as (q & Hq & Hqin).
    destruct (List.find (fun p =>
                ChartPosition.driver_number p =? ChartPosition.driver_number c)
                (PositionChartData.positions prev)) as [p|] eqn:Hfind.
    - apply find_some in Hfind as [Hpp Hpc%Z.eqb_eq]. apply list_elem_of_In in Hpp.
      exists p. split; [done|]. split; [done|]. split; [done|].
      by apply (loop_progress now0 now1 drivers positions laps qualifyingPositions
                  raceControl initial (seqZ 0 (timeIntervals laps + 1)) i prev cur p c).
    - apply (find_none _ _ Hfind) in Hqin. apply Z.eqb_neq in Hqin. done. }
  unfold interpolateDriverPositions. destruct (Qle_bool 1 ratio) eqn:Hone.
  - apply Forall2_same_length_lookup_2; [done|].
    intros j c r Hjc Hjr. rewrite Hjc in Hjr. injection Hjr as <-.
    destruct (Hfound c) as (p & _ & Hpp & Hpc & Hle);
      [by eapply list_elem_of_lookup_2|].
    exists p. split; [done|]. split; [done|]. split; [done|apply Qle_refl].
  - revert Hfound. generalize (PositionChartData.positions cur). intros l Hfound.
    induction l as [|c l IH]; simpl; constructor.
    + destruct (Hfound c) as (p & -> & Hpp & Hpc & Hle); [left|].
      exists p. split; [done|]. split; [done|].
      unfold interpolate_driver. simpl.
      assert (Hd : (0 <= ChartPosition.progress c - ChartPosition.progress p)%Q)
        by lra.
      split.
      * assert (0 <= (ChartPosition.progress c - ChartPosition.progress p) * ratio)%Q
          by (by apply Qmult_le_0_compat).
        lra.
      * assert ((ChartPosition.progress c - ChartPosition.progress p) * ratio
                <= (ChartPosition.progress c - ChartPosition.progress p) * 1)%Q.
        { rewrite !(Qmult_comm (ChartPosition.progress c - ChartPosition.progress p)).
          by apply Qmult_le_compat_r. }
        lra.
    + apply IH. intros c' Hc'. apply Hfound. by right.
Qed.

End ReplayControls.

(** ** The theorems of this part, on the short races *)

Lemma skip_to_lap_first_frame_witness :
  (exists f, f ∈ ReplayState.chartData (pit_replay 0 0)
             /\ 3 <= PositionChartData.lapNumber f)
  /\ ReplayState.isPlaying (skipToLap (pit_replay 0 0) 3) = false
  /\ ReplayState.currentIndex (skipToLap (pit_replay 0 0) 3) = 6.
Proof.
  assert (H : exists f, f ∈ ReplayState.chartData (pit_replay 0 0)
                        /\ 3 <= PositionChartData.lapNumber f).
  { exists (pit_frame 6). split; [apply pit_frame_elem; lia|by vm_compute]. }
  split; [exact H|].
  destruct (proj1 (skip_to_lap_first_frame (pit_replay 0 0) 3) H) as (_ & Hstop & _).
  split; [exact Hstop|by vm_compute].
Defined.

Lemma skip_to_lap_on_frames_witness :
  ReplayState.chartData (pit_replay 4 0)
  = processRaceData 0 0 race_drivers race_positions pit_race_laps race_grid race_control
  /\ 1 <= 1
  /\ skipToLap (pit_replay 4 0) 1
     = ReplayState.mk
         (processRaceData 0 0 race_drivers race_positions pit_race_laps race_grid
            race_control)
         0 0%Q false.
Proof.
  assert (Hdata : ReplayState.chartData (pit_replay 4 0)
                  = processRaceData 0 0 race_drivers race_positions pit_race_laps
                      race_grid race_control) by reflexivity.
  assert (Hlap : 1 <= 1) by lia.
  repeat match goal with
    | |- _ /\ _ => split; [match goal with H : ?T |- ?T => exact H end|]
    end.
  exact (proj1 (skip_to_lap_on_frames 0 0 race_drivers race_positions pit_race_laps
                  race_grid race_control (pit_replay 4 0) 1 Hdata) Hlap).
Defined.

Lemma frame_lap_is_highest_entry_witness :
  pit_frame 6 ∈ pit_race_frames
  /\ PositionChartData.lapNumber (pit_frame 6)
     = fold_right Z.max 1
         (List.map ChartPosition.current_lap_number
            (PositionChartData.positions (pit_frame 6))).
Proof.
  assert (Hf : pit_frame 6 ∈ pit_race_frames) by (apply pit_frame_elem; lia).
  split; [exact Hf|].
  exact (frame_lap_is_highest_entry 0 0 race_drivers race_positions pit_race_laps
           race_grid race_control (pit_frame 6) Hf).
Defined.

Lemma skip_to_finish_witness :
  (ReplayState.chartData (pit_replay 2 0)
   = processRaceData 0 0 race_drivers race_positions pit_race_laps race_grid race_control
   /\ last_frame_reaches_end 0 0 race_drivers race_positions pit_race_laps race_grid = true
   /\ (exists d, d ∈ finishingDrivers race_drivers pit_race_laps
         /\ last_timed_lap pit_race_laps (Driver.driver_number d) = maxLap pit_race_laps)
   /\ exists f, frame_of_index
                  (processRaceData 0 0 race_drivers race_positions pit_race_laps
                     race_grid race_control)
                  (ReplayState.currentIndex
                     (skipToLap (pit_replay 2 0) (maxLap pit_race_laps))) = Some f
                /\ PositionChartData.lapNumber f = PositionChartData.totalLaps f)
  /\ ReplayState.chartData (ReplayState.mk unfinished_race_frames 2 0%Q true)
     = processRaceData 0 0 race_drivers race_positions unfinished_race_laps race_grid []
  /\ 1 < maxLap unfinished_race_laps
  /\ (forall d, d ∈ finishingDrivers race_drivers unfinished_race_laps ->
        last_timed_lap unfinished_race_laps (Driver.driver_number d)
        < maxLap unfinished_race_laps)
  /\ skipToLap (ReplayState.mk unfinished_race_frames 2 0%Q true)
       (maxLap unfinished_race_laps)
     = ReplayState.mk unfinished_race_frames 2 0%Q true.
Proof.
  assert (Hpit : ReplayState.chartData (pit_replay 2 0)
                 = processRaceData 0 0 race_drivers race_positions pit_race_laps
                     race_grid race_control) by reflexivity.
  assert (Hend : last_frame_reaches_end 0 0 race_drivers race_positions pit_race_laps
                   race_grid = true) by (by vm_compute).
  assert (Hd : exists d, d ∈ finishingDrivers race_drivers pit_race_laps
                 /\ last_timed_lap pit_race_laps (Driver.driver_number d)
                    = maxLap pit_race_laps).
  { exists VER. split; [|by vm_compute]. apply list_elem_of_lookup. by exists 0%nat. }
  assert (Hdata : ReplayState.chartData (ReplayState.mk unfinished_race_frames 2 0%Q true)
                  = processRaceData 0 0 race_drivers race_positions unfinished_race_laps
                      race_grid []) by reflexivity.
  assert (Hmax : 1 < maxLap unfinished_race_laps) by (by vm_compute).
  assert (Hall : forall d, d ∈ finishingDrivers race_drivers unfinished_race_laps ->
                   last_timed_lap unfinished_race_laps (Driver.driver_number d)
                   < maxLap unfinished_race_laps).
  { apply Forall_forall. apply (bool_decide_unpack _). by vm_compute. }
  split.
  - split; [exact Hpit|]. split; [exact Hend|]. split; [exact Hd|].
    exact (proj1 (skip_to_finish 0 0 race_drivers race_positions pit_race_laps
                    race_grid race_control (pit_replay 2 0) Hpit) Hend Hd).
  - split; [exact Hdata|]. split; [exact Hmax|]. split; [exact Hall|].
    exact (proj2 (skip_to_finish 0 0 race_drivers race_positions unfinished_race_laps
                    race_grid [] (ReplayState.mk unfinished_race_frames 2 0%Q true) Hdata)
             Hmax Hall).
Defined.

(** In the long race no frame shows lap 7, the last lap of car 1: skipping
    to [totalLaps] leaves the replay where it is. *)
Example long_race_finish :
  maxLap long_race_laps = 7
  /\ last_timed_lap long_race_laps 1 = maxLap long_race_laps
  /\ List.map PositionChartData.lapNumber long_race_frames
     = [1; 1; 1; 2; 2; 3; 3; 4; 4; 4; 5; 5; 6; 6; 6]
  /\ skipToLap (ReplayState.mk long_race_frames 3 0%Q true) (maxLap long_race_laps)
     = ReplayState.mk long_race_frames 3 0%Q true.
Proof. repeat (match goal with |- _ /\ _ => split end); by vm_compute. Qed.

Lemma race_stats_on_frames_witness :
  ReplayState.chartData (pit_replay 6 0)
  = processRaceData 0 0 race_drivers race_positions pit_race_laps race_grid race_control
  /\ 0 <= ReplayState.currentIndex (pit_replay 6 0) <= timeIntervals pit_race_laps
  /\ is_Some (getCurrentRaceStats (pit_replay 6 0)).
Proof.
  assert (Hdata : ReplayState.chartData (pit_replay 6 0)
                  = processRaceData 0 0 race_drivers race_positions pit_race_laps
                      race_grid race_control) by reflexivity.
  assert (Hi : 0 <= ReplayState.currentIndex (pit_replay 6 0)
               <= timeIntervals pit_race_laps) by (vm_compute; split; discriminate).
  split; [exact Hdata|]. split; [exact Hi|].
  destruct (race_stats_on_frames 0 0 race_drivers race_positions pit_race_laps
              race_grid race_control (pit_replay 6 0) Hdata) as [[_ H] _].
  exact (H Hi).
Defined.

Lemma table_rows_follow_frame_witness :
  ReplayState.chartData (pit_replay 6 (1 # 2))
  = processRaceData 0 0 race_drivers race_positions pit_race_laps race_grid race_control
  /\ table_rows (pit_replay 6 (1 # 2))
     = Some (default [] (table_rows (pit_replay 6 (1 # 2))))
  /\ exists cur,
       frame_of_index
         (processRaceData 0 0 race_drivers race_positions pit_race_laps race_grid
            race_control)
         (ReplayState.currentIndex (pit_replay 6 (1 # 2))) = Some cur
       /\ Forall2 (fun c r => carries_fields_of r c) (PositionChartData.positions cur)
            (default [] (table_rows (pit_replay 6 (1 # 2)))).
Proof.
  assert (Hdata : ReplayState.chartData (pit_replay 6 (1 # 2))
                  = processRaceData 0 0 race_drivers race_positions pit_race_laps
                      race_grid race_control) by reflexivity.
  assert (Hrows : table_rows (pit_replay 6 (1 # 2))
                  = Some (default [] (table_rows (pit_replay 6 (1 # 2)))))
    by (by vm_compute).
  repeat match goal with
    | |- _ /\ _ => split; [match goal with H : ?T |- ?T => exact H end|]
    end.
  exact (table_rows_follow_frame 0 0 race_drivers race_positions pit_race_laps
           race_grid race_control (pit_replay 6 (1 # 2)) _ Hdata Hrows).
Defined.

Lemma interpolation_between_frames_witness :
  pit_race_frames !! 5%nat = Some (pit_frame 5)
  /\ pit_race_frames !! 6%nat = Some (pit_frame 6)
  /\ (0 <= 1 # 2 <= 1)%Q
  /\ Forall2 (fun c r =>
         exists p, p ∈ PositionChartData.positions (pit_frame 5)
           /\ ChartPosition.driver_number p = ChartPosition.driver_number c
           /\ (ChartPosition.progress p <= ChartPosition.progress r)%Q
           /\ (ChartPosition.progress r <= ChartPosition.progress c)%Q)
       (PositionChartData.positions (pit_frame 6))
       (interpolateDriverPositions (Some (pit_frame 5)) (pit_frame 6) (1 # 2)).
Proof.
  assert (H5 : pit_race_frames !! 5%nat = Some (pit_frame 5))
    by (apply pit_frame_lookup; lia).
  assert (H6 : pit_race_frames !! 6%nat = Some (pit_frame 6))
    by (apply pit_frame_lookup; lia).
  assert (Hr : (0 <= 1 # 2 <= 1)%Q) by (split; unfold Qle; simpl; lia).
  repeat match goal with
    | |- _ /\ _ => split; [match goal with H : ?T |- ?T => exact H end|]
    end.
  exact (interpolation_between_frames 0 0 race_drivers race_positions pit_race_laps
           race_grid race_control 5%nat (pit_frame 5) (pit_frame 6) (1 # 2) H5 H6 Hr).
Defined.

(* ===================================================================== *)
(** * The replay data and the meetings of the service *)
(* ===================================================================== *)

Lemma get_group_location (m : list (Z * list LocationData.t))
    (location : LocationData.t) (t : Z) :
  JsMap.get (group_location m location) t
  = if decide (LocationData.date location = t)
    then Some (default [] (JsMap.get m t) ++ [location])
    else JsMap.get m t.
Proof.
  unfold group_location. cbv zeta.
  destruct (decide (LocationData.date location = t)) as [<-|Hne].
  - rewrite get_update_eq. unfold JsMap.has.
    destruct (JsMap.get m (LocationData.date location)) as [g|] eqn:Hg.
    + by rewrite Hg.
    + by rewrite get_set_eq.
  - rewrite get_update_ne by done.
    destruct (JsMap.has m (LocationData.date location)); [done|].
    by rewrite get_set_ne.
Qed.

Lemma keys_group_location_NoDup (m : list (Z * list LocationData.t))
    (location : LocationData.t) :
  NoDup (List.map fst m) -> NoDup (List.map fst (group_location m location)).
Proof.
  intros Hm. unfold group_location. cbv zeta. apply NoDup_keys_update.
  destruct (JsMap.has m _); [done|]. by apply NoDup_keys_set.
Qed.

Lemma get_fold_group_location (locations : list LocationData.t)
    (m : list (Z * list LocationData.t)) (t : Z) :
  JsMap.get (fold_left group_location locations m) t
  = let new := List.filter (fun l => LocationData.date l =? t) locations in
    match JsMap.get m t with
    | Some g => Some (g ++ new)
    | None => match new with [] => None | _ => Some new end
    end.
Proof.
  revert m. induction locations as [|loc ls IH]; intros m; simpl.
  - destruct (JsMap.get m t); [by rewrite app_nil_r|done].
  - rewrite IH, get_group_location. cbv zeta.
    destruct (decide (LocationData.date loc = t)) as [Heq|Hne].
    + rewrite (proj2 (Z.eqb_eq _ _) Heq).
      destruct (JsMap.get m t) as [g|]; simpl; [by rewrite <- app_assoc|done].
    + by rewrite (proj2 (Z.eqb_neq _ _) Hne).
Qed.

Lemma timeGroups_NoDup (locations : list LocationData.t) :
  NoDup (List.map fst (timeGroups locations)).
Proof.
  unfold timeGroups. generalize (NoDup_nil_2 (A := Z)).
  change (@nil Z) with (List.map fst (@nil (Z * list LocationData.t))).
  generalize (@nil (Z * list LocationData.t)).
  induction locations as [|loc ls IH]; intros m Hm; simpl; [done|].
  apply IH. by apply keys_group_location_NoDup.
Qed.

Lemma elem_of_timeGroups (locations : list LocationData.t) (t : Z)
    (g : list LocationData.t) :
  (t, g) ∈ timeGroups locations
  <-> g = List.filter (fun l => LocationData.date l =? t) locations /\ g ≠ [].
Proof.
  pose proof (get_fold_group_location locations [] t) as Hget.
  cbv zeta in Hget. simpl in Hget. fold (timeGroups locations) in Hget. split.
  - intros Hin. apply elem_of_get in Hin; [|apply timeGroups_NoDup].
    rewrite Hin in Hget.
    destruct (List.filter _ locations) as [|l ls]; [done|]. by injection Hget as ->.
  - intros [-> Hne]. apply get_Some_elem_of. rewrite Hget.
    by destruct (List.filter _ locations).
Qed.

Lemma sorted_NoDup_strict (l : list Z) :
  StronglySorted Z.le l -> NoDup l -> StronglySorted Z.lt l.
Proof.
  induction 1 as [|x l Hs IH Hall]; intros Hnd; [constructor|].
  apply NoDup_cons in Hnd as [Hx Hnd]. constructor; [by apply IH|].
  rewrite Forall_forall in Hall. apply Forall_forall. intros y Hy.
  specialize (Hall y Hy). assert (x ≠ y) by (by intros ->). lia.
Qed.

Lemma replay_timestamps (dm : list (Z * Driver.t)) (positions : list Position.t)
    (locations : list LocationData.t) :
  List.map RaceReplayData.timestamp
    (List.map (fun group : Z * list LocationData.t =>
         RaceReplayData.mk group.1 (List.map (replay_driver dm positions) group.2))
       (timeGroups locations))
  = List.map fst (timeGroups locations).
Proof. rewrite List.map_map. by apply map_ext. Qed.

(** X23.  The frames that [getRaceReplayData] returns are in strictly
    increasing order of timestamp: no two frames share a timestamp (the date
    strings being of one format, see [LocationData]). *)
Theorem replay_data_strictly_sorted (drivers : option (list Driver.t))
    (locations : option (list LocationData.t)) (positions : option (list Position.t))
    (r : list RaceReplayData.t) :
  getRaceReplayData drivers locations positions = Some r ->
  StronglySorted Z.lt (List.map RaceReplayData.timestamp r).
Proof.
  unfold getRaceReplayData.
  destruct drivers as [ds|], locations as [ls|], positions as [ps|]; try done.
  cbv zeta. intros [= <-]. apply sorted_NoDup_strict.
  - apply (StronglySorted_fmap RaceReplayData.timestamp
             (fun a b => RaceReplayData.timestamp a <= RaceReplayData.timestamp b));
      [done|].
    apply js_sort_sorted with (ok := fun _ => True); intros; try lia.
    apply Forall_forall. by intros.
  - assert (Hperm : List.map RaceReplayData.timestamp
                      (js_sort (fun a b => RaceReplayData.timestamp a
                                           - RaceReplayData.timestamp b)
                         (List.map (fun group : Z * list LocationData.t =>
                              RaceReplayData.mk group.1
                                (List.map (replay_driver (driverMap ds) ps) group.2))
                            (timeGroups ls)))
                    ≡ₚ List.map fst (timeGroups ls)).
    { rewrite <- (replay_timestamps (driverMap ds) ps ls).
      apply Permutation_map, js_sort_perm. }
    rewrite Hperm. apply timeGroups_NoDup.
Qed.

(** X24.  A frame of [getRaceReplayData] holds one entry for each location
    record that carries the timestamp of the frame, in the order of the
    records, and there is at least one; every location record is in the frame
    of its date. *)
Theorem replay_data_groups_by_date (drivers : list Driver.t)
    (locations : list LocationData.t) (positions : list Position.t)
    (r : list RaceReplayData.t) :
  getRaceReplayData (Some drivers) (Some locations) (Some positions) = Some r ->
  (forall f, f ∈ r ->
     RaceReplayData.drivers f
     = List.map (replay_driver (driverMap drivers) positions)
         (List.filter (fun l => LocationData.date l =? RaceReplayData.timestamp f)
            locations)
     /\ RaceReplayData.drivers f ≠ [])
  /\ forall l, l ∈ locations ->
       exists f, f ∈ r /\ RaceReplayData.timestamp f = LocationData.date l.
Proof.
  unfold getRaceReplayData. cbv zeta. intros [= <-]. split.
  - intros f [[t g] [<- Hin%list_elem_of_In]]%elem_of_js_sort%list_elem_of_In%in_map_iff.
    apply elem_of_timeGroups in Hin as [-> Hne]. simpl. split; [done|].
    by destruct (List.filter _ locations).
  - intros l Hl.
    set (g := List.filter (fun l' => LocationData.date l' =? LocationData.date l)
                locations).
    assert (Hg : (LocationData.date l, g) ∈ timeGroups locations).
    { apply elem_of_timeGroups. split; [done|].
      assert (Hin : l ∈ g).
      { apply list_elem_of_In, filter_In. split; [by apply list_elem_of_In|].
        apply Z.eqb_refl. }
      intros Hnil. rewrite Hnil in Hin. by apply elem_of_nil in Hin. }
    eexists. split.
    + apply elem_of_js_sort, list_elem_of_In, in_map_iff.
      eexists. split; [reflexivity|]. apply list_elem_of_In, Hg.
    + done.
Qed.

Lemma find_app_cases {A : Type} (f : A -> bool) (l1 l2 : list A) :
  List.find f (l1 ++ l2)
  = match List.find f l1 with Some x => Some x | None => List.find f l2 end.
Proof. induction l1 as [|y l1 IH]; simpl; [done|]. by destruct (f y). Qed.

Lemma get_fold_driverMap (drivers : list Driver.t) (m : list (Z * Driver.t)) (n : Z) :
  JsMap.get (fold_left (fun m d => JsMap.set m (Driver.driver_number d) d) drivers m) n
  = match List.find (fun d => Driver.driver_number d =? n) (rev drivers) with
    | Some d => Some d
    | None => JsMap.get m n
    end.
Proof.
  revert m. induction drivers as [|d ds IH]; intros m; simpl; [done|].
  rewrite IH, find_app_cases.
  destruct (List.find _ (rev ds)) as [d'|]; [done|]. simpl.
  destruct (Z.eqb_spec (Driver.driver_number d) n) as [<-|Hne].
  - by rewrite get_set_eq.
  - by rewrite get_set_ne.
Qed.

Lemma find_none_all {A : Type} (f : A -> bool) (l : list A) :
  (forall x, x ∈ l -> f x = false) -> List.find f l = None.
Proof.
  induction l as [|y l IH]; intros Hall; simpl; [done|].
  rewrite (Hall y) by left. apply IH. intros x Hx. apply Hall. by right.
Qed.

(** X25.  A replay entry carries the number and the coordinates of its
    location record.  Its colour and its acronym are those of the last driver
    record with the car's number (the placeholders when there is no such
    record, or when the field is empty).  Its position is that of the first
    position sample of the car, in the order of the records, that is strictly
    within 5 seconds of the location record, and 0 without such a sample. *)
Theorem replay_driver_fields (drivers : list Driver.t) (positions : list Position.t)
    (location : LocationData.t) :
  let e := replay_driver (driverMap drivers) positions location in
  let n := LocationData.driver_number location in
  ReplayDriver.driver_number e = n
  /\ ReplayDriver.x e = LocationData.x location
  /\ ReplayDriver.y e = LocationData.y location
  /\ (forall d, last (List.filter (fun d => Driver.driver_number d =? n) drivers) = Some d ->
        ReplayDriver.team_colour e = str_or (Driver.team_colour d) "#ffffff"
        /\ ReplayDriver.name_acronym e
           = str_or (Driver.name_acronym d) ("D" ++ show_number n))
  /\ (n ∉ List.map Driver.driver_number drivers ->
        ReplayDriver.team_colour e = "#ffffff"%string
        /\ ReplayDriver.name_acronym e = ("D" ++ show_number n)%string)
  /\ (forall pre p post, positions = pre ++ p :: post ->
        Position.driver_number p = n ->
        Z.abs (Position.date p - LocationData.date location) < 5000 ->
        (forall p', p' ∈ pre -> Position.driver_number p' = n ->
           5000 <= Z.abs (Position.date p' - LocationData.date location)) ->
        ReplayDriver.position e = Position.position p)
  /\ ((forall p, p ∈ positions -> Position.driver_number p = n ->
         5000 <= Z.abs (Position.date p - LocationData.date location)) ->
      ReplayDriver.position e = 0).
Proof.
  cbv zeta. unfold replay_driver, driverMap. cbn [ReplayDriver.driver_number
    ReplayDriver.x ReplayDriver.y
    ReplayDriver.team_colour ReplayDriver.name_acronym ReplayDriver.position].
  rewrite get_fold_driverMap. simpl JsMap.get.
  split; [done|]. split; [done|]. split; [done|]. split; [|split; [|split]].
  - intros d Hlast.
    assert (Hfind : List.find (fun d => Driver.driver_number d
                                         =? LocationData.driver_number location)
                      (rev drivers) = Some d).
    { clear -Hlast. induction drivers as [|d0 ds IH] using rev_ind; [done|].
      rewrite rev_app_distr. simpl. rewrite List.filter_app in Hlast. simpl in Hlast.
      destruct (Driver.driver_number d0 =? LocationData.driver_number location).
      - rewrite last_snoc in Hlast. by injection Hlast as ->.
      - rewrite app_nil_r in Hlast. by apply IH. }
    by rewrite Hfind.
  - intros Hn.
    destruct (List.find _ (rev drivers)) as [d|] eqn:Hfind; [|done].
    apply find_some in Hfind as [Hin%in_rev Heq%Z.eqb_eq]. destruct Hn.
    rewrite <- Heq. by apply list_elem_of_In, in_map.
  - intros pre p post -> Hn Hnear Hpre.
    rewrite find_app_cases, find_none_all.
    + simpl. rewrite Hn, Z.eqb_refl. simpl.
      destruct (Z.ltb_spec (Z.abs (Position.date p - LocationData.date location)) 5000);
        [|lia].
      simpl. by destruct (Z.eqb_spec (Position.position p) 0) as [->|].
    + intros p' Hp'.
      destruct (Z.eqb_spec (Position.driver_number p')
                  (LocationData.driver_number location)) as [Heq|]; [|done].
      specialize (Hpre p' Hp' Heq). simpl. apply Z.ltb_ge. lia.
  - intros Hfar.
    destruct (List.find _ positions) as [p|] eqn:Hfind; [|done].
    apply find_some in Hfind as [Hin%list_elem_of_In [Hn%Z.eqb_eq Hd%Z.ltb_lt]%andb_prop].
    specialize (Hfar p Hin Hn). lia.
Qed.

(** ** Meetings *)

Lemma get_fold_meetings (sessions : list SessionInfo.t) (m : list (Z * Meeting.t))
    (k : Z) :
  JsMap.get
    (fold_left (fun m session =>
         if JsMap.has m (SessionInfo.meeting_key session) then m
         else JsMap.set m (SessionInfo.meeting_key session) (meeting_of session))
       sessions m) k
  = match JsMap.get m k with
    | Some v => Some v
    | None =>
        meeting_of <$> List.find (fun s => SessionInfo.meeting_key s =? k) sessions
    end.
Proof.
  revert m. induction sessions as [|s ss IH]; intros m; simpl.
  - by destruct (JsMap.get m k).
  - rewrite IH. unfold JsMap.has.
    destruct (Z.eqb_spec (SessionInfo.meeting_key s) k) as [<-|Hne].
    + destruct (JsMap.get m (SessionInfo.meeting_key s)) as [v|] eqn:Hg.
      * by rewrite Hg.
      * by rewrite get_set_eq.
    + destruct (JsMap.get m (SessionInfo.meeting_key s)); [done|].
      by rewrite get_set_ne.
Qed.

Lemma meetingsMap_NoDup (sessions : list SessionInfo.t) :
  NoDup (List.map fst (meetingsMap sessions)).
Proof.
  unfold meetingsMap. generalize (NoDup_nil_2 (A := Z)).
  change (@nil Z) with (List.map fst (@nil (Z * Meeting.t))).
  generalize (@nil (Z * Meeting.t)).
  induction sessions as [|s ss IH]; intros m Hm; simpl; [done|].
  apply IH. destruct (JsMap.has m _); [done|]. by apply NoDup_keys_set.
Qed.

Lemma elem_of_meetingsMap (sessions : list SessionInfo.t) (k : Z) (v : Meeting.t) :
  (k, v) ∈ meetingsMap sessions
  <-> exists s, List.find (fun s => SessionInfo.meeting_key s =? k) sessions = Some s
                /\ v = meeting_of s.
Proof.
  pose proof (get_fold_meetings sessions [] k) as Hget. simpl in Hget.
  fold (meetingsMap sessions) in Hget. split.
  - intros Hin. apply elem_of_get in Hin; [|apply meetingsMap_NoDup].
    rewrite Hin in Hget. destruct (List.find _ sessions) as [s|]; [|done].
    exists s. split; [done|]. simpl in Hget. congruence.
  - intros (s & Hs & ->). apply get_Some_elem_of. by rewrite Hget, Hs.
Qed.

(** X26.  [getMeetings] lists every meeting key of the sessions once, and
    describes each meeting by the first session that carries its key. *)
Theorem meetings_unique_first (sessions : list SessionInfo.t) (result : list Meeting.t) :
  getMeetings (Some sessions) = Some result ->
  NoDup (List.map Meeting.meeting_key result)
  /\ forall m, m ∈ result
       <-> exists s,
             List.find (fun s => SessionInfo.meeting_key s =? Meeting.meeting_key m)
               sessions = Some s
             /\ m = meeting_of s.
Proof.
  unfold getMeetings. intros [= <-].
  assert (Hkey : forall k v, (k, v) ∈ meetingsMap sessions -> Meeting.meeting_key v = k).
  { intros k v (s & Hs & ->)%elem_of_meetingsMap.
    apply find_some in Hs as [_ Hk%Z.eqb_eq]. done. }
  split.
  - assert (Heq : List.map Meeting.meeting_key (List.map snd (meetingsMap sessions))
                  = List.map fst (meetingsMap sessions)).
    { rewrite List.map_map. apply map_ext_in. intros [k v] Hin%list_elem_of_In.
      simpl. by apply Hkey. }
    rewrite Heq. apply meetingsMap_NoDup.
  - intros m. rewrite list_elem_of_In, in_map_iff. split.
    + intros ([k v] & <- & Hin%list_elem_of_In). simpl.
      rewrite (Hkey k v Hin). by apply elem_of_meetingsMap.
    + intros Hm. exists (Meeting.meeting_key m, m). split; [done|].
      by apply list_elem_of_In, elem_of_meetingsMap.
Qed.

(** ** The theorems of this part, on samples *)

Lemma replay_data_strictly_sorted_witness :
  getRaceReplayData (Some race_drivers) (Some sample_locations) (Some race_positions)
  = Some (default [] sample_replay)
  /\ StronglySorted Z.lt (List.map RaceReplayData.timestamp (default [] sample_replay)).
Proof.
  assert (H : getRaceReplayData (Some race_drivers) (Some sample_locations)
                (Some race_positions) = Some (default [] sample_replay))
    by (vm_compute; reflexivity).
  split; [exact H|].
  exact (replay_data_strictly_sorted _ _ _ _ H).
Defined.

Lemma replay_data_groups_by_date_witness :
  getRaceReplayData (Some race_drivers) (Some sample_locations) (Some race_positions)
  = Some (default [] sample_replay)
  /\ forall l, l ∈ sample_locations ->
       exists f, f ∈ default [] sample_replay
                 /\ RaceReplayData.timestamp f = LocationData.date l.
Proof.
  assert (H : getRaceReplayData (Some race_drivers) (Some sample_locations)
                (Some race_positions) = Some (default [] sample_replay))
    by (vm_compute; reflexivity).
  split; [exact H|].
  exact (proj2 (replay_data_groups_by_date _ _ _ _ H)).
Defined.

Lemma replay_driver_fields_witness :
  let e := replay_driver (driverMap race_drivers) race_positions
             (LocationData.mk 90000 44 10 12) in
  last (List.filter (fun d => Driver.driver_number d =? 44) race_drivers) = Some HAM
  /\ race_positions
     = [ Position.mk 0 1 1; Position.mk 0 11 2; Position.mk 0 44 3; Position.mk 0 4 4;
         Position.mk 40000 44 3 ] ++ Position.mk 93000 44 2 :: [ Position.mk 93000 11 3 ]
  /\ Z.abs (93000 - 90000) < 5000
  /\ (ReplayDriver.driver_number e, ReplayDriver.x e, ReplayDriver.y e) = (44, 10, 12)
  /\ ReplayDriver.team_colour e = str_or (Driver.team_colour HAM) "#ffffff"
  /\ ReplayDriver.name_acronym e = str_or (Driver.name_acronym HAM) ("D" ++ show_number 44)
  /\ ReplayDriver.position e = 2.
Proof.
  intros e.
  assert (H : last (List.filter (fun d => Driver.driver_number d =? 44) race_drivers)
              = Some HAM) by reflexivity.
  assert (Hpos : race_positions
     = [ Position.mk 0 1 1; Position.mk 0 11 2; Position.mk 0 44 3; Position.mk 0 4 4;
         Position.mk 40000 44 3 ] ++ Position.mk 93000 44 2 :: [ Position.mk 93000 11 3 ])
    by reflexivity.
  assert (Hnear : Z.abs (93000 - 90000) < 5000) by lia.
  assert (Hpre : forall p', p' ∈ [ Position.mk 0 1 1; Position.mk 0 11 2;
                                   Position.mk 0 44 3; Position.mk 0 4 4;
                                   Position.mk 40000 44 3 ] ->
                   Position.driver_number p' = 44 ->
                   5000 <= Z.abs (Position.date p' - 90000)).
  { intros p' Hp' Hn'.
    repeat (apply elem_of_cons in Hp' as [->|Hp']; [simpl in *; lia|]).
    by apply elem_of_nil in Hp'. }
  split; [exact H|]. split; [exact Hpos|]. split; [exact Hnear|].
  destruct (replay_driver_fields race_drivers race_positions
              (LocationData.mk 90000 44 10 12))
    as (Hn & Hx & Hy & Hlast & _ & Hfirst & _).
  split; [unfold e; by rewrite Hn, Hx, Hy|].
  split; [exact (proj1 (Hlast HAM H))|].
  split; [exact (proj2 (Hlast HAM H))|].
  exact (Hfirst _ (Position.mk 93000 44 2) _ Hpos eq_refl Hnear Hpre).
Defined.

Lemma meetings_unique_first_witness :
  getMeetings (Some sample_sessions_info)
  = Some (default [] (getMeetings (Some sample_sessions_info)))
  /\ NoDup (List.map Meeting.meeting_key
              (default [] (getMeetings (Some sample_sessions_info)))).
Proof.
  assert (H : getMeetings (Some sample_sessions_info)
              = Some (default [] (getMeetings (Some sample_sessions_info))))
    by reflexivity.
  split; [exact H|].
  exact (proj1 (meetings_unique_first _ _ H)).
Defined.

(* ===================================================================== *)
(** * More on the standings *)
(* ===================================================================== *)

Lemma season_stats_agree (api api' : Api) (sessions : list Session.t) :
  (forall s, s ∈ sessions -> is_race_session s = true ->
     getDrivers api (Session.session_key s) = getDrivers api' (Session.session_key s)
     /\ getPositions api (Session.session_key s)
        = getPositions api' (Session.session_key s)) ->
  season_stats api sessions = season_stats api' sessions.
Proof.
  intros Hagree. unfold season_stats.
  assert (Hsub : forall s, s ∈ List.filter is_race_session sessions ->
            s ∈ sessions /\ is_race_session s = true).
  { intros s Hs%list_elem_of_In%filter_In. by rewrite list_elem_of_In. }
  revert Hsub. generalize (mkStats [] []).
  induction (List.filter is_race_session sessions) as [|s l IH]; intros st Hsub; simpl;
    [done|].
  destruct (Hsub s) as [Hs Hrace]; [left|].
  destruct (Hagree s Hs Hrace) as [Hd Hp].
  unfold process_session at 2 4. rewrite Hd, Hp.
  apply IH. intros s' Hs'. apply Hsub. by right.
Qed.

(** X27.  The standings read the drivers and the positions of the race
    sessions only (a name that contains race and not sprint): two back ends
    that list the same sessions and answer alike for the race sessions give
    the same standings, whatever they answer for the other sessions. *)
Theorem standings_read_race_sessions_only (sort : engine_sort) (api api' : Api)
    (year : Z) (sessions : list Session.t) :
  getSessions api year = Some sessions ->
  getSessions api' year = Some sessions ->
  (forall s, s ∈ sessions -> is_race_session s = true ->
     getDrivers api (Session.session_key s) = getDrivers api' (Session.session_key s)
     /\ getPositions api (Session.session_key s)
        = getPositions api' (Session.session_key s)) ->
  getChampionshipStandings sort api year = getChampionshipStandings sort api' year.
Proof.
  intros Hs Hs' Hagree. unfold getChampionshipStandings. rewrite Hs, Hs'. cbv zeta.
  by rewrite (season_stats_agree api api' sessions Hagree).
Qed.

Lemma podiums_award_other (ds : list Driver.t) (st : Stats) (k q n : Z) :
  k ≠ n -> podiums_of (award ds st (k, q)) n = podiums_of st n.
Proof. intros Hk. unfold podiums_of. by rewrite award_driver_other. Qed.

Lemma podiums_award_this (ds : list Driver.t) (st : Stats) (n p : Z) :
  0 <= podiums_of st n ->
  podiums_of st n <= podiums_of (award ds st (n, p)) n <= podiums_of st n + 1.
Proof.
  intros H0. unfold podiums_of in *.
  destruct (List.find (fun d => Driver.driver_number d =? n) ds) as [d|] eqn:Hd.
  - rewrite (award_driver_this ds st n p d Hd). simpl.
    destruct (JsMap.get (driverStats st) n) as [s|]; simpl in *;
      unfold bump; destruct (p <=? 3); lia.
  - unfold award. rewrite Hd. lia.
Qed.

Lemma podiums_award_session (ds : list Driver.t) (ps : list Position.t) (st : Stats)
    (n : Z) :
  0 <= podiums_of st n ->
  podiums_of st n <= podiums_of (award_session ds ps st) n <= podiums_of st n + 1.
Proof.
  unfold award_session. pose proof (finalPositions_keys_NoDup ps) as Hnd.
  revert st Hnd. induction (finalPositions ps) as [|[k q] l IH]; intros st Hnd H0;
    simpl; [lia|].
  simpl in Hnd. apply NoDup_cons in Hnd as [Hk Hnd].
  destruct (decide (k = n)) as [->|Hne].
  - unfold podiums_of at 2 3. rewrite fold_award_other by done.
    fold (podiums_of (award ds st (n, q)) n). by apply podiums_award_this.
  - pose proof (podiums_award_other ds st k q n Hne) as Heq.
    rewrite <- Heq. apply IH; [done|]. by rewrite Heq.
Qed.

Lemma podiums_season (api : Api) (l : list Session.t) (st : Stats) (n : Z) :
  0 <= podiums_of st n ->
  podiums_of st n <= podiums_of (fold_left (process_session api) l st) n
  <= podiums_of st n + Z.of_nat (List.length l).
Proof.
  revert st. induction l as [|s l IH]; intros st H0; simpl fold_left; [simpl; lia|].
  assert (Hstep : podiums_of st n <= podiums_of (process_session api st s) n
                  <= podiums_of st n + 1).
  { unfold process_session.
    destruct (getDrivers api _) as [ds|]; [|lia].
    destruct (getPositions api _) as [ps|]; [|lia].
    by apply podiums_award_session. }
  specialize (IH (process_session api st s) ltac:(lia)).
  rewrite length_cons. lia.
Qed.

(** X28.  A driver has at most one podium (and so at most one win) for each
    race session of the season: a session credits a car once, however many
    position samples it holds for the car. *)
Theorem driver_podiums_bounded (sort : engine_sort) (api : Api) (year : Z)
    (sessions : list Session.t) (r : ChampionshipData.t) (d : DriverStanding.t) :
  permuting sort ->
  getSessions api year = Some sessions ->
  getChampionshipStandings sort api year = Some r ->
  d ∈ ChampionshipData.drivers r ->
  DriverStanding.wins d <= DriverStanding.podiums d
  /\ DriverStanding.podiums d
     <= Z.of_nat (List.length (List.filter is_race_session sessions)).
Proof.
  intros Hperm Hs. unfold getChampionshipStandings. rewrite Hs. cbv zeta.
  intros [= <-]. simpl. intros Hd.
  destruct (elem_of_driverStandings _ _ _ Hperm Hd) as (s & Hin & Hscore & _).
  injection Hscore as _ Hw Hp. rewrite Hw, Hp.
  pose proof (season_stats_keys_NoDup api sessions) as [Hnd _].
  apply (elem_of_get _ _ _ Hnd) in Hin.
  pose proof (podiums_season api (List.filter is_race_session sessions)
                (mkStats [] []) (DriverStanding.driver_number d)) as Hbound.
  fold (season_stats api sessions) in Hbound. unfold podiums_of in Hbound.
  rewrite Hin in Hbound. simpl in Hbound. split; [|lia].
  assert (Hc : Forall (fun x : Z * DriverStat.t => DriverStat.wins x.2
                                                   <= DriverStat.podiums x.2)
                 (driverStats (season_stats api sessions))).
  { apply (season_stats_ind
             (fun st => Forall (fun x : Z * DriverStat.t =>
                                  DriverStat.wins x.2 <= DriverStat.podiums x.2)
                          (driverStats st))); [constructor|].
    intros s0 ds ps st [k q] _ _ _ _ _ Hst. unfold award.
    destruct (List.find _ ds) as [driver|]; [|done]. simpl.
    apply Forall_update.
    - destruct (JsMap.has _ _); [done|]. apply Forall_set; [done|]. simpl. lia.
    - intros v Hv. simpl in *. unfold bump.
      destruct (Z.eqb_spec q 1), (Z.leb_spec q 3); lia. }
  rewrite Forall_forall in Hc. apply get_Some_elem_of in Hin.
  apply (Hc _ Hin).
Qed.

Lemma standings_read_race_sessions_only_witness :
  getSessions sample_api 2024 = Some sample_sessions
  /\ getSessions sample_api_no_sprint 2024 = Some sample_sessions
  /\ getChampionshipStandings stable_sort sample_api 2024
     = getChampionshipStandings stable_sort sample_api_no_sprint 2024.
Proof.
  assert (H1 : getSessions sample_api 2024 = Some sample_sessions) by reflexivity.
  assert (H2 : getSessions sample_api_no_sprint 2024 = Some sample_sessions)
    by reflexivity.
  assert (H3 : forall s, s ∈ sample_sessions -> is_race_session s = true ->
     getDrivers sample_api (Session.session_key s)
     = getDrivers sample_api_no_sprint (Session.session_key s)
     /\ getPositions sample_api (Session.session_key s)
        = getPositions sample_api_no_sprint (Session.session_key s)).
  { intros s Hs Hrace. unfold sample_sessions in Hs.
    repeat (apply elem_of_cons in Hs as [->|Hs]);
      [by split|by vm_compute in Hrace|by split|by split|by apply elem_of_nil in Hs]. }
  split; [exact H1|]. split; [exact H2|].
  exact (standings_read_race_sessions_only stable_sort sample_api sample_api_no_sprint
           2024 sample_sessions H1 H2 H3).
Defined.

Lemma driver_podiums_bounded_witness :
  permuting stable_sort
  /\ getSessions sample_api 2024 = Some sample_sessions
  /\ getChampionshipStandings stable_sort sample_api 2024 = Some sample_standings
  /\ nth 0 (ChampionshipData.drivers sample_standings)
       (DriverStanding.mk 0 0 "" "" "" "" (Num 0) 0 0)
     ∈ ChampionshipData.drivers sample_standings
  /\ DriverStanding.podiums
       (nth 0 (ChampionshipData.drivers sample_standings)
          (DriverStanding.mk 0 0 "" "" "" "" (Num 0) 0 0))
     <= Z.of_nat (List.length (List.filter is_race_session sample_sessions)).
Proof.
  assert (H1 : getSessions sample_api 2024 = Some sample_sessions) by reflexivity.
  assert (H2 : getChampionshipStandings stable_sort sample_api 2024
               = Some sample_standings) by (vm_compute; reflexivity).
  assert (H3 : nth 0 (ChampionshipData.drivers sample_standings)
                 (DriverStanding.mk 0 0 "" "" "" "" (Num 0) 0 0)
               ∈ ChampionshipData.drivers sample_standings).
  { apply list_elem_of_lookup. exists 0%nat. by vm_compute. }
  split; [exact stable_sort_permuting|].
  split; [exact H1|]. split; [exact H2|]. split; [exact H3|].
  exact (proj2 (driver_podiums_bounded stable_sort sample_api 2024 sample_sessions
                  sample_standings _ stable_sort_permuting H1 H2 H3)).
Defined.

(* ===================================================================== *)
(** * Frame times and lap times *)
(* ===================================================================== *)

Section ReplayTimes.
Context (now0 now1 : Z).
Context (drivers : list Driver.t) (positions : list Position.t) (laps : list Lap.t).
Context (qualifyingPositions : gmap Z Z) (raceControl : list RaceControl.t).

Local Abbreviation finishing := (finishingDrivers drivers laps).
Local Abbreviation completions :=
  (allLapCompletions drivers positions laps qualifyingPositions).
Local Abbreviation frame :=
  (frame_at now0 now1 drivers positions laps qualifyingPositions raceControl).
Local Abbreviation frames :=
  (processRaceData now0 now1 drivers positions laps qualifyingPositions raceControl).
Local Abbreviation time :=
  (currentTime now0 now1 drivers positions laps qualifyingPositions).

(** X29.  The timestamps of the frames never decrease, provided the window
    of the replay is not reversed: this is so as soon as there is a lap
    completion, and otherwise when the second clock reading is not more than
    a second before the first. *)
Theorem frame_timestamps_ascending :
  allLapCompletions drivers positions laps qualifyingPositions ≠ []
  \/ now0 <= now1 + 1000 ->
  StronglySorted Z.le
    (List.map PositionChartData.timestamp
       (processRaceData now0 now1 drivers positions laps qualifyingPositions
          raceControl)).
Proof.
  intros Hwin.
  assert (Hse : startTime now0 drivers positions laps qualifyingPositions
                <= endTime now1 drivers positions laps qualifyingPositions).
  { destruct (decide (completions = [])) as [Hnil|Hne].
    - destruct Hwin as [Hne|Hclock]; [done|].
      unfold startTime, endTime. by rewrite Hnil.
    - by apply start_before_end. }
  rewrite (frames_timestamps_map now0 now1 drivers positions laps qualifyingPositions
             raceControl).
  pose proof (timeIntervals_ge_2 laps) as Hn.
  rewrite <- (Z2Nat.id (timeIntervals laps + 1)) by lia.
  apply sorted_map_seqZ. intros i j _ Hij _.
  by apply time_clip_mono, time_nondecreasing.
Qed.

(** ** The lap behind the timing fields of an entry *)

Lemma latestLap_None (now : Q) (d : Driver.t) :
  latestLap laps now d = None ->
  forall lap, lap ∈ laps -> Lap.driver_number lap = Driver.driver_number d ->
    ~ (inject_Z (Lap.date_start lap) <= now)%Q.
Proof.
  unfold latestLap. intros Hnone lap Hin Hd Hstart.
  assert (Hlap : lap ∈ js_sort (fun a b => Lap.lap_number b - Lap.lap_number a)
                   (List.filter (fun lap =>
                        (Lap.driver_number lap =? Driver.driver_number d)
                        && Qle_bool (inject_Z (Lap.date_start lap)) now) laps)).
  { apply elem_of_js_sort, list_elem_of_In, filter_In.
    split; [by apply list_elem_of_In|].
    by rewrite (proj2 (Z.eqb_eq _ _) Hd), (proj2 (Qle_bool_iff _ _) Hstart). }
  destruct (js_sort _ _); [by apply elem_of_nil in Hlap|done].
Qed.

Lemma latestLap_Some (now : Q) (d : Driver.t) (lap : Lap.t) :
  latestLap laps now d = Some lap ->
  lap ∈ laps
  /\ Lap.driver_number lap = Driver.driver_number d
  /\ (inject_Z (Lap.date_start lap) <= now)%Q
  /\ forall lap', lap' ∈ laps -> Lap.driver_number lap' = Driver.driver_number d ->
       (inject_Z (Lap.date_start lap') <= now)%Q ->
       Lap.lap_number lap' <= Lap.lap_number lap.
Proof.
  unfold latestLap. intros Hhead.
  set (started := List.filter (fun lap =>
                      (Lap.driver_number lap =? Driver.driver_number d)
                      && Qle_bool (inject_Z (Lap.date_start lap)) now) laps) in *.
  assert (Hs : StronglySorted (fun a b => Lap.lap_number b <= Lap.lap_number a)
                 (js_sort (fun a b => Lap.lap_number b - Lap.lap_number a) started)).
  { apply js_sort_sorted with (ok := fun _ => True); intros; try lia.
    apply Forall_forall. by intros. }
  assert (Hmem : forall x, x ∈ js_sort (fun a b => Lap.lap_number b - Lap.lap_number a)
                               started
                   <-> x ∈ laps /\ Lap.driver_number x = Driver.driver_number d
                       /\ (inject_Z (Lap.date_start x) <= now)%Q).
  { intros x. rewrite elem_of_js_sort. unfold started.
    rewrite list_elem_of_In, filter_In, andb_true_iff, Z.eqb_eq, Qle_bool_iff,
      <- list_elem_of_In. tauto. }
  destruct (js_sort _ started) as [|l0 ls] eqn:Hsorted; [done|].
  simpl in Hhead. injection Hhead as ->.
  destruct (proj1 (Hmem lap)) as (Hin & Hd & Hstart); [left|].
  split; [done|]. split; [done|]. split; [done|].
  intros lap' Hin' Hd' Hstart'.
  assert (Hlap' : lap' ∈ lap :: ls) by (by apply Hmem).
  apply elem_of_cons in Hlap' as [->|Hlap']; [lia|].
  apply StronglySorted_inv in Hs as [_ Hall]. rewrite Forall_forall in Hall.
  by apply Hall.
Qed.

Lemma entries_from_chart_position (now global : Q) (states : list (Z * DriverState.t))
    (ds : list Driver.t) :
  Forall (fun e => exists st d,
      d ∈ ds /\ (chart_position laps now global st d).2 = Some e)
    (filter_Boolean (map_chart_positions laps now global states ds).2).
Proof.
  revert states. induction ds as [|d ds IH]; intros states; [constructor|].
  rewrite map_chart_positions_cons. cbv zeta. cbn [snd]. rewrite filter_Boolean_cons.
  assert (Hrest : Forall (fun e => exists st d0,
              d0 ∈ d :: ds /\ (chart_position laps now global st d0).2 = Some e)
            (filter_Boolean
               (map_chart_positions laps now global
                  (chart_position laps now global states d).1 ds).2)).
  { eapply Forall_impl; [apply IH|]. intros e (st & d0 & Hd0 & He).
    exists st, d0. split; [by right|done]. }
  destruct (chart_position laps now global states d).2 as [e|] eqn:He; [|done].
  constructor; [|done]. exists states, d. split; [left|done].
Qed.

Lemma frames_entries_made :
  Forall2 (fun i f => forall e, e ∈ PositionChartData.positions f ->
      exists st d, d ∈ finishing
        /\ (chart_position laps (time i) (globalProgress laps i) st d).2 = Some e)
    (seqZ 0 (timeIntervals laps + 1)) frames.
Proof.
  unfold processRaceData.
  apply (loop_Forall2_index now0 now1 drivers positions laps qualifyingPositions
           raceControl (fun _ => True)); [|done].
  intros st i _ _. split; [done|].
  rewrite (frame_at_eq now0 now1 drivers positions laps qualifyingPositions raceControl).
  cbv zeta. cbn [snd PositionChartData.positions]. intros e He%elem_of_js_sort.
  pose proof (entries_from_chart_position (time i) (globalProgress laps i)
                (advance_states drivers positions laps qualifyingPositions (time i) st)
                finishing) as H.
  rewrite Forall_forall in H. by apply H.
Qed.

(** X30.  The four timing fields of an entry of the frame of index [i] are
    read from one lap record: a lap record of the car that started no later
    than the time of the frame and has the highest lap number among these
    (whether or not it has a duration); a missing or zero value is shown as
    [null], and all four are [null] when no lap of the car has started. *)
Theorem entry_lap_time_source (i : nat) (f : PositionChartData.t) (e : ChartPosition.t) :
  frames !! i = Some f -> e ∈ PositionChartData.positions f ->
  ((forall lap, lap ∈ laps ->
      Lap.driver_number lap = ChartPosition.driver_number e ->
      ~ (inject_Z (Lap.date_start lap) <= time (Z.of_nat i))%Q)
   /\ ChartPosition.last_lap_time e = None
   /\ ChartPosition.sector_1_time e = None
   /\ ChartPosition.sector_2_time e = None
   /\ ChartPosition.sector_3_time e = None)
  \/ exists lap, lap ∈ laps
       /\ Lap.driver_number lap = ChartPosition.driver_number e
       /\ (inject_Z (Lap.date_start lap) <= time (Z.of_nat i))%Q
       /\ (forall lap', lap' ∈ laps ->
             Lap.driver_number lap' = ChartPosition.driver_number e ->
             (inject_Z (Lap.date_start lap') <= time (Z.of_nat i))%Q ->
             Lap.lap_number lap' <= Lap.lap_number lap)
       /\ ChartPosition.last_lap_time e = frac_or_null (Lap.lap_duration lap)
       /\ ChartPosition.sector_1_time e = frac_or_null (Lap.duration_sector_1 lap)
       /\ ChartPosition.sector_2_time e = frac_or_null (Lap.duration_sector_2 lap)
       /\ ChartPosition.sector_3_time e = frac_or_null (Lap.duration_sector_3 lap).
Proof.
  intros Hf He.
  destruct (Forall2_lookup_r _ _ _ _ _ frames_entries_made Hf) as (j & Hj & Hmade).
  apply lookup_seqZ in Hj as [-> _]. rewrite Z.add_0_l in Hmade.
  destruct (Hmade e He) as (st & d & _ & Hentry).
  unfold chart_position in Hentry.
  destruct (JsMap.get st (Driver.driver_number d)) as [s|]; [|done].
  simpl in Hentry. injection Hentry as <-. simpl.
  destruct (latestLap laps (time (Z.of_nat i)) d) as [lap|] eqn:Hlatest.
  - right. exists lap.
    destruct (latestLap_Some _ _ _ Hlatest) as (Hin & Hd & Hstart & Hmax).
    by repeat split.
  - left. split; [|done]. by apply latestLap_None.
Qed.

End ReplayTimes.

Lemma frame_timestamps_ascending_witness :
  (allLapCompletions race_drivers race_positions pit_race_laps race_grid ≠ []
   \/ 0 <= 0 + 1000)
  /\ StronglySorted Z.le (List.map PositionChartData.timestamp pit_race_frames).
Proof.
  assert (H : allLapCompletions race_drivers race_positions pit_race_laps race_grid ≠ []
              \/ 0 <= 0 + 1000) by (right; lia).
  split; [exact H|].
  exact (frame_timestamps_ascending 0 0 race_drivers race_positions pit_race_laps
           race_grid race_control H).
Defined.

Lemma entry_lap_time_source_witness :
  pit_race_frames !! 0%nat = Some (pit_frame 0)
  /\ pit_entry 0 2 ∈ PositionChartData.positions (pit_frame 0)
  /\ ChartPosition.last_lap_time (pit_entry 0 2) = None.
Proof.
  assert (H0 : pit_race_frames !! 0%nat = Some (pit_frame 0))
    by (apply pit_frame_lookup; lia).
  assert (He : pit_entry 0 2 ∈ PositionChartData.positions (pit_frame 0))
    by (apply pit_entry_elem; lia).
  split; [exact H0|]. split; [exact He|].
  destruct (entry_lap_time_source 0 0 race_drivers race_positions pit_race_laps
              race_grid race_control 0%nat (pit_frame 0) (pit_entry 0 2) H0 He)
    as [(_ & Hnone & _)|(lap & _ & _ & _ & _ & Hlast & _)].
  - exact Hnone.
  - by vm_compute.
Defined.
